(** * Birth Chart API (Swiss Ephemeris): a shallow embedding of [app.py]

    The request handler of [app.py] is a linear pipeline over three external
    services (geocoders, a timezone index, the Swiss Ephemeris).  The
    embedding keeps the program's own arithmetic exact:

    - a Python [float] is a binary64 number, modelled by Rocq's primitive
      [float]; [+], [-], [*], [/] and the comparisons are the hardware
      operations, and the operations Python adds on top ([%], [//], [int],
      [round], [math.floor]) are written out below the way the interpreter
      computes them;
    - a Python [int] is a [Z];
    - an exception is a value of [exn], and code that may raise returns a
      [res]; the handler's calls into the outside world are recorded, in
      order, in a trace of [event]s;
    - the dictionary built by the planet loop is a [gmap] keyed by the body
      name. *)

From stdpp Require Import gmap strings list fin_maps.
From Stdlib Require Import ZArith Lia Floats.

Local Open Scope Z_scope.

(** ** Exceptions and results *)

(** [PyExc cls msg] is an instance of the [Exception] subclass [cls] whose
    [str()] is [msg]; [HTTPException] is FastAPI's, kept apart because the
    code catches and builds it by name. *)
Inductive exn :=
  | PyExc (cls : string) (msg : string)
  | HTTPException (status_code : Z) (detail : string).

Inductive res (A : Type) :=
  | Ok (a : A)
  | Raise (e : exn).
Arguments Ok {A} a.
Arguments Raise {A} e.

#[global] Instance res_ret : MRet res := fun A a => Ok a.
#[global] Instance res_bind : MBind res := fun A B k m =>
  match m with
  | Ok a => k a
  | Raise e => Raise e
  end.

Definition str_of_exn (e : exn) : string :=
  match e with
  | PyExc _ msg => msg
  | HTTPException code detail => detail
  end.

(** ** Binary64 values

    Every finite binary64 number is an integer multiple of [2^-1074], so its
    exact value is an integer once counted in that unit: [SF2Z] of the
    number [1.0] is [ONE = 2^1074]. *)

Definition ONE : Z := 2 ^ 1074.

Definition SF2Z (x : spec_float) : Z :=
  match x with
  | S754_finite s m e => cond_Zopp s (Z.pos m) * 2 ^ (e + 1074)
  | _ => 0
  end.

Definition float_val (x : float) : Z := SF2Z (Prim2SF x).

Definition SF_finite (x : spec_float) : bool :=
  match x with
  | S754_zero _ | S754_finite _ _ _ => true
  | _ => false
  end.

(** The nearest integer to [n / d] ([0 < d]), ties going to the even one. *)
Definition Zround_half_even (n d : Z) : Z :=
  let q := n / d in
  match 2 * (n mod d) ?= d with
  | Lt => q
  | Gt => q + 1
  | Eq => if Z.even q then q else q + 1
  end.

(** ** The interpreter's float operations *)

(** [int(x)]: truncation toward zero. *)
Definition py_int (x : float) : res Z :=
  match Prim2SF x with
  | S754_nan => Raise (PyExc "ValueError" "cannot convert float NaN to integer")
  | S754_infinity _ =>
      Raise (PyExc "OverflowError" "cannot convert float infinity to integer")
  | sf => Ok (Z.quot (SF2Z sf) ONE)
  end.

(** [math.floor(x)]. *)
Definition math_floor (x : float) : res Z :=
  match Prim2SF x with
  | S754_nan => Raise (PyExc "ValueError" "cannot convert float NaN to integer")
  | S754_infinity _ =>
      Raise (PyExc "OverflowError" "cannot convert float infinity to integer")
  | sf => Ok (SF2Z sf / ONE)
  end.

(** [round(x)] with one argument: the nearest integer, ties to even. *)
Definition py_round (x : float) : res Z :=
  match Prim2SF x with
  | S754_nan => Raise (PyExc "ValueError" "cannot convert float NaN to integer")
  | S754_infinity _ =>
      Raise (PyExc "OverflowError" "cannot convert float infinity to integer")
  | sf => Ok (Zround_half_even (SF2Z sf) ONE)
  end.

(** [float(n)] for an [int], also the coercion of an [int] operand of a
    mixed arithmetic operation: correctly rounded, [OverflowError] beyond
    the binary64 range. *)
Definition py_float (n : Z) : res float :=
  match binary_normalize prec emax n 0 false with
  | S754_infinity _ => Raise (PyExc "OverflowError" "int too large to convert to float")
  | sf => Ok (SF2Prim sf)
  end.

(** C's [fmod]: the remainder of the truncated quotient, computed exactly;
    it has the sign of [x]. *)
Definition SFfmod (x y : spec_float) : spec_float :=
  match x, y with
  | S754_nan, _ | _, S754_nan => S754_nan
  | S754_infinity _, _ => S754_nan
  | _, S754_zero _ => S754_nan
  | S754_zero _, _ => x
  | S754_finite _ _ _, S754_infinity _ => x
  | S754_finite sx mx ex, S754_finite sy my ey =>
      let e := Z.min ex ey in
      let X := Z.pos mx * 2 ^ (ex - e) in
      let Y := Z.pos my * 2 ^ (ey - e) in
      binary_normalize prec emax (cond_Zopp sx (X mod Y)) e sx
  end.

Definition fmod (x y : float) : float := SF2Prim (SFfmod (Prim2SF x) (Prim2SF y)).

(** C's [floor] on a double. *)
Definition c_floor (x : float) : float :=
  match Prim2SF x with
  | S754_finite s m e =>
      SF2Prim (binary_normalize prec emax (SF2Z (S754_finite s m e) / ONE) 0 s)
  | _ => x
  end.

(** C's [copysign(0.0, y)]. *)
Definition copysign_zero (y : float) : float :=
  if get_sign y then neg_zero else zero.

(** [v % w] on floats (CPython's [float_rem]): [fmod], then a remainder
    whose sign differs from the divisor's is moved by one divisor, in
    floating point. *)
Definition float_rem (vx wx : float) : res float :=
  if (wx =? 0)%float then Raise (PyExc "ZeroDivisionError" "float modulo")
  else
    let md := fmod vx wx in
    if negb (md =? 0)%float then
      if xorb (wx <? 0)%float (md <? 0)%float then Ok (md + wx)%float
      else Ok md
    else Ok (copysign_zero wx).

(** [v // w] on floats (the quotient of CPython's [_float_div_mod]). *)
Definition float_floor_div (vx wx : float) : res float :=
  if (wx =? 0)%float then Raise (PyExc "ZeroDivisionError" "float floor division by zero")
  else
    let md := fmod vx wx in
    let div := ((vx - md) / wx)%float in
    let div :=
      if negb (md =? 0)%float && xorb (wx <? 0)%float (md <? 0)%float
      then (div - 1)%float else div in
    if negb (div =? 0)%float then
      let floordiv := c_floor div in
      if (0.5 <? div - floordiv)%float then Ok (floordiv + 1)%float
      else Ok floordiv
    else Ok (copysign_zero (vx / wx)%float).

(** [l[i]] on a list: a negative index counts from the end. *)
Definition list_getitem {A} (l : list A) (i : Z) : res A :=
  let n := Z.of_nat (length l) in
  let j := if decide (i < 0) then i + n else i in
  if decide (0 <= j < n) then
    match l !! Z.to_nat j with
    | Some a => Ok a
    | None => Raise (PyExc "IndexError" "list index out of range")
    end
  else Raise (PyExc "IndexError" "list index out of range").

(** ** Module constants *)

Definition SIGNS : list string :=
  ["Aries"; "Taurus"; "Gemini"; "Cancer"; "Leo"; "Virgo";
   "Libra"; "Scorpio"; "Sagittarius"; "Capricorn"; "Aquarius"; "Pisces"].

(** ** The position formatter *)

Definition normalize_deg (deg : float) : res float := float_rem deg 360.

Definition zodiac_sign_and_pos (ecl_lon_deg : float) : res (string * float) :=
  lon ← normalize_deg ecl_lon_deg;
  q ← float_floor_div lon 30;
  sign_index ← py_int q;
  sign ← list_getitem SIGNS sign_index;
  k ← py_float sign_index;
  mret (sign, (lon - k * 30)%float).

Definition round_to_arcminute (pos_in_sign : float) : res (Z * Z) :=
  d ← py_int pos_in_sign;
  fd ← py_float d;
  m ← py_round ((pos_in_sign - fd) * 60)%float;
  if decide (m = 60) then
    let d := d + 1 in
    let m := 0 in
    if decide (d = 30) then mret (29, 59) else mret (d, m)
  else mret (d, m).

(** ** JSON values, as [r.json()] returns them *)

#[warnings="-register-all"]
Inductive json :=
  | JNull
  | JBool (b : bool)
  | JInt (n : Z)
  | JFloat (f : float)
  | JStr (s : string)
  | JList (l : list json)
  | JDict (kv : gmap string json).

(** Python truthiness, as [x or []] and [if not x] test it. *)
Definition json_truthy (j : json) : bool :=
  match j with
  | JNull => false
  | JBool b => b
  | JInt n => negb (n =? 0)
  | JFloat f => negb (f =? 0)%float
  | JStr s => negb (String.eqb s "")
  | JList l => match l with [] => false | _ => true end
  | JDict kv => negb (bool_decide (kv = ∅))
  end.

Definition json_type_name (j : json) : string :=
  match j with
  | JNull => "NoneType"
  | JBool _ => "bool"
  | JInt _ => "int"
  | JFloat _ => "float"
  | JStr _ => "str"
  | JList _ => "list"
  | JDict _ => "dict"
  end.

(** [data.get(key)]. *)
Definition json_get (data : json) (key : string) : res json :=
  match data with
  | JDict kv => Ok (default JNull (kv !! key))
  | _ => Raise (PyExc "AttributeError"
                  ("'" +:+ json_type_name data +:+ "' object has no attribute 'get'"))
  end.

(** [x[0]]. *)
Definition json_first (x : json) : res json :=
  match x with
  | JList l => list_getitem l 0
  | JStr s =>
      match s with
      | String c _ => Ok (JStr (String c ""))
      | EmptyString => Raise (PyExc "IndexError" "string index out of range")
      end
  | JDict _ => Raise (PyExc "KeyError" "0")
  | _ => Raise (PyExc "TypeError"
                  ("'" +:+ json_type_name x +:+ "' object is not subscriptable"))
  end.

(** [x[key]] for a string key. *)
Definition json_getitem (x : json) (key : string) : res json :=
  match x with
  | JDict kv =>
      match kv !! key with
      | Some v => Ok v
      | None => Raise (PyExc "KeyError" ("'" +:+ key +:+ "'"))
      end
  | JList _ => Raise (PyExc "TypeError" "list indices must be integers or slices, not str")
  | JStr _ => Raise (PyExc "TypeError" "string indices must be integers, not 'str'")
  | _ => Raise (PyExc "TypeError"
                  ("'" +:+ json_type_name x +:+ "' object is not subscriptable"))
  end.

(** ** The outside world

    Every library the handler calls is a field of [world].  A call returns
    what the library documents: a value or an exception. *)

(** A [geopy] location: what the code reads of it. *)
Record location := {
  latitude : float;
  longitude : float;
  raw : json
}.

(** The query parameters of the fallback geocoder. *)
Record search_params := {
  sp_name : string;
  sp_count : Z;
  sp_language : string;
  sp_format : string
}.

(** A [requests] response: what [raise_for_status()] and [json()] do. *)
Record response := {
  raise_for_status : res ();
  response_json : res json
}.

(** A [datetime]: its fields and its [isoformat()]. *)
Record datetime := {
  dt_year : Z;
  dt_month : Z;
  dt_day : Z;
  dt_hour : Z;
  dt_minute : Z;
  dt_second : Z;
  dt_isoformat : string
}.

Record world := {
  (* geopy: geolocator.geocode(query, addressdetails=True) *)
  nominatim_geocode : string -> bool -> res (option location);
  (* requests.get(url, params=..., timeout=...) *)
  requests_get : string -> search_params -> Z -> res response;
  (* float(s) for a string *)
  float_of_string : string -> option float;
  (* timezonefinder: tf.timezone_at(lat=.., lng=..) and
     tf.closest_timezone_at(lat=.., lng=..); a lookup gives a name or None,
     or raises (the library rejects coordinates out of range) *)
  tf_timezone_at : float -> float -> res (option string);
  tf_closest_timezone_at : float -> float -> res (option string);
  (* zoneinfo and datetime; a zone is known by its key *)
  ZoneInfo : string -> res string;
  import_tzdata : res ();
  ZoneInfo_retry : string -> res string;
  datetime_new : Z -> Z -> Z -> Z -> Z -> string -> res datetime;
  astimezone : datetime -> string -> res datetime;
  (* swisseph: functions *)
  swe_julday : Z -> Z -> Z -> float -> res float;
  swe_houses_ex : float -> float -> float -> string -> res (list float * list float);
  swe_calc_ut : float -> Z -> Z -> res (list float * Z);
  swe_house_pos : float -> float -> float -> float * float -> string -> res float;
  (* swisseph: constants *)
  swe_SUN : Z; swe_MOON : Z; swe_MERCURY : Z; swe_VENUS : Z; swe_MARS : Z;
  swe_JUPITER : Z; swe_SATURN : Z; swe_URANUS : Z; swe_NEPTUNE : Z; swe_PLUTO : Z;
  swe_MEAN_NODE : Z; swe_ECL_NUT : Z; swe_FLG_SWIEPH : Z; swe_FLG_SPEED : Z;
  (* os.path.exists, and os.path.abspath(__file__) *)
  path_exists : string -> bool;
  module_file : string
}.

(** ** Calls in order: the trace *)

Inductive event :=
  | EvSetEphePath (path : string)
  | EvPrint (line : string)
  | EvPathExists (path : string)
  | EvNominatim (query : string) (addressdetails : bool)
  | EvRequestsGet (url : string) (params : search_params) (timeout : Z)
  | EvTimezoneAt (lat lng : float)
  | EvClosestTimezoneAt (lat lng : float)
  | EvZoneInfo (key : string)
  | EvImportTzdata
  | EvDatetime (year month day hour minute : Z)
  | EvAstimezone (key : string)
  | EvJulday (year month day : Z) (hour : float)
  | EvHousesEx (jd lat lon : float) (hsys : string)
  | EvCalcUt (jd : float) (body flags : Z)
  | EvHousePos (armc lat eps lon : float) (hsys : string).

(** A computation that calls out: the calls it made, then its result. *)
Definition io (A : Type) : Type := list event * res A.

#[global] Instance io_ret : MRet io := fun A a => ([], Ok a).
#[global] Instance io_bind : MBind io := fun A B k m =>
  match m with
  | (t, Ok a) => let '(t', r) := k a in (t ++ t', r)
  | (t, Raise e) => (t, Raise e)
  end.

Definition lift {A} (r : res A) : io A := ([], r).
Definition call {A} (ev : event) (r : res A) : io A := ([ev], r).
Definition raise {A} (e : exn) : io A := ([], Raise e).

(** [try: m / except Exception as e: handler e]. *)
Definition try_except {A} (m : io A) (handler : exn -> io A) : io A :=
  match m with
  | (t, Ok a) => (t, Ok a)
  | (t, Raise e) => let '(t', r) := handler e in (t ++ t', r)
  end.

Fixpoint for_each {A S} (l : list A) (s : S) (body : A -> S -> io S) : io S :=
  match l with
  | [] => mret s
  | a :: l' => s' ← body a s; for_each l' s' body
  end.

Fixpoint enumerate {A} (start : Z) (l : list A) : list (Z * A) :=
  match l with
  | [] => []
  | a :: l' => (start, a) :: enumerate (start + 1) l'
  end.

(** ** Startup: the module-level statements *)

Definition slash : Ascii.ascii := Eval compute in Ascii.ascii_of_nat 47.

(** [posixpath.dirname] and [posixpath.join] of two components. *)
Fixpoint rstrip_slash (s : string) : string :=
  match s with
  | EmptyString => EmptyString
  | String c s' =>
      match rstrip_slash s' with
      | EmptyString => if Ascii.eqb c slash then EmptyString else String c EmptyString
      | r => String c r
      end
  end.

Fixpoint head_to_last_slash (p : string) : string :=
  match p with
  | EmptyString => EmptyString
  | String c p' =>
      match head_to_last_slash p' with
      | EmptyString => if Ascii.eqb c slash then String c EmptyString else EmptyString
      | h => String c h
      end
  end.

Definition dirname (p : string) : string :=
  let head := head_to_last_slash p in
  match rstrip_slash head with
  | EmptyString => head
  | stripped => stripped
  end.

Fixpoint ends_with_slash (s : string) : bool :=
  match s with
  | EmptyString => false
  | String c EmptyString => Ascii.eqb c slash
  | String _ s' => ends_with_slash s'
  end.

Definition is_abs (p : string) : bool :=
  match p with
  | String c _ => Ascii.eqb c slash
  | EmptyString => false
  end.

Definition path_join (a b : string) : string :=
  if is_abs b then b
  else if String.eqb a "" || ends_with_slash a then a +:+ b
  else a +:+ "/" +:+ b.

(** The definitions from here on are those of the running module; they
    share its world. *)
Section App.
Context (w : world).

Definition BASE_DIR : string := dirname (module_file w).
Definition EPHE_PATH : string := path_join BASE_DIR "ephe".

Definition str_of_bool (b : bool) : string := if b then "True" else "False".

Definition exists_ (p : string) : io bool :=
  call (EvPathExists p) (Ok (path_exists w p)).

(** The statements of the module that touch the ephemeris path, in source
    order: lines 16 to 20, then line 30. *)
Definition startup : io () :=
  _ ← call (EvSetEphePath EPHE_PATH) (Ok ());
  _ ← call (EvPrint ("EPHE_PATH = " +:+ EPHE_PATH)) (Ok ());
  e1 ← exists_ EPHE_PATH;
  _ ← call (EvPrint ("EPHE exists? " +:+ str_of_bool e1)) (Ok ());
  e2 ← exists_ (path_join EPHE_PATH "seas_18.se1");
  _ ← call (EvPrint ("seas exists? " +:+ str_of_bool e2)) (Ok ());
  call (EvSetEphePath "./ephe") (Ok ()).

(** The ephemeris path in force after a trace: the last one set. *)
Fixpoint ephe_path_after (cur : option string) (t : list event) : option string :=
  match t with
  | [] => cur
  | EvSetEphePath p :: t' => ephe_path_after (Some p) t'
  | _ :: t' => ephe_path_after cur t'
  end.

Definition set_ephe_path_calls (t : list event) : list string :=
  omap (fun ev => match ev with EvSetEphePath p => Some p | _ => None end) t.

Definition HOUSE_SYSTEM : string := "P".
Definition FLAGS : Z := Z.lor (swe_FLG_SWIEPH w) (swe_FLG_SPEED w).
Definition NODE_BODY : Z := swe_MEAN_NODE w.

Definition PLANETS : list (string * Z) :=
  [("Sun", swe_SUN w); ("Moon", swe_MOON w); ("Mercury", swe_MERCURY w);
   ("Venus", swe_VENUS w); ("Mars", swe_MARS w); ("Jupiter", swe_JUPITER w);
   ("Saturn", swe_SATURN w); ("Uranus", swe_URANUS w); ("Neptune", swe_NEPTUNE w);
   ("Pluto", swe_PLUTO w); ("Node(M)", NODE_BODY)].

Definition health : list (string * string) := [("status", "ok")].

(** ** The geocoder *)

(** [float(v)]. *)
Definition json_float (v : json) : res float :=
  match v with
  | JFloat f => Ok f
  | JInt n => py_float n
  | JBool b => Ok (if b then 1 else 0)%float
  | JStr s =>
      match float_of_string w s with
      | Some f => Ok f
      | None => Raise (PyExc "ValueError"
                         ("could not convert string to float: '" +:+ s +:+ "'"))
      end
  | _ => Raise (PyExc "TypeError"
                  ("float() argument must be a string or a real number, not '"
                   +:+ json_type_name v +:+ "'"))
  end.

Definition open_meteo_url : string := "https://geocoding-api.open-meteo.com/v1/search".

Definition open_meteo_params (query : string) : search_params :=
  {| sp_name := query; sp_count := 1; sp_language := "en"; sp_format := "json" |}.

Definition location_not_found : exn :=
  HTTPException 404 "Location not found. Try 'City, State, Country'.".

(** The body of the second [try] of [geocode_location]. *)
Definition geocode_fallback (query : string) : io (float * float * json) :=
  r ← call (EvRequestsGet open_meteo_url (open_meteo_params query) 10)
           (requests_get w open_meteo_url (open_meteo_params query) 10);
  _ ← lift (raise_for_status r);
  data ← lift (response_json r);
  got ← lift (json_get data "results");
  let results := if json_truthy got then got else JList [] in
  if negb (json_truthy results) then raise location_not_found
  else
    best ← lift (json_first results);
    vlat ← lift (json_getitem best "latitude");
    lat ← lift (json_float vlat);
    vlon ← lift (json_getitem best "longitude");
    lon ← lift (json_float vlon);
    mret (lat, lon, JDict (<["source" := JStr "open-meteo"]> (<["raw" := best]> ∅))).

Definition geocode_location (query : string) : io (float * float * json) :=
  (* 1) Try Nominatim first *)
  found ← try_except
             (call (EvNominatim query true) (nominatim_geocode w query true))
             (fun _ => mret None);
  match found with
  | Some loc => mret (latitude loc, longitude loc, raw loc)
  | None =>
      (* 2) Fallback: Open-Meteo *)
      try_except (geocode_fallback query)
        (fun e =>
           match e with
           | HTTPException _ _ => raise e
           | _ => raise (HTTPException 502 ("Geocoding error: " +:+ str_of_exn e))
           end)
  end.

(** ** The timezone resolver *)

(** Truthiness of an optional string: [None] and [""] are false. *)
Definition str_truthy (o : option string) : bool :=
  match o with
  | Some s => negb (String.eqb s "")
  | None => false
  end.

Definition timezone_unresolvable : exn :=
  HTTPException 422 "Could not resolve timezone for this location.".

Definition resolve_timezone_name (lat lon : float) : io string :=
  tz_name ← call (EvTimezoneAt lat lon) (tf_timezone_at w lat lon);
  tz_name ← (if negb (str_truthy tz_name)
             then call (EvClosestTimezoneAt lat lon) (tf_closest_timezone_at w lat lon)
             else mret tz_name);
  match tz_name with
  | Some s => if str_truthy tz_name then mret s else raise timezone_unresolvable
  | None => raise timezone_unresolvable
  end.

(** ** The time normalizer *)

Definition local_to_utc (year month day hour minute : Z) (tz_name : string)
  : io (datetime * datetime) :=
  tz ← try_except
         (call (EvZoneInfo tz_name) (ZoneInfo w tz_name))
         (fun _ =>
            _ ← call EvImportTzdata (import_tzdata w);
            call (EvZoneInfo tz_name) (ZoneInfo_retry w tz_name));
  local_dt ← call (EvDatetime year month day hour minute)
                  (datetime_new w year month day hour minute tz);
  utc ← call (EvZoneInfo "UTC") (ZoneInfo w "UTC");
  utc_dt ← call (EvAstimezone utc) (astimezone w local_dt utc);
  mret (local_dt, utc_dt).

Definition julian_day_ut (utc_dt : datetime) : io float :=
  h ← lift (py_float (dt_hour utc_dt));
  m ← lift (py_float (dt_minute utc_dt));
  s ← lift (py_float (dt_second utc_dt));
  let ut_hours := (h + m / 60 + s / 3600)%float in
  call (EvJulday (dt_year utc_dt) (dt_month utc_dt) (dt_day utc_dt) ut_hours)
       (swe_julday w (dt_year utc_dt) (dt_month utc_dt) (dt_day utc_dt) ut_hours).

(** ** House of a longitude *)

Definition house_for_longitude (jd_ut lat lon ecl_lon : float)
    (houses ascmc : list float) : io Z :=
  obliq ← (if decide (9 < Z.of_nat (length ascmc)) then lift (list_getitem ascmc 9)
           else
             r ← call (EvCalcUt jd_ut (swe_ECL_NUT w) FLAGS)
                      (swe_calc_ut w jd_ut (swe_ECL_NUT w) FLAGS);
             lift (list_getitem r.1 0));
  armc ← lift (list_getitem ascmc 2);
  hpos ← call (EvHousePos armc lat obliq ecl_lon HOUSE_SYSTEM)
              (swe_house_pos w armc lat obliq (ecl_lon, 0%float) HOUSE_SYSTEM);
  h ← lift (math_floor hpos);
  let h := if decide (h < 1) then 1 else h in
  let h := if decide (h > 12) then 12 else h in
  mret h.

(** ** The chart *)

Record ChartRequest := {
  year : Z;
  month : Z;
  day : Z;
  hour : Z;
  minute : Z;
  location_query : string;
  country : option string
}.

Record angle := {
  a_sign : string;
  a_deg : Z;
  a_min : Z;
  a_lon_deg : float
}.

Record cusp := {
  c_house : Z;
  c_sign : string;
  c_deg : Z;
  c_min : Z;
  c_lon_deg : float
}.

Record planet := {
  p_sign : string;
  p_deg : Z;
  p_min : Z;
  p_lon_deg : float;
  p_retrograde : bool;
  p_house : Z
}.

Record chart_input := {
  in_location_query : string;
  in_lat : float;
  in_lon : float;
  in_raw : json;
  in_timezone : string;
  in_local_datetime : string;
  in_utc_datetime : string;
  in_julian_day_ut : float
}.

Record chart_result := {
  settings_locked : list (string * string);
  input : chart_input;
  ASC : angle;
  MC : angle;
  house_cusps : list cusp;
  planets : gmap string planet
}.

(** One turn of the planet loop: the entry of [name]. *)
Definition planet_entry (jd_ut lat lon : float) (houses ascmc : list float)
    (body : Z) : io planet :=
  r ← call (EvCalcUt jd_ut body FLAGS) (swe_calc_ut w jd_ut body FLAGS);
  let res := r.1 in
  res0 ← lift (list_getitem res 0);
  ecl_lon ← lift (normalize_deg res0);
  speed_lon ← lift (list_getitem res 3);
  let retro := (speed_lon <? 0)%float in
  '(sign, pos_in_sign) ← lift (zodiac_sign_and_pos ecl_lon);
  '(d, m) ← lift (round_to_arcminute pos_in_sign);
  house_num ← house_for_longitude jd_ut lat lon ecl_lon houses ascmc;
  mret {| p_sign := sign; p_deg := d; p_min := m; p_lon_deg := ecl_lon;
          p_retrograde := retro; p_house := house_num |}.

(** One turn of the cusp loop. *)
Definition cusp_entry (i : Z) (cusp_lon : float) : res cusp :=
  cusp_lon ← normalize_deg cusp_lon;
  '(hs, hp) ← zodiac_sign_and_pos cusp_lon;
  '(hd, hm) ← round_to_arcminute hp;
  mret {| c_house := i; c_sign := hs; c_deg := hd; c_min := hm; c_lon_deg := cusp_lon |}.

Definition chart (req : ChartRequest) : io chart_result :=
  (* 1) Geocode *)
  '(lat, lon, raw) ← geocode_location (location_query req);
  (* 2) Timezone *)
  tz_name ← resolve_timezone_name lat lon;
  (* 3) Local -> UTC *)
  '(local_dt, utc_dt) ← local_to_utc (year req) (month req) (day req) (hour req)
                                     (minute req) tz_name;
  (* 4) Julian Day (UT) *)
  jd_ut ← julian_day_ut utc_dt;
  (* 5) Houses and angles *)
  '(houses, ascmc) ← call (EvHousesEx jd_ut lat lon HOUSE_SYSTEM)
                          (swe_houses_ex w jd_ut lat lon HOUSE_SYSTEM);
  asc ← lift (list_getitem ascmc 0);
  mc ← lift (list_getitem ascmc 1);
  (* 6) Planets *)
  planets_out ← for_each (PLANETS) (∅ : gmap string planet)
    (fun '(name, body) planets_out =>
       entry ← planet_entry jd_ut lat lon houses ascmc body;
       mret (<[name := entry]> planets_out));
  (* 7) Angles *)
  '(asc_sign, asc_pos) ← lift (zodiac_sign_and_pos asc);
  '(asc_d, asc_m) ← lift (round_to_arcminute asc_pos);
  '(mc_sign, mc_pos) ← lift (zodiac_sign_and_pos mc);
  '(mc_d, mc_m) ← lift (round_to_arcminute mc_pos);
  (* 8) House cusps *)
  let cusp_list := if decide (length houses = 12%nat) then houses else drop 1 houses in
  cusps_out ← for_each (enumerate 1 cusp_list) ([] : list cusp)
    (fun '(i, cusp_lon) cusps_out =>
       c ← lift (cusp_entry i cusp_lon);
       mret (cusps_out ++ [c]));
  asc_lon ← lift (normalize_deg asc);
  mc_lon ← lift (normalize_deg mc);
  mret {|
    settings_locked := [("zodiac", "tropical"); ("houses", "placidus");
                        ("node", "mean"); ("ephemeris", "swiss_ephemeris")];
    input := {| in_location_query := location_query req;
                in_lat := lat; in_lon := lon; in_raw := raw;
                in_timezone := tz_name;
                in_local_datetime := dt_isoformat local_dt;
                in_utc_datetime := dt_isoformat utc_dt;
                in_julian_day_ut := jd_ut |};
    ASC := {| a_sign := asc_sign; a_deg := asc_d; a_min := asc_m; a_lon_deg := asc_lon |};
    MC := {| a_sign := mc_sign; a_deg := mc_d; a_min := mc_m; a_lon_deg := mc_lon |};
    house_cusps := cusps_out;
    planets := planets_out
  |}.

End App.

(** ** A sample world

    A deterministic stand-in for the libraries, used to run the handler on
    concrete inputs: Nominatim knows no place, Open-Meteo answers with
    [results], the house-position function returns [hpos]. *)
Definition sample_world (results : json) (hpos : float) : world := {|
  nominatim_geocode := fun _ _ => Ok None;
  requests_get := fun _ _ _ =>
    Ok {| raise_for_status := Ok ();
          response_json := Ok (JDict (<["results" := results]> ∅)) |};
  float_of_string := fun _ => None;
  tf_timezone_at := fun _ _ => Ok None;
  tf_closest_timezone_at := fun _ _ => Ok (Some "Europe/London");
  ZoneInfo := fun key => Ok key;
  import_tzdata := Ok ();
  ZoneInfo_retry := fun key => Ok key;
  datetime_new := fun y mo d h mi tz =>
    Ok {| dt_year := y; dt_month := mo; dt_day := d; dt_hour := h; dt_minute := mi;
          dt_second := 0; dt_isoformat := tz |};
  astimezone := fun dt tz =>
    Ok {| dt_year := dt_year dt; dt_month := dt_month dt; dt_day := dt_day dt;
          dt_hour := dt_hour dt - 1; dt_minute := dt_minute dt;
          dt_second := dt_second dt; dt_isoformat := tz |};
  swe_julday := fun _ _ _ _ => Ok 2448057.95703125%float;
  swe_houses_ex := fun _ _ _ _ =>
    Ok ([15.5; 40.25; 65; 95.75; 130; 170.5; 195.5; 220.25; 245; 275.75; 310; 350.5],
        [15.5; 275.75; 277.5; 200; 20; 0; 0; 0])%float;
  swe_calc_ut := fun _ body _ =>
    Ok ([if decide (body = 4%Z) then 359.75 else 84.5; 0; 1;
         if decide (body = 2%Z) then -0.5 else 0.75; 0; 0]%float, 258);
  swe_house_pos := fun _ _ _ _ _ => Ok hpos;
  swe_SUN := 0; swe_MOON := 1; swe_MERCURY := 2; swe_VENUS := 3; swe_MARS := 4;
  swe_JUPITER := 5; swe_SATURN := 6; swe_URANUS := 7; swe_NEPTUNE := 8; swe_PLUTO := 9;
  swe_MEAN_NODE := 10; swe_ECL_NUT := -1; swe_FLG_SWIEPH := 2; swe_FLG_SPEED := 256;
  path_exists := fun _ => false;
  module_file := "/srv/app/app.py"
|}.

(** A world whose timezone index checks its arguments: as timezonefinder
    does, both lookups refuse a latitude outside [[-90, 90]] or a longitude
    outside [[-180, 180]] with a [ValueError]; within range they answer as
    [exact] and [near].  Everything else is [base]. *)
Definition out_of_bounds (lat lon : float) : bool :=
  ((90 <? lat) || (lat <? -90) || (180 <? lon) || (lon <? -180))%float.

Definition checked_lookup (f : float -> float -> option string) (lat lon : float)
  : res (option string) :=
  if out_of_bounds lat lon
  then Raise (PyExc "ValueError" "The coordinates are out of bounds.")
  else Ok (f lat lon).

Definition checked_world (base : world) (exact near : float -> float -> option string)
  : world := {|
  nominatim_geocode := nominatim_geocode base;
  requests_get := requests_get base;
  float_of_string := float_of_string base;
  tf_timezone_at := checked_lookup exact;
  tf_closest_timezone_at := checked_lookup near;
  ZoneInfo := ZoneInfo base;
  import_tzdata := import_tzdata base;
  ZoneInfo_retry := ZoneInfo_retry base;
  datetime_new := datetime_new base;
  astimezone := astimezone base;
  swe_julday := swe_julday base;
  swe_houses_ex := swe_houses_ex base;
  swe_calc_ut := swe_calc_ut base;
  swe_house_pos := swe_house_pos base;
  swe_SUN := swe_SUN base; swe_MOON := swe_MOON base; swe_MERCURY := swe_MERCURY base;
  swe_VENUS := swe_VENUS base; swe_MARS := swe_MARS base;
  swe_JUPITER := swe_JUPITER base; swe_SATURN := swe_SATURN base;
  swe_URANUS := swe_URANUS base; swe_NEPTUNE := swe_NEPTUNE base;
  swe_PLUTO := swe_PLUTO base; swe_MEAN_NODE := swe_MEAN_NODE base;
  swe_ECL_NUT := swe_ECL_NUT base; swe_FLG_SWIEPH := swe_FLG_SWIEPH base;
  swe_FLG_SPEED := swe_FLG_SPEED base;
  path_exists := path_exists base;
  module_file := module_file base
|}.

Definition greenwich : json :=
  JList [JDict (<["latitude" := JFloat 51.5]> (<["longitude" := JInt 0]> ∅))].

Definition sample_request : ChartRequest := {|
  year := 1990; month := 6; day := 15; hour := 12; minute := 0;
  location_query := "Greenwich, UK"; country := None
|}.

(** The names of the tracked bodies, the keys of [PLANETS]. *)
Definition body_names : list string :=
  ["Sun"; "Moon"; "Mercury"; "Venus"; "Mars"; "Jupiter"; "Saturn"; "Uranus";
   "Neptune"; "Pluto"; "Node(M)"].


(** The number of binary digits of a mantissa. *)
Definition dig (m : positive) : Z := Z.pos (digits2_pos m).


(** Finite and not negative: [+0.0] or a positive finite number. *)
Definition SF_nonneg (x : spec_float) : bool :=
  match x with
  | S754_zero false | S754_finite false _ _ => true
  | _ => false
  end.

(** The float [30 * k], the lower end of the sign of index [k]. *)
Definition sign_start (k : Z) : float :=
  SF2Prim (binary_normalize prec emax (30 * k) 0 false).

(** The sign bit of a binary64 number (taken as clear for NaN). *)
Definition SF_sign (x : spec_float) : bool :=
  match x with
  | S754_zero s | S754_infinity s | S754_finite s _ _ => s
  | S754_nan => false
  end.

(** [needle in hay] on strings. *)
Fixpoint contains (needle hay : string) : bool :=
  String.prefix needle hay ||
  match hay with
  | EmptyString => false
  | String _ hay' => contains needle hay'
  end.

(** ** Vocabulary for the properties of runs *)

(** An [HTTPException], the only error the framework turns into a response
    with the status the code chose. *)
Definition is_http (e : exn) : bool :=
  match e with
  | HTTPException _ _ => true
  | PyExc _ _ => false
  end.

(** A result that is not an [HTTPException]: a value or a Python error. *)
Definition py_only {A} (r : res A) : Prop :=
  match r with
  | Raise e => is_http e = false
  | Ok _ => True
  end.

(** The libraries know nothing of FastAPI: none of their calls raises an
    [HTTPException]. *)
Record libraries_py_only (w : world) : Prop := {
  py_requests_get : forall url p t, py_only (requests_get w url p t);
  py_response : forall url p t r, requests_get w url p t = Ok r ->
                  py_only (raise_for_status r) /\ py_only (response_json r);
  py_tf_timezone_at : forall lat lon, py_only (tf_timezone_at w lat lon);
  py_tf_closest_timezone_at : forall lat lon, py_only (tf_closest_timezone_at w lat lon);
  py_ZoneInfo : forall key, py_only (ZoneInfo w key);
  py_import_tzdata : py_only (import_tzdata w);
  py_ZoneInfo_retry : forall key, py_only (ZoneInfo_retry w key);
  py_datetime_new : forall y mo d h mi tz, py_only (datetime_new w y mo d h mi tz);
  py_astimezone : forall dt tz, py_only (astimezone w dt tz);
  py_swe_julday : forall y mo d h, py_only (swe_julday w y mo d h);
  py_swe_houses_ex : forall jd lat lon hsys, py_only (swe_houses_ex w jd lat lon hsys);
  py_swe_calc_ut : forall jd body flags, py_only (swe_calc_ut w jd body flags);
  py_swe_house_pos : forall armc lat eps xpin hsys,
      py_only (swe_house_pos w armc lat eps xpin hsys)
}.

(** A call into the Swiss Ephemeris. *)
Definition is_swe_event (ev : event) : bool :=
  match ev with
  | EvJulday _ _ _ _ | EvHousesEx _ _ _ _ | EvCalcUt _ _ _ | EvHousePos _ _ _ _ _ => true
  | _ => false
  end.

(** The ephemeris calls of one turn of the planet loop, in order: the
    position of [body]; the obliquity, unless [ascmc] has more than nine
    entries; the house position of the longitude [lon_deg]. *)
Definition body_calls (w : world) (jd lat : float) (ascmc : list float)
    (armc obliq : float) (body : Z) (lon_deg : float) : list event :=
  EvCalcUt jd body (FLAGS w)
  :: (if decide (9 < Z.of_nat (length ascmc)) then []
      else [EvCalcUt jd (swe_ECL_NUT w) (FLAGS w)])
  ++ [EvHousePos armc lat obliq lon_deg HOUSE_SYSTEM].

(** The longitudes of the [swe.house_pos] calls of a trace, in order. *)
Definition house_pos_lons (t : list event) : list float :=
  omap (fun ev => match ev with EvHousePos _ _ _ lon _ => Some lon | _ => None end) t.

(** The paths whose existence a trace asked about, in order. *)
Definition path_exists_probes (t : list event) : list string :=
  omap (fun ev => match ev with EvPathExists p => Some p | _ => None end) t.

(** [formats sign d m lon]: the sign and the degree and minute within it
    are those of the angle [lon], which lies in [[0, 360)]: the sign is the
    one [lon] falls in, and [sign, d, m] read back is less than one
    arcminute below [lon] and at most half an arcminute (and one rounding of
    the product, [2^-48]) above it. *)
Definition formats (sign : string) (d m : Z) (lon : float) : Prop :=
  SF_nonneg (Prim2SF lon) = true /\ float_val lon < 360 * ONE /\
  let k := float_val lon / (30 * ONE) in
  SIGNS !! Z.to_nat k = Some sign /\ 0 <= d <= 29 /\ 0 <= m <= 59 /\
  - ONE < (1800 * k + 60 * d + m) * ONE - 60 * float_val lon <= 2 ^ 1073 + 2 ^ 1026.

(** [utc_dt.hour + (utc_dt.minute / 60.0) + (utc_dt.second / 3600.0)]. *)
Definition ut_hours (hour minute second : Z) : res float :=
  h ← py_float hour;
  m ← py_float minute;
  s ← py_float second;
  mret (h + m / 60 + s / 3600)%float.

(** [f] holds of the [n] integers from [z] on. *)
Fixpoint forall_range (n : nat) (z : Z) (f : Z -> bool) : bool :=
  match n with
  | O => true
  | S n' => f z && forall_range n' (z + 1) f
  end.

(** The hour fraction of the second [t] of the day is a binary64 number
    [mu * 2^eu] within [2^-48] of [t / 3600]; the test is scaled by
    [3600 * 2^70] to stay in the integers. *)
Definition ut_hours_check (t : Z) : bool :=
  match ut_hours (t / 3600) (t / 60 mod 60) (t mod 60) with
  | Ok ut =>
      match Prim2SF ut with
      | S754_zero false => t =? 0
      | S754_finite false mu eu =>
          (-70 <=? eu) &&
          (Z.abs (3600 * Z.pos mu * 2 ^ (eu + 70) - t * 2 ^ 70) <=? 3600 * 2 ^ 22)
      | _ => false
      end
  | Raise _ => false
  end.


(** * The embedding on concrete values

    The operations above, run on inputs whose results under the interpreter
    are known. *)

Example float_rem_signs :
  float_rem (-7.5) 2 = Ok 0.5%float /\ float_rem 7.5 (-2) = Ok (-0.5)%float /\
  float_rem 725.5 360 = Ok 5.5%float /\ float_rem (-30) 360 = Ok 330%float /\
  float_rem (-0) 360 = Ok 0%float /\ float_rem 360 360 = Ok 0%float.
Proof. vm_compute. auto 10. Qed.

Example float_floor_div_signs :
  float_floor_div (-7) 2 = Ok (-4)%float /\ float_floor_div 7.5 (-2) = Ok (-4)%float /\
  float_floor_div 0x1.67fffffffffffp+8 30 = Ok 11%float.
Proof. vm_compute. auto. Qed.

Example float_rem_by_zero :
  float_rem 1 0 = Raise (PyExc "ZeroDivisionError" "float modulo").
Proof. reflexivity. Qed.

Example py_round_ties :
  py_round 0.5 = Ok 0 /\ py_round 1.5 = Ok 2 /\ py_round 2.5 = Ok 2 /\
  py_round 3.5 = Ok 4 /\ py_round (-0.5) = Ok 0 /\ py_round (-1.5) = Ok (-2).
Proof. vm_compute. auto 10. Qed.

Example py_int_truncates :
  py_int (-3.75) = Ok (-3) /\ py_int 3.75 = Ok 3 /\ math_floor (-0.5) = Ok (-1) /\
  py_int nan = Raise (PyExc "ValueError" "cannot convert float NaN to integer") /\
  py_int infinity
  = Raise (PyExc "OverflowError" "cannot convert float infinity to integer").
Proof. vm_compute. auto 10. Qed.

Example list_getitem_wraps :
  list_getitem SIGNS (-1) = Ok "Pisces" /\ list_getitem SIGNS 0 = Ok "Aries" /\
  list_getitem SIGNS 12 = Raise (PyExc "IndexError" "list index out of range") /\
  list_getitem SIGNS (-13) = Raise (PyExc "IndexError" "list index out of range").
Proof. vm_compute. auto. Qed.

Example zodiac_examples :
  zodiac_sign_and_pos 725.5 = Ok ("Aries", 5.5%float) /\
  zodiac_sign_and_pos (-30) = Ok ("Pisces", 0%float) /\
  zodiac_sign_and_pos 0x1.67fffffffffffp+8 = Ok ("Pisces", 0x1.dfffffffffff0p+4%float) /\
  zodiac_sign_and_pos nan
  = Raise (PyExc "ValueError" "cannot convert float NaN to integer").
Proof. vm_compute. auto. Qed.

Example round_to_arcminute_examples :
  round_to_arcminute 29.5 = Ok (29, 30) /\
  round_to_arcminute 0x1.fff2e48e8a71ep-1 = Ok (1, 0) /\
  round_to_arcminute (-3.75) = Ok (-3, -45).
Proof. vm_compute. auto. Qed.

Example posixpath_examples :
  dirname "/srv/app/app.py" = "/srv/app" /\ dirname "/" = "/" /\ dirname "abc" = "" /\
  dirname "a/b/" = "a/b" /\ dirname "//a" = "//" /\
  path_join "/srv/app" "ephe" = "/srv/app/ephe" /\
  path_join "/srv/app/" "ephe" = "/srv/app/ephe" /\
  path_join "" "ephe" = "ephe" /\ path_join "/srv" "/abs" = "/abs".
Proof. vm_compute. auto 10. Qed.

Example resolve_timezone_name_examples :
  let w := checked_world (sample_world greenwich 0.5)
             (fun lat _ => if (lat <? 60)%float then Some "Europe/London" else None)
             (fun lat _ => if (lat <? 80)%float then Some "Arctic/Longyearbyen" else None) in
  resolve_timezone_name w 51.5 0 = ([EvTimezoneAt 51.5 0], Ok "Europe/London") /\
  resolve_timezone_name w 78 15
  = ([EvTimezoneAt 78 15; EvClosestTimezoneAt 78 15], Ok "Arctic/Longyearbyen") /\
  resolve_timezone_name w 89 0
  = ([EvTimezoneAt 89 0; EvClosestTimezoneAt 89 0],
     Raise (HTTPException 422 "Could not resolve timezone for this location.")) /\
  resolve_timezone_name w 95 0
  = ([EvTimezoneAt 95 0], Raise (PyExc "ValueError" "The coordinates are out of bounds.")).
Proof. repeat split. Qed.

(** * Binary64 arithmetic: the facts the claims rest on *)

Lemma dig_bounds m : 2 ^ (dig m - 1) <= Z.pos m < 2 ^ dig m.
Proof.
  unfold dig. induction m as [p IH|p IH|]; cbn [digits2_pos].
  - rewrite Pos2Z.inj_succ, Z.pow_succ_r by lia.
    replace (Z.succ (Z.pos (digits2_pos p)) - 1) with (Z.succ (Z.pos (digits2_pos p) - 1)) by lia.
    rewrite Z.pow_succ_r by lia. lia.
  - rewrite Pos2Z.inj_succ, Z.pow_succ_r by lia.
    replace (Z.succ (Z.pos (digits2_pos p)) - 1) with (Z.succ (Z.pos (digits2_pos p) - 1)) by lia.
    rewrite Z.pow_succ_r by lia. lia.
  - cbn. lia.
Qed.

Lemma dig_pos m : 1 <= dig m.
Proof. unfold dig. lia. Qed.

(** Two positive numbers with the same value [m * 2^e] up to scaling have the
    same magnitude [dig m + e]. *)
Lemma magnitude_lt m1 e1 m2 e2 k :
  0 <= e1 + k -> 0 <= e2 + k ->
  Z.pos m1 * 2 ^ (e1 + k) <= Z.pos m2 * 2 ^ (e2 + k) ->
  dig m1 + e1 <= dig m2 + e2.
Proof.
  intros H1 H2 Hle.
  pose proof (dig_bounds m1) as [L1 U1]. pose proof (dig_bounds m2) as [L2 U2].
  pose proof (dig_pos m1). pose proof (dig_pos m2).
  assert (P1 : 0 < 2 ^ (e1 + k)) by (apply Z.pow_pos_nonneg; lia).
  assert (P2 : 0 < 2 ^ (e2 + k)) by (apply Z.pow_pos_nonneg; lia).
  assert (A : 2 ^ (dig m1 - 1 + (e1 + k)) < 2 ^ (dig m2 + (e2 + k))).
  { rewrite (Z.pow_add_r 2 (dig m1 - 1)), (Z.pow_add_r 2 (dig m2)) by lia.
    apply Z.le_lt_trans with (Z.pos m1 * 2 ^ (e1 + k)).
    - apply Z.mul_le_mono_nonneg_r; lia.
    - apply Z.le_lt_trans with (1 := Hle). apply Z.mul_lt_mono_pos_r; lia. }
  apply Z.pow_lt_mono_r_iff in A; lia.
Qed.

Lemma magnitude_unique m1 e1 m2 e2 k :
  0 <= e1 + k -> 0 <= e2 + k ->
  Z.pos m1 * 2 ^ (e1 + k) = Z.pos m2 * 2 ^ (e2 + k) ->
  dig m1 + e1 = dig m2 + e2.
Proof.
  intros H1 H2 Heq.
  pose proof (magnitude_lt m1 e1 m2 e2 k H1 H2).
  pose proof (magnitude_lt m2 e2 m1 e1 k H2 H1). lia.
Qed.

(** Canonical representations. *)
Lemma bounded_spec m e :
  bounded prec emax m e = true <->
  e = Z.max (dig m + e - 53) (-1074) /\ e <= 971.
Proof.
  unfold bounded, canonical_mantissa, fexp, SpecFloat.emin, prec, emax, dig.
  rewrite andb_true_iff, Z.eqb_eq, Z.leb_le. cbn. lia.
Qed.

Lemma canonical_unique m1 e1 m2 e2 :
  bounded prec emax m1 e1 = true -> bounded prec emax m2 e2 = true ->
  Z.pos m1 * 2 ^ (e1 + 1074) = Z.pos m2 * 2 ^ (e2 + 1074) ->
  m1 = m2 /\ e1 = e2.
Proof.
  rewrite !bounded_spec. intros [C1 B1] [C2 B2] Heq.
  assert (dig m1 + e1 = dig m2 + e2) by (apply (magnitude_unique _ _ _ _ 1074); lia).
  assert (e1 = e2) by lia. subst e2. split; [|reflexivity].
  assert (0 < 2 ^ (e1 + 1074)) by (apply Z.pow_pos_nonneg; lia).
  apply Z.mul_cancel_r in Heq; [congruence | lia].
Qed.

(** ** Right shifts *)

Lemma iter_pos_nat {A} (f : A -> A) p x :
  iter_pos f p x = Nat.iter (Pos.to_nat p) f x.
Proof.
  revert x. induction p as [p IH|p IH|]; intros x; cbn [iter_pos].
  - rewrite !IH, Pos2Nat.inj_xI.
    replace (S (2 * Pos.to_nat p))%nat with (Pos.to_nat p + S (Pos.to_nat p))%nat by lia.
    rewrite Nat.iter_add. f_equal. now rewrite Nat.iter_succ_r.
  - rewrite !IH, Pos2Nat.inj_xO.
    replace (2 * Pos.to_nat p)%nat with (Pos.to_nat p + Pos.to_nat p)%nat by lia.
    now rewrite Nat.iter_add.
  - reflexivity.
Qed.

Lemma shr_1_spec m r s :
  0 <= m ->
  shr_1 (Build_shr_record m r s) = Build_shr_record (m / 2) (Z.odd m) (r || s).
Proof.
  intros Hm. rewrite <- Z.div2_div.
  destruct m as [|[p|p|]|p]; try lia; reflexivity.
Qed.

Lemma shr_iter n m :
  0 <= m ->
  shr_m (Nat.iter n shr_1 (Build_shr_record m false false)) = m / 2 ^ Z.of_nat n /\
  (m mod 2 ^ Z.of_nat n = 0 ->
   Nat.iter n shr_1 (Build_shr_record m false false)
   = Build_shr_record (m / 2 ^ Z.of_nat n) false false).
Proof.
  intros Hm. induction n as [|n [IH1 IH2]].
  - cbn. rewrite Z.div_1_r. auto.
  - rewrite Nat2Z.inj_succ, Z.pow_succ_r by lia.
    assert (Hp : 0 < 2 ^ Z.of_nat n) by (apply Z.pow_pos_nonneg; lia).
    rewrite !Nat.iter_succ.
    destruct (Nat.iter n shr_1 _) as [m' r' s'] eqn:E. cbn in IH1. subst m'.
    rewrite shr_1_spec by (apply Z.div_pos; lia).
    cbn [shr_m]. rewrite Z.div_div by lia. rewrite (Z.mul_comm (2 ^ _) 2).
    split; [reflexivity|]. intros Hmod.
    assert (Hmod' : m mod 2 ^ Z.of_nat n = 0).
    { apply Z.mod_divide; [lia|]. apply Z.mod_divide in Hmod; [|lia].
      destruct Hmod as [c Hc]. exists (c * 2). lia. }
    specialize (IH2 Hmod'). injection IH2 as -> ->.
    f_equal. 
    apply Z.mod_divide in Hmod; [|lia]. destruct Hmod as [c Hc].
    subst m. replace (c * (2 * 2 ^ Z.of_nat n)) with ((c * 2) * 2 ^ Z.of_nat n) by lia.
    rewrite Z.div_mul by lia. rewrite Z.odd_mul. cbn. now rewrite andb_false_r.
Qed.

(** ** Rounding a value that needs no rounding *)

Lemma fexp_eq x : fexp prec emax x = Z.max (x - 53) (-1074).
Proof. reflexivity. Qed.

Lemma bounded_fexp m e :
  bounded prec emax m e = true ->
  fexp prec emax (Z.pos (digits2_pos m) + e) = e /\ (e <=? emax - prec) = true.
Proof.
  unfold bounded, canonical_mantissa. rewrite andb_true_iff, Z.eqb_eq. auto.
Qed.

Lemma binary_round_aux_canonical s m e :
  bounded prec emax m e = true ->
  binary_round_aux prec emax s (Z.pos m) e loc_Exact = S754_finite s m e.
Proof.
  intros Hb. destruct (bounded_fexp _ _ Hb) as [Hf Hle].
  unfold binary_round_aux, shr_fexp. cbn [Zdigits2 shr_record_of_loc].
  rewrite Hf, Z.sub_diag. cbn [shr shr_m loc_of_shr_record round_nearest_even Zdigits2].
  rewrite Hf, Z.sub_diag. cbn [shr shr_m]. now rewrite Hle.
Qed.

Lemma iter_xO m d : Z.pos (Pos.iter xO m d) = Z.pos m * 2 ^ Z.pos d.
Proof.
  induction d as [|d IH] using Pos.peano_ind.
  - cbn. lia.
  - rewrite Pos.iter_succ, Pos2Z.inj_succ, Z.pow_succ_r by lia.
    rewrite Pos2Z.inj_xO, IH. lia.
Qed.

Lemma pow_split a b : 0 <= a -> 0 <= b - a -> 2 ^ b = 2 ^ (b - a) * 2 ^ a.
Proof. intros. rewrite <- Z.pow_add_r by lia. f_equal. lia. Qed.

(** [binary_round] of a number that a binary64 [(m', e')] represents
    exactly returns that binary64. *)
Lemma binary_round_exact s M E m' e' :
  bounded prec emax m' e' = true ->
  0 <= E + 1074 ->
  Z.pos M * 2 ^ (E + 1074) = Z.pos m' * 2 ^ (e' + 1074) ->
  binary_round prec emax s M E = S754_finite s m' e'.
Proof.
  intros Hb HE Heq.
  pose proof Hb as Hb'. apply bounded_spec in Hb' as [Hc Hmax].
  assert (Hmag : dig M + E = dig m' + e') by (apply (magnitude_unique _ _ _ _ 1074); lia).
  assert (Hf : fexp prec emax (Z.pos (digits2_pos M) + E) = e').
  { rewrite fexp_eq. fold (dig M). lia. }
  unfold binary_round. rewrite Hf. unfold shl_align.
  destruct (e' - E) as [|d|d] eqn:Hd.
  - assert (He : e' = E) by lia. rewrite He in *.
    assert (M = m').
    { assert (0 < 2 ^ (E + 1074)) by (apply Z.pow_pos_nonneg; lia).
      apply Z.mul_cancel_r in Heq; [congruence|lia]. }
    subst M. now apply binary_round_aux_canonical.
  - (* a right shift by [d], exact *)
    assert (HM : Z.pos M = Z.pos m' * 2 ^ Z.pos d).
    { rewrite (pow_split (E + 1074) (e' + 1074)) in Heq by lia.
      replace (e' + 1074 - (E + 1074)) with (Z.pos d) in Heq by lia.
      assert (0 < 2 ^ (E + 1074)) by (apply Z.pow_pos_nonneg; lia).
      rewrite Z.mul_assoc in Heq. apply Z.mul_cancel_r in Heq; lia. }
    unfold binary_round_aux, shr_fexp. cbn [Zdigits2 shr_record_of_loc].
    rewrite Hf, Hd. cbn [shr]. rewrite iter_pos_nat.
    destruct (shr_iter (Pos.to_nat d) (Z.pos M)) as [_ Hex]; [lia|].
    rewrite positive_nat_Z in Hex. rewrite Hex by (rewrite HM; apply Z.mod_mul; lia).
    rewrite HM, Z.div_mul by lia.
    cbn [shr_m loc_of_shr_record round_nearest_even].
    destruct (bounded_fexp _ _ Hb) as [Hf' Hle].
    replace (E + Z.pos d) with e' by lia.
    cbn [Zdigits2]. rewrite Hf', Z.sub_diag. cbn [shr shr_m]. now rewrite Hle.
  - (* a left shift by [d] *)
    assert (HM : Z.pos (Pos.iter xO M d) = Z.pos m').
    { rewrite iter_xO.
      rewrite (pow_split (e' + 1074) (E + 1074)) in Heq by lia.
      replace (E + 1074 - (e' + 1074)) with (Z.pos d) in Heq by lia.
      assert (0 < 2 ^ (e' + 1074)) by (apply Z.pow_pos_nonneg; lia).
      rewrite Z.mul_assoc in Heq. apply Z.mul_cancel_r in Heq; lia. }
    injection HM as ->. now apply binary_round_aux_canonical.
Qed.

(** ** An upper bound that rounding respects *)

Lemma rne_bounds q l : q <= round_nearest_even q l <= q + 1.
Proof. destruct l as [|[]]; cbn; try lia. destruct (Z.even q); lia. Qed.

Lemma pow2_pos n : 0 <= n -> 0 < 2 ^ n.
Proof. intros. apply Z.pow_pos_nonneg; lia. Qed.

(** From a bound on the value to a bound on the magnitude. *)
Lemma magnitude_bound m e k b :
  0 <= e + k -> 0 <= b + k ->
  Z.pos m * 2 ^ (e + k) < 2 ^ (b + k) -> dig m + e <= b.
Proof.
  intros H1 H2 Hlt. pose proof (dig_bounds m) as [L _]. pose proof (dig_pos m).
  assert (A : 2 ^ (dig m - 1 + (e + k)) < 2 ^ (b + k)).
  { rewrite (Z.pow_add_r 2 (dig m - 1)) by lia.
    eapply Z.le_lt_trans; [|exact Hlt].
    apply Z.mul_le_mono_nonneg_r; [apply Z.lt_le_incl, pow2_pos|]; lia. }
  apply Z.pow_lt_mono_r_iff in A; lia.
Qed.

Lemma round_stage2 sx mr e1 k C :
  0 <= mr -> -1074 <= e1 <= 971 -> 1074 <= k ->
  mr * 2 ^ (e1 + k) <= C -> C < 2 ^ (1024 + k) ->
  let z := (let '(mrs, e) := shr_fexp prec emax mr e1 loc_Exact in
            match shr_m mrs with
            | Z0 => S754_zero sx
            | Z.pos m => if e <=? emax - prec then S754_finite sx m e else S754_infinity sx
            | Z.neg _ => S754_nan
            end) in
  z = S754_zero sx \/
  exists m e, z = S754_finite sx m e /\ -1074 <= e /\ Z.pos m * 2 ^ (e + k) <= C.
Proof.
  intros Hmr He1 Hk Hle HC. cbv zeta.
  destruct mr as [|p|p]; [| |lia].
  - unfold shr_fexp. cbn [Zdigits2 shr_record_of_loc]. rewrite fexp_eq. unfold shr.
    destruct (Z.max (0 + e1 - 53) (-1074) - e1) eqn:Hs; try lia; cbn; auto.
  - unfold shr_fexp. cbn [Zdigits2 shr_record_of_loc]. fold (dig p). rewrite fexp_eq.
    assert (Hmag : dig p + e1 <= 1024).
    { apply (magnitude_bound _ _ k); lia. }
    unfold shr. destruct (Z.max (dig p + e1 - 53) (-1074) - e1) as [|d|d] eqn:Hs.
    + cbn [shr_m]. right. exists p, e1.
      replace (e1 <=? emax - prec) with true by (symmetry; apply Z.leb_le; unfold emax, prec; lia).
      repeat split; lia.
    + rewrite iter_pos_nat.
      destruct (shr_iter (Pos.to_nat d) (Z.pos p)) as [Hq _]; [lia|].
      rewrite positive_nat_Z in Hq. rewrite Hq.
      assert (P : 0 < 2 ^ Z.pos d) by (apply pow2_pos; lia).
      pose proof (Z.div_pos (Z.pos p) (2 ^ Z.pos d) ltac:(lia) P) as Hq0.
      pose proof (Z.mul_div_le (Z.pos p) (2 ^ Z.pos d) P) as Hqle.
      destruct (Z.pos p / 2 ^ Z.pos d) as [|q|q] eqn:Eq; [auto| |lia].
      right. exists q, (e1 + Z.pos d).
      replace (e1 + Z.pos d <=? emax - prec) with true by (symmetry; apply Z.leb_le; unfold emax, prec; lia).
      repeat split; try lia.
      replace (e1 + Z.pos d + k) with (Z.pos d + (e1 + k)) by lia.
      rewrite Z.pow_add_r by lia.
      assert (0 < 2 ^ (e1 + k)) by (apply pow2_pos; lia).
      apply Z.le_trans with (Z.pos p * 2 ^ (e1 + k)); [|lia].
      rewrite Z.mul_assoc. apply Z.mul_le_mono_nonneg_r; lia.
    + cbn [shr_m]. right. exists p, e1.
      replace (e1 <=? emax - prec) with true by (symmetry; apply Z.leb_le; unfold emax, prec; lia).
      repeat split; lia.
Qed.

Lemma binary_round_aux_upper sx M E k C :
  0 <= E + k -> 1074 <= k -> E <= 971 ->
  Z.pos M * 2 ^ (E + k) <= C ->
  (2 ^ (Z.max (fexp prec emax (dig M + E)) E + k) | C) ->
  C < 2 ^ (1024 + k) ->
  binary_round_aux prec emax sx (Z.pos M) E loc_Exact = S754_zero sx \/
  exists m e, binary_round_aux prec emax sx (Z.pos M) E loc_Exact = S754_finite sx m e
     /\ -1074 <= e /\ Z.pos m * 2 ^ (e + k) <= C.
Proof.
  intros HE Hk HE' Hle Hdiv HC.
  assert (Hmag : dig M + E <= 1024) by (apply (magnitude_bound _ _ k); lia).
  unfold binary_round_aux.
  destruct (shr_fexp prec emax (Z.pos M) E loc_Exact) as [mrs' e1] eqn:H1.
  set (mr := round_nearest_even (shr_m mrs') (loc_of_shr_record mrs')).
  assert (Hst : 0 <= mr /\ -1074 <= e1 <= 971 /\ mr * 2 ^ (e1 + k) <= C).
  { subst mr. revert H1.
    unfold shr_fexp; cbn [Zdigits2 shr_record_of_loc]; fold (dig M).
    rewrite fexp_eq in *; unfold shr.
    destruct (Z.max (dig M + E - 53) (-1074) - E) as [|d|d] eqn:Hs;
    intros [= <- <-]; cbn [shr_m loc_of_shr_record round_nearest_even]; try lia.
    rewrite iter_pos_nat.
    destruct (shr_iter (Pos.to_nat d) (Z.pos M)) as [Hq Hex]; [lia|].
    rewrite positive_nat_Z in Hq, Hex.
    assert (P : 0 < 2 ^ Z.pos d) by (apply pow2_pos; lia).
    assert (P' : 0 < 2 ^ (E + k)) by (apply pow2_pos; lia).
    replace (Z.max (Z.max (dig M + E - 53) (-1074)) E) with (E + Z.pos d) in Hdiv by lia.
    destruct Hdiv as [c Hc].
    replace (E + Z.pos d + k) with (Z.pos d + (E + k)) in * by lia.
    rewrite Z.pow_add_r in * by lia.
    pose proof (Z.div_mod (Z.pos M) (2 ^ Z.pos d) ltac:(lia)) as Hdm.
    pose proof (Z.mod_pos_bound (Z.pos M) (2 ^ Z.pos d) P) as Hmb.
    pose proof (Z.div_pos (Z.pos M) (2 ^ Z.pos d) ltac:(lia) P) as Hq0.
    set (mrs := Nat.iter _ _ _) in *.
    pose proof (rne_bounds (shr_m mrs) (loc_of_shr_record mrs)) as [Hr0 Hr].
    rewrite Hq in Hr0, Hr |- *.
    split; [lia|]. split; [lia|].
    destruct (Z.eq_dec (Z.pos M mod 2 ^ Z.pos d) 0) as [Hz|Hnz].
    - subst mrs. rewrite (Hex Hz). cbn [shr_m loc_of_shr_record round_nearest_even].
      rewrite Hz in Hdm. rewrite Z.mul_assoc.
      replace (Z.pos M / 2 ^ Z.pos d * 2 ^ Z.pos d) with (Z.pos M) by lia. lia.
    - set (q := Z.pos M / 2 ^ Z.pos d) in *.
      assert (Hqc : q < c).
      { apply (Z.mul_lt_mono_pos_r (2 ^ Z.pos d * 2 ^ (E + k))); [lia|].
        rewrite <- Hc. eapply Z.lt_le_trans; [|exact Hle].
        rewrite Z.mul_assoc. apply Z.mul_lt_mono_pos_r; lia. }
      rewrite Hc. apply Z.mul_le_mono_nonneg_r; lia. }
  destruct Hst as (? & ? & ?). now apply round_stage2.
Qed.

Lemma dig_iter_xO m d : dig (Pos.iter xO m d) = dig m + Z.pos d.
Proof.
  unfold dig. induction d as [|d IH] using Pos.peano_ind.
  - cbn. lia.
  - rewrite Pos.iter_succ. cbn [digits2_pos]. lia.
Qed.

Lemma binary_round_upper sx M E k C :
  0 <= E + k -> 1074 <= k -> E <= 971 ->
  Z.pos M * 2 ^ (E + k) <= C ->
  (2 ^ (fexp prec emax (dig M + E) + k) | C) ->
  C < 2 ^ (1024 + k) ->
  binary_round prec emax sx M E = S754_zero sx \/
  exists m e, binary_round prec emax sx M E = S754_finite sx m e
     /\ -1074 <= e /\ Z.pos m * 2 ^ (e + k) <= C.
Proof.
  intros HE Hk HE' Hle Hdiv HC.
  unfold binary_round, shl_align. fold (dig M).
  pose proof (fexp_eq (dig M + E)) as Hf.
  destruct (fexp prec emax (dig M + E) - E) as [|d|d] eqn:Hs.
  - apply (binary_round_aux_upper sx M E k C); try assumption.
    now replace (Z.max (fexp prec emax (dig M + E)) E) with (fexp prec emax (dig M + E)) by lia.
  - apply (binary_round_aux_upper sx M E k C); try assumption.
    now replace (Z.max (fexp prec emax (dig M + E)) E) with (fexp prec emax (dig M + E)) by lia.
  - set (e' := fexp prec emax (dig M + E)) in *.
    assert (Hv : Z.pos (Pos.iter xO M d) * 2 ^ (e' + k) = Z.pos M * 2 ^ (E + k)).
    { rewrite iter_xO, <- Z.mul_assoc, <- Z.pow_add_r by lia. do 2 f_equal. lia. }
    apply (binary_round_aux_upper sx _ e' k C); try lia.
    rewrite dig_iter_xO. replace (dig M + Z.pos d + e') with (dig M + E) by lia.
    fold e'. now rewrite Z.max_id.
Qed.

(** ** Comparisons read on exact values *)

Lemma canonical_lt m1 e1 m2 e2 :
  bounded prec emax m1 e1 = true -> bounded prec emax m2 e2 = true ->
  e1 < e2 -> Z.pos m1 * 2 ^ (e1 + 1074) < Z.pos m2 * 2 ^ (e2 + 1074).
Proof.
  rewrite !bounded_spec. intros [C1 _] [C2 _] Hlt.
  pose proof (dig_bounds m1) as [_ U1]. pose proof (dig_bounds m2) as [L2 _].
  assert (D2 : dig m2 = 53) by lia. rewrite D2 in L2.
  assert (U1' : Z.pos m1 < 2 ^ 53).
  { eapply Z.lt_le_trans; [exact U1|]. apply Z.pow_le_mono_r; lia. }
  assert (P1 : 0 < 2 ^ (e1 + 1074)) by (apply pow2_pos; lia).
  apply Z.lt_le_trans with (2 ^ 53 * 2 ^ (e1 + 1074)).
  - apply Z.mul_lt_mono_pos_r; lia.
  - apply Z.le_trans with (2 ^ (53 - 1) * 2 ^ (e2 + 1074)).
    + rewrite <- !Z.pow_add_r by lia. apply Z.pow_le_mono_r; lia.
    + apply Z.mul_le_mono_nonneg_r; [apply Z.lt_le_incl, pow2_pos|]; lia.
Qed.

Lemma canonical_compare m1 e1 m2 e2 :
  bounded prec emax m1 e1 = true -> bounded prec emax m2 e2 = true ->
  match e1 ?= e2 with
  | Lt => Lt
  | Gt => Gt
  | Eq => Pos.compare_cont Eq m1 m2
  end = (Z.pos m1 * 2 ^ (e1 + 1074) ?= Z.pos m2 * 2 ^ (e2 + 1074)).
Proof.
  intros B1 B2. destruct (Z.compare_spec e1 e2) as [->|Hlt|Hgt].
  - apply bounded_spec in B2 as [C2 _].
    assert (P : 0 < 2 ^ (e2 + 1074)) by (apply pow2_pos; lia).
    change (Pos.compare_cont Eq m1 m2) with (Z.pos m1 ?= Z.pos m2).
    symmetry. destruct (Z.compare_spec (Z.pos m1) (Z.pos m2)) as [Heq|Hl|Hg].
    + rewrite Heq. apply Z.compare_refl.
    + apply Z.compare_lt_iff. apply Z.mul_lt_mono_pos_r; lia.
    + apply Z.compare_gt_iff. apply Z.mul_lt_mono_pos_r; lia.
  - symmetry. apply Z.compare_lt_iff. now apply canonical_lt.
  - symmetry. apply Z.compare_gt_iff. now apply canonical_lt.
Qed.

Lemma SF2Z_pos m e : -1074 <= e -> 0 < SF2Z (S754_finite false m e).
Proof.
  intros He. assert (0 < 2 ^ (e + 1074)) by (apply pow2_pos; lia).
  unfold SF2Z. cbn [cond_Zopp]. nia.
Qed.

Lemma SF2Z_neg m e : -1074 <= e -> SF2Z (S754_finite true m e) < 0.
Proof.
  intros He. assert (0 < 2 ^ (e + 1074)) by (apply pow2_pos; lia).
  unfold SF2Z. cbn [cond_Zopp]. nia.
Qed.

Lemma bounded_emin m e : bounded prec emax m e = true -> -1074 <= e.
Proof. rewrite bounded_spec. lia. Qed.

(** The IEEE comparison of two finite binary64 numbers is the comparison of
    their exact values. *)
Lemma SFcompare_spec x y :
  valid_binary x = true -> valid_binary y = true ->
  SF_finite x = true -> SF_finite y = true ->
  SFcompare x y = Some (SF2Z x ?= SF2Z y).
Proof.
  intros Vx Vy Fx Fy.
  destruct x as [sx| | |sx mx ex], y as [sy| | |sy my ey]; try discriminate; cbn in Vx, Vy.
  - reflexivity.
  - pose proof (SF2Z_pos my ey (bounded_emin _ _ Vy)) as Hp.
    pose proof (SF2Z_neg my ey (bounded_emin _ _ Vy)) as Hn.
    cbn [SFcompare]. change (SF2Z (S754_zero sx)) with 0.
    destruct sy; f_equal; symmetry; [apply Z.compare_gt_iff|apply Z.compare_lt_iff]; lia.
  - pose proof (SF2Z_pos mx ex (bounded_emin _ _ Vx)) as Hp.
    pose proof (SF2Z_neg mx ex (bounded_emin _ _ Vx)) as Hn.
    cbn [SFcompare]. change (SF2Z (S754_zero sy)) with 0.
    destruct sx; f_equal; symmetry; [apply Z.compare_lt_iff|apply Z.compare_gt_iff]; lia.
  - pose proof (SF2Z_pos mx ex (bounded_emin _ _ Vx)) as Hpx.
    pose proof (SF2Z_neg mx ex (bounded_emin _ _ Vx)) as Hnx.
    pose proof (SF2Z_pos my ey (bounded_emin _ _ Vy)) as Hpy.
    pose proof (SF2Z_neg my ey (bounded_emin _ _ Vy)) as Hny.
    cbn [SFcompare].
    destruct sx, sy; f_equal.
    + transitivity (CompOpp (match ex ?= ey with
                               | Lt => Lt | Gt => Gt
                               | Eq => Pos.compare_cont Eq mx my end)).
      { destruct (ex ?= ey); reflexivity. }
      rewrite (canonical_compare _ _ _ _ Vx Vy). cbn [SF2Z cond_Zopp].
      rewrite <- Z.compare_antisym, <- Z.compare_opp. f_equal; lia.
    + symmetry; apply Z.compare_lt_iff; lia.
    + symmetry; apply Z.compare_gt_iff; lia.
    + rewrite (canonical_compare _ _ _ _ Vx Vy). reflexivity.
Qed.

Lemma ltb_val x y :
  SF_finite (Prim2SF x) = true -> SF_finite (Prim2SF y) = true ->
  (x <? y)%float = (float_val x <? float_val y).
Proof.
  intros Fx Fy. rewrite ltb_spec. unfold SFltb, float_val, Z.ltb.
  rewrite SFcompare_spec by (apply Prim2SF_valid || assumption).
  now destruct (_ ?= _).
Qed.

Lemma leb_val x y :
  SF_finite (Prim2SF x) = true -> SF_finite (Prim2SF y) = true ->
  (x <=? y)%float = (float_val x <=? float_val y).
Proof.
  intros Fx Fy. rewrite leb_spec. unfold SFleb, float_val, Z.leb.
  rewrite SFcompare_spec by (apply Prim2SF_valid || assumption).
  now destruct (_ ?= _).
Qed.

Lemma eqb_val x y :
  SF_finite (Prim2SF x) = true -> SF_finite (Prim2SF y) = true ->
  (x =? y)%float = (float_val x =? float_val y).
Proof.
  intros Fx Fy. rewrite eqb_spec. unfold SFeqb, float_val.
  rewrite SFcompare_spec by (apply Prim2SF_valid || assumption).
  now rewrite Z.eqb_compare.
Qed.

(** A float between two finite floats is finite. *)
Lemma between_finite lo p hi :
  SF_finite (Prim2SF lo) = true -> SF_finite (Prim2SF hi) = true ->
  (lo <=? p)%float = true -> (p <? hi)%float = true ->
  SF_finite (Prim2SF p) = true.
Proof.
  rewrite leb_spec, ltb_spec. unfold SFleb, SFltb.
  destruct (Prim2SF p) as [s|[]| |s m e], (Prim2SF lo) as [| | |[]], (Prim2SF hi) as [| | |[]];
    cbn; congruence.
Qed.

(** ** Bounds on a difference and on a product *)

Lemma grid_divides f g b :
  f <= g -> 0 <= f + 1074 -> (2 ^ (f + 1074) | b * 2 ^ (g + 1074)).
Proof.
  intros H1 H2. exists (b * 2 ^ (g - f)).
  rewrite <- Z.mul_assoc, <- Z.pow_add_r by lia. do 2 f_equal. lia.
Qed.

Lemma fexp_ge x : -1074 <= fexp prec emax x.
Proof. rewrite fexp_eq. lia. Qed.

Lemma binary_normalize_upper n E b g :
  -1074 <= E <= 971 -> 0 < b < 2 ^ 53 -> -1074 <= g <= 971 ->
  0 <= n -> n * 2 ^ (E + 1074) <= b * 2 ^ (g + 1074) ->
  SF_finite (binary_normalize prec emax n E false) = true /\
  0 <= SF2Z (binary_normalize prec emax n E false) <= b * 2 ^ (g + 1074).
Proof.
  intros HE Hb Hg Hn Hle.
  assert (Pg : 0 < 2 ^ (g + 1074)) by (apply pow2_pos; lia).
  destruct n as [|M|M]; [cbn; split; [reflexivity|nia]| |lia].
  cbn [binary_normalize].
  assert (HB : b * 2 ^ (g + 1074) < 2 ^ (g + 53 + 1074)).
  { replace (g + 53 + 1074) with (53 + (g + 1074)) by lia.
    rewrite (Z.pow_add_r 2 53) by lia. apply Z.mul_lt_mono_pos_r; lia. }
  assert (Hmag : dig M + E <= g + 53) by (apply (magnitude_bound _ _ 1074); lia).
  destruct (binary_round_upper false M E 1074 (b * 2 ^ (g + 1074))) as [Hz|(m & e & Hz & He & Hv)];
    try lia.
  - apply grid_divides; [rewrite fexp_eq; lia|]. pose proof (fexp_ge (dig M + E)). lia.
  - eapply Z.lt_le_trans; [exact HB|]. apply Z.pow_le_mono_r; lia.
  - rewrite Hz. cbn. split; [reflexivity|nia].
  - rewrite Hz. cbn [SF_finite SF2Z cond_Zopp]. split; [reflexivity|].
    assert (0 < 2 ^ (e + 1074)) by (apply pow2_pos; lia). nia.
Qed.

Lemma shl_align_fst m e ez :
  ez <= e -> Z.pos (fst (shl_align m e ez)) = Z.pos m * 2 ^ (e - ez).
Proof.
  intros H. unfold shl_align. destruct (ez - e) as [|d|d] eqn:Hd; cbn [fst]; try lia.
  - replace (e - ez) with 0 by lia. cbn. lia.
  - rewrite iter_xO. do 2 f_equal. lia.
Qed.

(** The scaled value of a mantissa aligned to a smaller exponent. *)
Lemma shl_align_val m e ez :
  -1074 <= ez <= e ->
  Z.pos (fst (shl_align m e ez)) * 2 ^ (ez + 1074) = Z.pos m * 2 ^ (e + 1074).
Proof.
  intros H. rewrite shl_align_fst by lia.
  rewrite <- Z.mul_assoc, <- Z.pow_add_r by lia. do 2 f_equal. lia.
Qed.

(** [x - y] for finite [0 <= y <= x] with [x - y <= b * 2^g]: the rounded
    difference does not exceed that bound either. *)
Lemma SFsub_upper x y b g :
  valid_binary x = true -> valid_binary y = true ->
  SF_finite x = true -> SF_finite y = true ->
  0 <= SF2Z y <= SF2Z x ->
  0 < b < 2 ^ 53 -> -1074 <= g <= 971 ->
  SF2Z x - SF2Z y <= b * 2 ^ (g + 1074) ->
  SF_finite (SF64sub x y) = true /\ 0 <= SF2Z (SF64sub x y) <= b * 2 ^ (g + 1074).
Proof.
  intros Vx Vy Fx Fy Hxy Hb Hg Hle.
  assert (Pg : 0 < 2 ^ (g + 1074)) by (apply pow2_pos; lia).
  destruct x as [sx| | |sx mx ex], y as [sy| | |sy my ey]; try discriminate; cbn in Vx, Vy.
  - destruct sx, sy; cbn; split; (reflexivity || nia).
  - pose proof (SF2Z_pos my ey (bounded_emin _ _ Vy)).
    pose proof (SF2Z_neg my ey (bounded_emin _ _ Vy)).
    change (SF2Z (S754_zero sx)) with 0 in Hxy. destruct sy; lia.
  - cbn [SF64sub SFsub]. change (SF2Z (S754_zero sy)) with 0 in *.
    split; [reflexivity|lia].
  - pose proof (SF2Z_pos my ey (bounded_emin _ _ Vy)).
    pose proof (SF2Z_neg my ey (bounded_emin _ _ Vy)).
    pose proof (SF2Z_pos mx ex (bounded_emin _ _ Vx)).
    pose proof (SF2Z_neg mx ex (bounded_emin _ _ Vx)).
    destruct sy; [lia|]. destruct sx; [lia|].
    pose proof (bounded_emin _ _ Vx). pose proof (bounded_emin _ _ Vy).
    apply bounded_spec in Vx as [_ Bx]. apply bounded_spec in Vy as [_ By].
    unfold SF64sub, SFsub. cbn [cond_Zopp].
    set (ez := Z.min ex ey).
    pose proof (shl_align_val mx ex ez ltac:(lia)) as Hx.
    pose proof (shl_align_val my ey ez ltac:(lia)) as Hy.
    cbn [SF2Z cond_Zopp] in Hxy, Hle.
    assert (0 < 2 ^ (ez + 1074)) by (apply pow2_pos; lia).
    apply binary_normalize_upper; try lia; nia.
Qed.

(** [x * y] for finite [0 <= x], [0 <= y] whose exact product is at most
    [b * 2^g], a bound on the grid of the result. *)
Lemma SFmul_upper x y b g :
  valid_binary x = true -> valid_binary y = true ->
  SF_finite x = true -> SF_finite y = true ->
  0 <= SF2Z x -> 0 <= SF2Z y ->
  0 < b < 2 ^ 53 -> -1074 <= g <= 971 ->
  (forall sx mx ex sy my ey,
     x = S754_finite sx mx ex -> y = S754_finite sy my ey -> ex + ey <= g) ->
  SF2Z x * SF2Z y <= b * 2 ^ (g + 1074) * ONE ->
  SF_finite (SF64mul x y) = true /\ 0 <= SF2Z (SF64mul x y) <= b * 2 ^ (g + 1074).
Proof.
  intros Vx Vy Fx Fy Hx Hy Hb Hg Hexp Hle.
  assert (Pg : 0 < 2 ^ (g + 1074)) by (apply pow2_pos; lia).
  destruct x as [sx| | |sx mx ex], y as [sy| | |sy my ey]; try discriminate;
    cbn in Vx, Vy; try (cbn; split; [reflexivity|nia]).
  pose proof (SF2Z_neg my ey (bounded_emin _ _ Vy)).
  pose proof (SF2Z_neg mx ex (bounded_emin _ _ Vx)).
  destruct sy; [lia|]. destruct sx; [lia|].
  pose proof (bounded_emin _ _ Vx). pose proof (bounded_emin _ _ Vy).
  specialize (Hexp _ _ _ _ _ _ eq_refl eq_refl).
  unfold SF64mul, SFmul. cbn [xorb].
  cbn [SF2Z cond_Zopp] in Hle. unfold ONE in Hle.
  assert (Hv : Z.pos (mx * my) * 2 ^ (ex + ey + 2148)
               = Z.pos mx * 2 ^ (ex + 1074) * (Z.pos my * 2 ^ (ey + 1074))).
  { rewrite Pos2Z.inj_mul. replace (ex + ey + 2148) with ((ex + 1074) + (ey + 1074)) by lia.
    rewrite Z.pow_add_r by lia. ring. }
  assert (HB : b * 2 ^ (g + 1074) * 2 ^ 1074 < 2 ^ (g + 53 + 2148)).
  { replace (g + 53 + 2148) with (53 + (g + 1074) + 1074) by lia.
    rewrite (Z.pow_add_r 2 (53 + (g + 1074))), (Z.pow_add_r 2 53) by lia.
    apply Z.mul_lt_mono_pos_r; [apply pow2_pos; lia|].
    apply Z.mul_lt_mono_pos_r; lia. }
  assert (Hmag : dig (mx * my) + (ex + ey) <= g + 53).
  { apply (magnitude_bound _ _ 2148); lia. }
  destruct (binary_round_aux_upper false (mx * my) (ex + ey) 2148
              (b * 2 ^ (g + 1074) * 2 ^ 1074)) as [Hz|(m & e & Hz & He & Hm)]; try lia.
  - exists (b * 2 ^ (g - Z.max (fexp prec emax (dig (mx * my) + (ex + ey))) (ex + ey))).
    rewrite <- !Z.mul_assoc. f_equal. rewrite fexp_eq.
    rewrite <- !Z.pow_add_r by lia. f_equal. lia.
  - eapply Z.lt_le_trans; [exact HB|]. apply Z.pow_le_mono_r; lia.
  - rewrite Hz. cbn. split; [reflexivity|nia].
  - rewrite Hz. cbn [SF_finite SF2Z cond_Zopp]. split; [reflexivity|].
    assert (0 < 2 ^ (e + 1074)) by (apply pow2_pos; lia).
    split; [nia|].
    replace (e + 2148) with ((e + 1074) + 1074) in Hm by lia.
    rewrite Z.pow_add_r, Z.mul_assoc in Hm by lia.
    apply Z.mul_le_mono_pos_r in Hm; [exact Hm|apply pow2_pos; lia].
Qed.

(** ** The interpreter's conversions on finite floats *)

Lemma py_int_finite x :
  SF_finite (Prim2SF x) = true -> py_int x = Ok (Z.quot (float_val x) ONE).
Proof. unfold py_int, float_val. now destruct (Prim2SF x). Qed.

Lemma math_floor_finite x :
  SF_finite (Prim2SF x) = true -> math_floor x = Ok (float_val x / ONE).
Proof. unfold math_floor, float_val. now destruct (Prim2SF x). Qed.

Lemma py_round_finite x :
  SF_finite (Prim2SF x) = true -> py_round x = Ok (Zround_half_even (float_val x) ONE).
Proof. unfold py_round, float_val. now destruct (Prim2SF x). Qed.

Lemma ONE_pos : 0 < ONE.
Proof. apply pow2_pos. lia. Qed.

Lemma Zround_half_even_bounds n d c :
  0 < d -> 0 <= n <= c * d -> 0 <= Zround_half_even n d <= c.
Proof.
  intros Hd [Hn Hc]. unfold Zround_half_even.
  pose proof (Z.div_mod n d ltac:(lia)) as Hdm.
  pose proof (Z.mod_pos_bound n d Hd) as Hmb.
  assert (Hq0 : 0 <= n / d) by (apply Z.div_pos; lia).
  assert (Hqc : n / d <= c) by (apply Z.div_le_upper_bound; lia).
  destruct (Z.eq_dec (n / d) c) as [Heq|Hne].
  - assert (n mod d = 0) by nia.
    replace (2 * (n mod d) ?= d) with Lt by (symmetry; apply Z.compare_lt_iff; lia). lia.
  - destruct (2 * (n mod d) ?= d); [destruct (Z.even (n / d))| |]; lia.
Qed.

(** [float(n)] is exact on the small integers the formatter converts. *)
Lemma py_float_small n :
  0 <= n <= 30 ->
  exists f, py_float n = Ok f /\ SF_finite (Prim2SF f) = true /\ float_val f = n * ONE.
Proof.
  intros Hn.
  assert (Hall : forallb (fun i =>
            match py_float (Z.of_nat i) with
            | Ok f => SF_finite (Prim2SF f) && (float_val f =? Z.of_nat i * ONE)
            | Raise _ => false
            end) (seq 0 31) = true) by (vm_compute; reflexivity).
  rewrite forallb_forall in Hall.
  assert (Hin : In (Z.to_nat n) (seq 0 31)) by (apply in_seq; lia).
  apply Hall in Hin. rewrite Z2Nat.id in Hin by lia.
  destruct (py_float n) as [f|]; [|discriminate].
  apply andb_true_iff in Hin as [Hfin Hval]. apply Z.eqb_eq in Hval. eauto.
Qed.

(** ** Operations whose result is exact *)

Lemma dig_mono m1 m2 : Z.pos m1 <= Z.pos m2 -> dig m1 <= dig m2.
Proof.
  intros H. pose proof (magnitude_lt m1 0 m2 0 0). cbn in *. lia.
Qed.

Lemma bounded_dig m e : bounded prec emax m e = true -> dig m <= 53.
Proof. rewrite bounded_spec. lia. Qed.

Lemma bounded_emax m e : bounded prec emax m e = true -> e <= 971.
Proof. rewrite bounded_spec. lia. Qed.

(** A mantissa of at most 53 bits at an exponent in range needs no rounding. *)
Lemma binary_round_fits s M E :
  dig M <= 53 -> -1074 <= E <= 971 ->
  exists m' e', binary_round prec emax s M E = S754_finite s m' e'
    /\ bounded prec emax m' e' = true
    /\ Z.pos m' * 2 ^ (e' + 1074) = Z.pos M * 2 ^ (E + 1074).
Proof.
  intros Hd HE. pose proof (dig_pos M).
  unfold binary_round, shl_align. fold (dig M). rewrite fexp_eq.
  destruct (Z.max (dig M + E - 53) (-1074) - E) as [|d|d] eqn:Hs; [|lia|].
  - assert (Hb : bounded prec emax M E = true) by (apply bounded_spec; lia).
    exists M, E. split; [now apply binary_round_aux_canonical|auto].
  - set (e' := Z.max (dig M + E - 53) (-1074)) in *.
    assert (Hb : bounded prec emax (Pos.iter xO M d) e' = true).
    { apply bounded_spec. rewrite dig_iter_xO. lia. }
    exists (Pos.iter xO M d), e'. split; [now apply binary_round_aux_canonical|].
    split; [exact Hb|].
    rewrite iter_xO, <- Z.mul_assoc, <- Z.pow_add_r by lia. do 2 f_equal. lia.
Qed.

Lemma SF_nonneg_finite x : SF_nonneg x = true -> SF_finite x = true.
Proof. now destruct x as [[]| | |[] ? ?]. Qed.

Lemma SF_nonneg_val x : valid_binary x = true -> SF_nonneg x = true -> 0 <= SF2Z x.
Proof.
  destruct x as [[]| | |[] m e]; try discriminate; cbn [valid_binary SF2Z]; try lia.
  intros Hb _. pose proof (SF2Z_pos m e (bounded_emin _ _ Hb)). cbn [SF2Z] in *. lia.
Qed.

(** Among valid non-negative binary64 numbers the value determines the
    number. *)
Lemma SF_nonneg_inj x y :
  valid_binary x = true -> valid_binary y = true ->
  SF_nonneg x = true -> SF_nonneg y = true ->
  SF2Z x = SF2Z y -> x = y.
Proof.
  intros Vx Vy Nx Ny Heq.
  destruct x as [[]| | |[] mx ex], y as [[]| | |[] my ey]; try discriminate;
    cbn [valid_binary] in Vx, Vy.
  - reflexivity.
  - pose proof (SF2Z_pos my ey (bounded_emin _ _ Vy)). cbn [SF2Z] in *. lia.
  - pose proof (SF2Z_pos mx ex (bounded_emin _ _ Vx)). cbn [SF2Z] in *. lia.
  - cbn [SF2Z cond_Zopp] in Heq.
    destruct (canonical_unique _ _ _ _ Vx Vy Heq) as [-> ->]. reflexivity.
Qed.

(** Among valid finite binary64 numbers the sign and the value determine
    the number. *)
Lemma SF_finite_inj x y :
  valid_binary x = true -> valid_binary y = true ->
  SF_finite x = true -> SF_finite y = true ->
  SF_sign x = SF_sign y -> SF2Z x = SF2Z y -> x = y.
Proof.
  intros Vx Vy Fx Fy Hs Heq.
  destruct x as [sx| | |sx mx ex], y as [sy| | |sy my ey]; try discriminate;
    cbn [valid_binary SF_sign] in Vx, Vy, Hs; subst sy.
  - reflexivity.
  - pose proof (SF2Z_pos my ey (bounded_emin _ _ Vy)).
    pose proof (SF2Z_neg my ey (bounded_emin _ _ Vy)).
    change (SF2Z (S754_zero sx)) with 0 in Heq. destruct sx; lia.
  - pose proof (SF2Z_pos mx ex (bounded_emin _ _ Vx)).
    pose proof (SF2Z_neg mx ex (bounded_emin _ _ Vx)).
    change (SF2Z (S754_zero sx)) with 0 in Heq. destruct sx; lia.
  - assert (Hm : Z.pos mx * 2 ^ (ex + 1074) = Z.pos my * 2 ^ (ey + 1074)).
    { cbn [SF2Z] in Heq. destruct sx; cbn [cond_Zopp] in Heq; lia. }
    destruct (canonical_unique _ _ _ _ Vx Vy Hm) as [-> ->]. reflexivity.
Qed.

(** [fmod] of a finite number by a positive one is the exact remainder of
    the truncated division, with the sign of the dividend. *)
Lemma SFfmod_finite sx mx ex my ey :
  bounded prec emax mx ex = true -> bounded prec emax my ey = true ->
  let r := SFfmod (S754_finite sx mx ex) (S754_finite false my ey) in
  valid_binary r = true /\ SF_finite r = true /\ SF_sign r = sx /\
  SF2Z r = Z.rem (SF2Z (S754_finite sx mx ex)) (SF2Z (S754_finite false my ey)).
Proof.
  intros Vx Vy. cbv zeta.
  pose proof (bounded_emin _ _ Vx) as Ex. pose proof (bounded_emin _ _ Vy) as Ey.
  pose proof (bounded_dig _ _ Vx) as Dx. pose proof (bounded_dig _ _ Vy) as Dy.
  pose proof (bounded_emax _ _ Vx) as Mx. pose proof (bounded_emax _ _ Vy) as My.
  cbn [SFfmod SF2Z]. cbn [cond_Zopp].
  set (e := Z.min ex ey).
  set (X := Z.pos mx * 2 ^ (ex - e)). set (Y := Z.pos my * 2 ^ (ey - e)).
  assert (Pe : 0 < 2 ^ (e + 1074)) by (apply pow2_pos; lia).
  assert (HX : X * 2 ^ (e + 1074) = Z.pos mx * 2 ^ (ex + 1074)).
  { unfold X. rewrite <- Z.mul_assoc, <- Z.pow_add_r by lia. do 2 f_equal. lia. }
  assert (HY : Y * 2 ^ (e + 1074) = Z.pos my * 2 ^ (ey + 1074)).
  { unfold Y. rewrite <- Z.mul_assoc, <- Z.pow_add_r by lia. do 2 f_equal. lia. }
  assert (PX : 0 < X) by (unfold X; assert (0 < 2 ^ (ex - e)) by (apply pow2_pos; lia); nia).
  assert (PY : 0 < Y) by (unfold Y; assert (0 < 2 ^ (ey - e)) by (apply pow2_pos; lia); nia).
  assert (Hrem : Z.rem (cond_Zopp sx (Z.pos mx) * 2 ^ (ex + 1074)) (Z.pos my * 2 ^ (ey + 1074))
                 = cond_Zopp sx (X mod Y) * 2 ^ (e + 1074)).
  { rewrite <- HY.
    replace (cond_Zopp sx (Z.pos mx) * 2 ^ (ex + 1074))
      with (cond_Zopp sx (X * 2 ^ (e + 1074))) by (rewrite HX; destruct sx; cbn; lia).
    destruct sx; cbn [cond_Zopp].
    - rewrite Z.rem_opp_l by lia. rewrite Z.rem_mod_nonneg by lia.
      rewrite Zmult_mod_distr_r. lia.
    - rewrite Z.rem_mod_nonneg by lia. now rewrite Zmult_mod_distr_r. }
  rewrite Hrem.
  pose proof (Z.mod_pos_bound X Y PY) as HR.
  pose proof (Z.mod_le X Y ltac:(lia) PY) as HRX.
  destruct (X mod Y) as [|r|r] eqn:ER; [destruct sx; cbn; auto| |lia].
  assert (Dr : dig r <= 53).
  { destruct (Z_le_gt_dec ex ey).
    - assert (X = Z.pos mx) by (unfold X; replace (ex - e) with 0 by lia; cbn; lia).
      pose proof (dig_mono r mx ltac:(lia)). lia.
    - assert (Y = Z.pos my) by (unfold Y; replace (ey - e) with 0 by lia; cbn; lia).
      pose proof (dig_mono r my ltac:(lia)). lia. }
  destruct (binary_round_fits sx r e Dr ltac:(lia)) as (m' & e' & Hbr & Hb & Hv).
  assert (Hn : binary_normalize prec emax (cond_Zopp sx (Z.pos r)) e sx = S754_finite sx m' e').
  { destruct sx; exact Hbr. }
  rewrite Hn. cbn [valid_binary SF_finite SF_sign SF2Z].
  repeat split; try assumption. destruct sx; cbn [cond_Zopp]; lia.
Qed.

Lemma SF_nonneg_sign x : SF_nonneg x = true <-> SF_finite x = true /\ SF_sign x = false.
Proof. destruct x as [[]| | |[] ? ?]; cbn; intuition congruence. Qed.

(** [fmod] of a non-negative number by a positive one is the exact
    remainder. *)
Lemma SFfmod_nonneg x my ey :
  valid_binary x = true -> SF_nonneg x = true ->
  bounded prec emax my ey = true ->
  let r := SFfmod x (S754_finite false my ey) in
  valid_binary r = true /\ SF_nonneg r = true /\
  SF2Z r = SF2Z x mod SF2Z (S754_finite false my ey).
Proof.
  intros Vx Nx Vy. cbv zeta.
  destruct x as [[]| | |[] mx ex]; try discriminate; cbn [valid_binary] in Vx.
  - cbn. auto.
  - destruct (SFfmod_finite false mx ex my ey Vx Vy) as (Vr & Fr & Sr & Hr).
    pose proof (SF2Z_pos mx ex (bounded_emin _ _ Vx)).
    pose proof (SF2Z_pos my ey (bounded_emin _ _ Vy)).
    rewrite Z.rem_mod_nonneg in Hr by lia.
    split; [exact Vr|]. split; [now apply SF_nonneg_sign|exact Hr].
Qed.

(** A difference of non-negative numbers that a non-negative binary64
    number represents is that number. *)
Lemma SFsub_exact x y c :
  valid_binary x = true -> valid_binary y = true -> valid_binary c = true ->
  SF_nonneg x = true -> SF_nonneg y = true -> SF_nonneg c = true ->
  SF2Z x - SF2Z y = SF2Z c ->
  SF64sub x y = c.
Proof.
  intros Vx Vy Vc Nx Ny Nc Heq.
  pose proof (SF_nonneg_val _ Vc Nc) as Hc0.
  destruct x as [[]| | |[] mx ex], y as [[]| | |[] my ey]; try discriminate;
    cbn [valid_binary] in Vx, Vy.
  - cbn. symmetry. apply SF_nonneg_inj; auto; cbn in *; lia.
  - pose proof (SF2Z_pos my ey (bounded_emin _ _ Vy)). cbn [SF2Z] in *. lia.
  - cbn [SF64sub SFsub]. apply SF_nonneg_inj; auto; cbn [SF2Z] in *; lia.
  - pose proof (bounded_emin _ _ Vx) as Ex. pose proof (bounded_emin _ _ Vy) as Ey.
    unfold SF64sub, SFsub. cbn [cond_Zopp].
    set (ez := Z.min ex ey).
    pose proof (shl_align_val mx ex ez ltac:(lia)) as Hx.
    pose proof (shl_align_val my ey ez ltac:(lia)) as Hy.
    assert (Pe : 0 < 2 ^ (ez + 1074)) by (apply pow2_pos; lia).
    cbn [SF2Z cond_Zopp] in Heq. rewrite <- Hx, <- Hy, <- Z.mul_sub_distr_r in Heq.
    destruct (_ - _) as [|M|M] eqn:EM.
    + cbn [binary_normalize]. apply SF_nonneg_inj; auto; cbn [SF2Z]; lia.
    + cbn [binary_normalize].
      destruct c as [[]| | |[] mc ec]; try discriminate; cbn [SF2Z cond_Zopp] in Heq; [lia|].
      apply binary_round_exact; [exact Vc|lia|exact Heq].
    + lia.
Qed.

(** ** [%] and [//] on non-negative floats *)

Lemma Prim2SF_SF2Prim_valid z : valid_binary z = true -> Prim2SF (SF2Prim z) = z.
Proof. apply Prim2SF_SF2Prim. Qed.

Lemma float_val_nonneg x : SF_nonneg (Prim2SF x) = true -> 0 <= float_val x.
Proof. intros H. apply SF_nonneg_val; [apply Prim2SF_valid|exact H]. Qed.

Lemma fmod_nonneg x y my ey :
  SF_nonneg (Prim2SF x) = true -> Prim2SF y = S754_finite false my ey ->
  SF_nonneg (Prim2SF (fmod x y)) = true /\
  float_val (fmod x y) = float_val x mod float_val y.
Proof.
  intros Nx Ey. pose proof (Prim2SF_valid y) as Vy. rewrite Ey in Vy. cbn in Vy.
  destruct (SFfmod_nonneg (Prim2SF x) my ey (Prim2SF_valid x) Nx Vy) as (Vr & Nr & Hr).
  unfold fmod, float_val. rewrite Ey, Prim2SF_SF2Prim_valid by exact Vr. auto.
Qed.

Lemma nonneg_not_lt0 x : SF_nonneg (Prim2SF x) = true -> (x <? 0)%float = false.
Proof.
  intros Nx. rewrite ltb_val by (now apply SF_nonneg_finite || reflexivity).
  change (float_val 0) with 0. apply Z.ltb_ge. now apply float_val_nonneg.
Qed.

Lemma eqb0_val x : SF_finite (Prim2SF x) = true -> (x =? 0)%float = (float_val x =? 0).
Proof. intros Fx. now rewrite eqb_val by (assumption || reflexivity). Qed.

Lemma positive_float y my ey :
  Prim2SF y = S754_finite false my ey ->
  SF_finite (Prim2SF y) = true /\ 0 < float_val y /\
  (y =? 0)%float = false /\ (y <? 0)%float = false /\ copysign_zero y = 0%float.
Proof.
  intros Ey. pose proof (Prim2SF_valid y) as Vy. rewrite Ey in Vy. cbn in Vy.
  assert (Fy : SF_finite (Prim2SF y) = true) by now rewrite Ey.
  assert (Py : 0 < float_val y).
  { unfold float_val. rewrite Ey. apply SF2Z_pos. now apply bounded_emin in Vy. }
  assert (E0 : (y =? 0)%float = false) by (rewrite eqb0_val by assumption; apply Z.eqb_neq; lia).
  assert (L0 : (y <? 0)%float = false).
  { rewrite ltb_val by (assumption || reflexivity). apply Z.ltb_ge.
    change (float_val 0) with 0. lia. }
  repeat split; try assumption.
  unfold copysign_zero, get_sign, is_zero. change zero with 0%float.
  now rewrite E0, L0.
Qed.

(** [x % y] for finite [0 <= x] (possibly [-0.0]) and [0 < y]: no
    adjustment takes place, the result is the exact remainder. *)
Lemma float_rem_nonneg x y my ey :
  SF_finite (Prim2SF x) = true -> 0 <= float_val x ->
  Prim2SF y = S754_finite false my ey ->
  exists r, float_rem x y = Ok r /\ SF_nonneg (Prim2SF r) = true /\
            float_val r = float_val x mod float_val y.
Proof.
  intros Fx Hx Ey.
  destruct (positive_float y my ey Ey) as (Fy & Py & E0 & L0 & Hcs).
  unfold float_rem. rewrite E0, L0, Hcs.
  destruct (Prim2SF x) as [[]| | |[] mx ex] eqn:Ex; try discriminate.
  - (* -0.0 *)
    assert (Hm : fmod x y = neg_zero) by (unfold fmod; now rewrite Ex, Ey).
    rewrite Hm. cbn. exists 0%float. unfold float_val at 2. rewrite Ex. cbn. auto.
  - assert (Nx : SF_nonneg (Prim2SF x) = true) by now rewrite Ex.
    destruct (fmod_nonneg x y my ey Nx Ey) as [Nr Hr].
    assert (Hm : fmod x y = 0%float) by (unfold fmod; now rewrite Ex, Ey).
    rewrite Hm. cbn. exists 0%float. unfold float_val at 2. rewrite Ex. cbn. auto.
  - pose proof (Prim2SF_valid x) as Vx. rewrite Ex in Vx. cbn in Vx.
    pose proof (SF2Z_neg mx ex (bounded_emin _ _ Vx)).
    unfold float_val in Hx. rewrite Ex in Hx. lia.
  - assert (Nx : SF_nonneg (Prim2SF x) = true) by now rewrite Ex.
    destruct (fmod_nonneg x y my ey Nx Ey) as [Nr Hr].
    rewrite (nonneg_not_lt0 _ Nr), eqb0_val by now apply SF_nonneg_finite.
    destruct (Z.eqb_spec (float_val (fmod x y)) 0) as [Hz|Hnz]; cbn [negb xorb].
    + exists 0%float. repeat split. change (float_val 0) with 0. lia.
    + exists (fmod x y). auto.
Qed.

(** ** Signs *)

Lemma binary_round_aux_sign sx mx ex lx :
  SF_sign (binary_round_aux prec emax sx mx ex lx) = sx \/
  binary_round_aux prec emax sx mx ex lx = S754_nan.
Proof.
  unfold binary_round_aux.
  destruct (shr_fexp prec emax mx ex lx) as [mrs' e'].
  destruct (shr_fexp prec emax _ e' loc_Exact) as [mrs'' e''].
  destruct (shr_m mrs''); auto. destruct (_ <=? _); auto.
Qed.

Lemma get_sign_false f : SF_sign (Prim2SF f) = false -> get_sign f = false.
Proof.
  intros Hs. unfold get_sign, is_zero. rewrite eqb_spec.
  change (Prim2SF zero) with (S754_zero false).
  destruct (Prim2SF f) as [s|s| |s m e] eqn:E; cbn in Hs; subst; cbn [SFeqb SFcompare].
  - rewrite ltb_spec, div_spec, E. reflexivity.
  - rewrite ltb_spec, E. reflexivity.
  - rewrite ltb_spec, E. reflexivity.
  - rewrite ltb_spec, E. reflexivity.
Qed.

Lemma div_nonneg_sign x y my ey :
  SF_nonneg (Prim2SF x) = true -> Prim2SF y = S754_finite false my ey ->
  get_sign (x / y)%float = false.
Proof.
  intros Nx Ey. apply get_sign_false. rewrite div_spec, Ey.
  destruct (Prim2SF x) as [[]| | |[] mx ex]; try discriminate; [reflexivity|].
  unfold SF64div, SFdiv.
  destruct (SFdiv_core_binary _ _ _ _ _ _) as [[mz ez] lz]. cbn [xorb].
  destruct (binary_round_aux_sign false mz ez lz) as [H|H]; rewrite H; reflexivity.
Qed.

(** What the twelve sign boundaries evaluate to: [float(k) * 30.0] is the
    float [30 k], and the quotient steps of [//] map it back to [k]. *)
Lemma sign_start_facts k :
  0 <= k <= 11 ->
  SF_nonneg (Prim2SF (sign_start k)) = true /\
  float_val (sign_start k) = k * (30 * ONE) /\
  (exists fk, py_float k = Ok fk /\ (fk * 30)%float = sign_start k) /\
  (0 < k ->
   let div := (sign_start k / 30)%float in
   (div =? 0)%float = false /\ (0.5 <? div - c_floor div)%float = false /\
   py_int (c_floor div) = Ok k).
Proof.
  intros Hk.
  assert (Hall : forallb (fun i =>
      let k := Z.of_nat i in
      SF_nonneg (Prim2SF (sign_start k)) &&
      (float_val (sign_start k) =? k * (30 * ONE)) &&
      match py_float k with
      | Ok fk => PrimFloat.Leibniz.eqb (fk * 30)%float (sign_start k)
      | Raise _ => false
      end &&
      ((k =? 0) ||
       let div := (sign_start k / 30)%float in
       negb (div =? 0)%float && negb (0.5 <? div - c_floor div)%float &&
       match py_int (c_floor div) with Ok z => z =? k | Raise _ => false end))
    (seq 0 12) = true) by (vm_compute; reflexivity).
  rewrite forallb_forall in Hall.
  assert (Hin : In (Z.to_nat k) (seq 0 12)) by (apply in_seq; lia).
  apply Hall in Hin. cbv zeta in Hin. rewrite Z2Nat.id in Hin by lia.
  apply andb_true_iff in Hin as [Hin H4]. apply andb_true_iff in Hin as [Hin H3].
  apply andb_true_iff in Hin as [H1 H2]. apply Z.eqb_eq in H2.
  split; [exact H1|]. split; [exact H2|]. split.
  - destruct (py_float k) as [fk|]; [|discriminate].
    exists fk. split; [reflexivity|]. now apply FloatAxioms.Leibniz.eqb_spec.
  - intros Hpos. cbv zeta.
    apply orb_true_iff in H4 as [H4|H4]; [apply Z.eqb_eq in H4; lia|].
    apply andb_true_iff in H4 as [H4 H7]. apply andb_true_iff in H4 as [H5 H6].
    apply negb_true_iff in H5, H6.
    destruct (py_int _) as [z|]; [|discriminate]. apply Z.eqb_eq in H7. subst z. auto.
Qed.

(** [lon // 30] for [0 <= lon < 360]: the quotient is the exact floor. *)
Lemma float_floor_div_30 lon :
  SF_nonneg (Prim2SF lon) = true -> float_val lon < 360 * ONE ->
  exists q, float_floor_div lon 30 = Ok q /\
            py_int q = Ok (float_val lon / (30 * ONE)) /\
            0 <= float_val lon / (30 * ONE) <= 11.
Proof.
  intros Nl Hlt. pose proof ONE_pos as HONE.
  pose proof (float_val_nonneg _ Nl) as Hl0.
  set (k := float_val lon / (30 * ONE)).
  assert (Hk : 0 <= k <= 11).
  { split; [apply Z.div_pos; lia|].
    assert (k < 12) by (apply Z.div_lt_upper_bound; lia). lia. }
  destruct (sign_start_facts k Hk) as (Nk & Vk & _ & Hdiv).
  assert (E30 : Prim2SF 30 = S754_finite false 8444249301319680 (-48)) by reflexivity.
  assert (V30 : float_val 30 = 30 * ONE) by (vm_compute; reflexivity).
  destruct (fmod_nonneg lon 30 _ _ Nl E30) as [Nm Vm]. rewrite V30 in Vm.
  pose proof (Z.div_mod (float_val lon) (30 * ONE) ltac:(lia)) as Hdm. fold k in Hdm.
  (* the subtraction [lon - fmod lon 30] is exact *)
  assert (Hsub : (lon - fmod lon 30)%float = sign_start k).
  { apply Prim2SF_inj. rewrite sub_spec.
    apply SFsub_exact; try apply Prim2SF_valid; try assumption.
    fold (float_val lon) (float_val (fmod lon 30)) (float_val (sign_start k)). lia. }
  exists (if decide (k = 0) then 0%float else c_floor (sign_start k / 30)%float).
  split; [|split; [|exact Hk]].
  - unfold float_floor_div. change (30 =? 0)%float with false. cbv zeta.
    rewrite Hsub. change (30 <? 0)%float with false.
    rewrite (nonneg_not_lt0 _ Nm). cbn [xorb]. rewrite andb_false_r.
    case_decide as Hk0.
    + (* the first sign: the quotient is zero *)
      assert (Hz : sign_start k = 0%float) by (rewrite Hk0; reflexivity).
      rewrite Hz. change (0 / 30 =? 0)%float with true. cbn [negb].
      f_equal. unfold copysign_zero.
      enough (get_sign (lon / 30)%float = false) as -> by reflexivity.
      now apply (div_nonneg_sign lon 30 _ _ Nl E30).
    + destruct (Hdiv ltac:(lia)) as (D0 & D1 & _). rewrite D0, D1. reflexivity.
  - case_decide as Hk0.
    + rewrite Hk0. reflexivity.
    + now destruct (Hdiv ltac:(lia)) as (_ & _ & D2).
Qed.

(** ** Rounding to nearest, ties to even *)

Lemma Zround_half_even_spec n d :
  0 < d ->
  let r := Zround_half_even n d in
  - d <= 2 * (n - r * d) <= d /\
  (2 * (n - r * d) = d \/ 2 * (n - r * d) = - d -> Z.even r = true).
Proof.
  intros Hd. cbv zeta. unfold Zround_half_even.
  pose proof (Z.div_mod n d ltac:(lia)) as Hdm.
  pose proof (Z.mod_pos_bound n d Hd) as Hmb.
  destruct (Z.compare_spec (2 * (n mod d)) d) as [He|Hl|Hg].
  - destruct (Z.even (n / d)) eqn:Ev.
    + split; [nia|]. intros _. exact Ev.
    + split; [nia|]. intros _. rewrite Z.even_add, Ev. reflexivity.
  - split; [nia|]. intros [H|H]; nia.
  - split; [nia|]. intros [H|H]; nia.
Qed.

Lemma Zround_half_even_1 n : Zround_half_even n 1 = n.
Proof. unfold Zround_half_even. rewrite Z.div_1_r, Z.mod_1_r. reflexivity. Qed.

Lemma shr_iter_bits n m :
  0 <= m ->
  Nat.iter (S n) shr_1 (Build_shr_record m false false)
  = Build_shr_record (m / 2 ^ Z.of_nat (S n)) (Z.odd (m / 2 ^ Z.of_nat n))
                     (negb (m mod 2 ^ Z.of_nat n =? 0)).
Proof.
  intros Hm. induction n as [|n IH].
  - cbn [Nat.iter]. rewrite shr_1_spec by lia. cbn. rewrite Z.div_1_r, Z.mod_1_r.
    reflexivity.
  - rewrite Nat.iter_succ, IH.
    assert (Hp : 0 < 2 ^ Z.of_nat n) by (apply pow2_pos; lia).
    assert (Hp' : 0 < 2 ^ Z.of_nat (S n)) by (apply pow2_pos; lia).
    rewrite shr_1_spec by (apply Z.div_pos; lia).
    rewrite Z.div_div by lia.
    replace (2 ^ Z.of_nat (S n) * 2) with (2 ^ Z.of_nat (S (S n)))
      by (rewrite (Nat2Z.inj_succ (S n)), Z.pow_succ_r; lia).
    f_equal.
    assert (E2 : 2 ^ Z.of_nat (S n) = 2 ^ Z.of_nat n * 2)
      by (rewrite Nat2Z.inj_succ, Z.pow_succ_r; lia).
    rewrite E2, Z.rem_mul_r by lia.
    pose proof (Z.mod_pos_bound m (2 ^ Z.of_nat n) Hp) as Hb.
    rewrite Zodd_mod.
    pose proof (Z.mod_pos_bound (m / 2 ^ Z.of_nat n) 2 ltac:(lia)) as Hb2.
    destruct (Z.eqb_spec ((m / 2 ^ Z.of_nat n) mod 2) 1) as [E1|N1];
      destruct (Z.eqb_spec (m mod 2 ^ Z.of_nat n) 0) as [E0|N0];
      destruct (Z.eqb_spec (m mod 2 ^ Z.of_nat n
                            + 2 ^ Z.of_nat n * ((m / 2 ^ Z.of_nat n) mod 2)) 0) as [E|N];
      cbn; try reflexivity; exfalso; nia.
Qed.

Lemma shr_iter_round n m :
  0 <= m ->
  let rec := Nat.iter n shr_1 (Build_shr_record m false false) in
  round_nearest_even (shr_m rec) (loc_of_shr_record rec)
  = Zround_half_even m (2 ^ Z.of_nat n).
Proof.
  intros Hm. cbv zeta. destruct n as [|n].
  - cbn. unfold Zround_half_even. rewrite Z.div_1_r, Z.mod_1_r. reflexivity.
  - rewrite shr_iter_bits by assumption.
    assert (Hp : 0 < 2 ^ Z.of_nat n) by (apply pow2_pos; lia).
    assert (E2 : 2 ^ Z.of_nat (S n) = 2 ^ Z.of_nat n * 2)
      by (rewrite Nat2Z.inj_succ, Z.pow_succ_r; lia).
    unfold Zround_half_even. cbn [shr_m loc_of_shr_record shr_r shr_s].
    rewrite E2 at 2 3. rewrite Z.rem_mul_r by lia.
    pose proof (Z.mod_pos_bound m (2 ^ Z.of_nat n) Hp) as Hb.
    pose proof (Z.mod_pos_bound (m / 2 ^ Z.of_nat n) 2 ltac:(lia)) as Hb2.
    rewrite Zodd_mod.
    destruct (Z.eqb_spec ((m / 2 ^ Z.of_nat n) mod 2) 1) as [E1|N1];
      destruct (Z.eqb_spec (m mod 2 ^ Z.of_nat n) 0) as [E0|N0];
      cbn [negb loc_of_shr_record round_nearest_even].
    + rewrite E1, E0.
      replace (2 * (0 + 2 ^ Z.of_nat n * 1) ?= 2 ^ Z.of_nat n * 2) with Eq
        by (symmetry; apply Z.compare_eq_iff; lia).
      reflexivity.
    + rewrite E1.
      replace (2 * (m mod 2 ^ Z.of_nat n + 2 ^ Z.of_nat n * 1) ?= 2 ^ Z.of_nat n * 2) with Gt
        by (symmetry; apply Z.compare_gt_iff; lia).
      reflexivity.
    + assert (E : (m / 2 ^ Z.of_nat n) mod 2 = 0) by lia. rewrite E, E0.
      replace (2 * (0 + 2 ^ Z.of_nat n * 0) ?= 2 ^ Z.of_nat n * 2) with Lt
        by (symmetry; apply Z.compare_lt_iff; lia).
      reflexivity.
    + assert (E : (m / 2 ^ Z.of_nat n) mod 2 = 0) by lia. rewrite E.
      replace (2 * (m mod 2 ^ Z.of_nat n + 2 ^ Z.of_nat n * 0) ?= 2 ^ Z.of_nat n * 2) with Lt
        by (symmetry; apply Z.compare_lt_iff; lia).
      reflexivity.
Qed.

(** The second stage of [binary_round_aux] on an already rounded mantissa:
    it only renormalises a carry into the 54th bit. *)
Lemma round_stage2_val sx mr f :
  0 <= mr <= 2 ^ 53 -> -1074 <= f <= 970 -> (-1074 < f -> 2 ^ 52 <= mr) ->
  let z := (let '(mrs, e) := shr_fexp prec emax mr f loc_Exact in
            match shr_m mrs with
            | Z0 => S754_zero sx
            | Z.pos m => if e <=? emax - prec then S754_finite sx m e else S754_infinity sx
            | Z.neg _ => S754_nan
            end) in
  valid_binary z = true /\ SF_finite z = true /\ SF_sign z = sx /\
  SF2Z z = cond_Zopp sx mr * 2 ^ (f + 1074).
Proof.
  intros Hmr Hf Hnorm. cbv zeta.
  destruct mr as [|p|p]; [| |lia].
  - unfold shr_fexp. cbn [Zdigits2 shr_record_of_loc]. rewrite fexp_eq. unfold shr.
    destruct (Z.max (0 + f - 53) (-1074) - f) eqn:Hs; try lia; cbn [shr_m];
      repeat split; destruct sx; reflexivity.
  - unfold shr_fexp. cbn [Zdigits2 shr_record_of_loc]. fold (dig p). rewrite fexp_eq.
    pose proof (dig_bounds p) as [DL DU]. pose proof (dig_pos p) as Dp.
    assert (Hd54 : dig p <= 54).
    { destruct (Z_le_gt_dec (dig p) 54) as [|Hgt]; [assumption|].
      assert (2 ^ 54 <= 2 ^ (dig p - 1)) by (apply Z.pow_le_mono_r; lia).
      assert (2 ^ 53 < 2 ^ 54) by (apply Z.pow_lt_mono_r; lia). lia. }
    destruct (Z.eq_dec (Z.pos p) (2 ^ 53)) as [Heq|Hne].
    + (* a carry: one more shift, exact *)
      assert (Hp : p = 9007199254740992%positive) by (apply Pos2Z.inj; exact Heq).
      subst p. change (dig 9007199254740992) with 54.
      replace (Z.max (54 + f - 53) (-1074) - f) with 1 by lia.
      cbn [shr iter_pos shr_1 shr_m].
      replace (f + 1 <=? emax - prec) with true
        by (symmetry; apply Z.leb_le; unfold emax, prec; lia).
      split; [|split; [reflexivity|split; [reflexivity|]]].
      * cbn [valid_binary]. apply bounded_spec.
        change (dig 4503599627370496) with 53. lia.
      * cbn [SF2Z]. replace (f + 1 + 1074) with (1 + (f + 1074)) by lia.
        rewrite Z.pow_add_r by lia. destruct sx; cbn [cond_Zopp]; lia.
    + assert (Hd53 : dig p <= 53).
      { destruct (Z_le_gt_dec (dig p) 53) as [|Hgt]; [assumption|].
        assert (2 ^ 53 <= 2 ^ (dig p - 1)) by (apply Z.pow_le_mono_r; lia). lia. }
      assert (Hcan : f = Z.max (dig p + f - 53) (-1074)).
      { destruct (Z.eq_dec f (-1074)) as [->|Hn]; [lia|].
        assert (2 ^ 52 <= Z.pos p) by (apply Hnorm; lia).
        assert (53 <= dig p).
        { destruct (Z_le_gt_dec 53 (dig p)) as [|Hgt]; [assumption|].
          assert (2 ^ dig p <= 2 ^ 52) by (apply Z.pow_le_mono_r; lia). lia. }
        lia. }
      rewrite <- Hcan, Z.sub_diag. cbn [shr shr_m].
      replace (f <=? emax - prec) with true
        by (symmetry; apply Z.leb_le; unfold emax, prec; lia).
      split; [|split; [reflexivity|split; [reflexivity|reflexivity]]].
      cbn [valid_binary]. apply bounded_spec. lia.
Qed.

(** [binary_round_aux] of an exact mantissa is the correctly rounded value:
    the mantissa is divided by [2^(f - E)], to nearest with ties to even,
    and the quotient is taken at the exponent [f] of the format. *)
Lemma binary_round_aux_nearest sx M E :
  let f := Z.max (dig M + E - 53) (-1074) in
  E <= f -> f <= 970 ->
  let r := binary_round_aux prec emax sx (Z.pos M) E loc_Exact in
  valid_binary r = true /\ SF_finite r = true /\ SF_sign r = sx /\
  SF2Z r = cond_Zopp sx (Zround_half_even (Z.pos M) (2 ^ (f - E))) * 2 ^ (f + 1074).
Proof.
  intros f HEf Hf r. subst r.
  pose proof (dig_bounds M) as [DL DU]. pose proof (dig_pos M) as Dp.
  assert (Pd : 0 < 2 ^ (f - E)) by (apply pow2_pos; lia).
  pose proof (Zround_half_even_spec (Z.pos M) (2 ^ (f - E)) Pd) as [Hr _].
  set (R := Zround_half_even (Z.pos M) (2 ^ (f - E))) in *.
  assert (HR : 0 <= R <= 2 ^ 53 /\ (-1074 < f -> 2 ^ 52 <= R)).
  { assert (Hup : Z.pos M < 2 ^ 53 * 2 ^ (f - E)).
    { rewrite <- Z.pow_add_r by lia. eapply Z.lt_le_trans; [exact DU|].
      apply Z.pow_le_mono_r; lia. }
    split; [nia|]. intros Hn.
    assert (Hlo : 2 ^ 52 * 2 ^ (f - E) <= Z.pos M).
    { rewrite <- Z.pow_add_r by lia. eapply Z.le_trans; [|exact DL].
      apply Z.pow_le_mono_r; lia. }
    nia. }
  assert (Hst : shr_fexp prec emax (Z.pos M) E loc_Exact
                = (fst (shr_fexp prec emax (Z.pos M) E loc_Exact), f) /\
                round_nearest_even
                  (shr_m (fst (shr_fexp prec emax (Z.pos M) E loc_Exact)))
                  (loc_of_shr_record (fst (shr_fexp prec emax (Z.pos M) E loc_Exact))) = R).
  { unfold shr_fexp. cbn [Zdigits2 shr_record_of_loc]. fold (dig M). rewrite fexp_eq.
    fold f. unfold shr. destruct (f - E) as [|d|d] eqn:Hs; [| |lia].
    - cbn [fst shr_m loc_of_shr_record round_nearest_even].
      split; [f_equal; lia|]. subst R. unfold Zround_half_even.
      change (2 ^ 0) with 1. rewrite Z.div_1_r, Z.mod_1_r. reflexivity.
    - cbn [fst]. split; [f_equal; lia|].
      rewrite iter_pos_nat.
      pose proof (shr_iter_round (Pos.to_nat d) (Z.pos M) ltac:(lia)) as Hrd.
      cbv zeta in Hrd. rewrite positive_nat_Z in Hrd. exact Hrd. }
  destruct Hst as [H1 H2].
  unfold binary_round_aux. rewrite H1, H2.
  apply round_stage2_val; lia.
Qed.

(** [binary_round] is correctly rounded as well; when the mantissa fits it
    is only realigned. *)
Lemma binary_round_nearest sx M E :
  let f := Z.max (dig M + E - 53) (-1074) in
  let d := Z.max 0 (f - E) in
  f <= 970 ->
  let r := binary_round prec emax sx M E in
  valid_binary r = true /\ SF_finite r = true /\ SF_sign r = sx /\
  SF2Z r = cond_Zopp sx (Zround_half_even (Z.pos M) (2 ^ d)) * 2 ^ (E + d + 1074).
Proof.
  intros f d Hf r. subst r.
  destruct (Z_le_gt_dec E f) as [Hle|Hgt].
  - assert (Hd : d = f - E) by lia. rewrite Hd. replace (E + (f - E)) with f by lia.
    assert (Hbr : binary_round prec emax sx M E
                  = binary_round_aux prec emax sx (Z.pos M) E loc_Exact).
    { unfold binary_round, shl_align. fold (dig M). rewrite fexp_eq. fold f.
      destruct (f - E) as [|p|p] eqn:Hs; [reflexivity|reflexivity|lia]. }
    rewrite Hbr. apply binary_round_aux_nearest; fold f; lia.
  - assert (Hd : d = 0) by lia. rewrite Hd, Z.add_0_r.
    assert (Hbr : exists p, f - E = Z.neg p /\
                  binary_round prec emax sx M E
                  = binary_round_aux prec emax sx (Z.pos (Pos.iter xO M p)) f loc_Exact).
    { unfold binary_round, shl_align. fold (dig M). rewrite fexp_eq. fold f.
      destruct (f - E) as [|p|p] eqn:Hs; [lia|lia|]. exists p. split; reflexivity. }
    destruct Hbr as (p & Hp & ->).
    pose proof (binary_round_aux_nearest sx (Pos.iter xO M p) f) as H.
    rewrite dig_iter_xO in H.
    replace (Z.max (dig M + Z.pos p + f - 53) (-1074)) with f in H by lia.
    cbv zeta in H. rewrite Z.sub_diag in H.
    destruct H as (V & F & S & Val); [lia..|].
    repeat (split; [assumption|]). rewrite Val.
    change (2 ^ 0) with 1. rewrite !Zround_half_even_1, iter_xO.
    assert (HE : E = f + Z.pos p) by (pose proof (Pos2Z.opp_pos p); lia).
    replace (E + 1074) with (Z.pos p + (f + 1074)) by lia.
    rewrite (Z.pow_add_r 2 (Z.pos p)) by lia.
    destruct sx; cbn [cond_Zopp]; lia.
Qed.

(** The sum of two finite numbers whose exact value [v] is positive and of
    magnitude [b] is the nearest binary64 to [v]: a multiple [R * 2^g] of the
    unit in the last place, at most half a unit away, even on a tie. *)
Lemma SFadd_nearest sx mx ex sy my ey b :
  bounded prec emax mx ex = true -> bounded prec emax my ey = true ->
  let v := SF2Z (S754_finite sx mx ex) + SF2Z (S754_finite sy my ey) in
  2 ^ (b - 1 + 1074) <= v < 2 ^ (b + 1074) -> -1074 < b <= 1023 ->
  let r := SF64add (S754_finite sx mx ex) (S754_finite sy my ey) in
  let g := Z.max (Z.min ex ey) (Z.max (b - 53) (-1074)) + 1074 in
  valid_binary r = true /\ SF_nonneg r = true /\
  exists R, SF2Z r = R * 2 ^ g /\
            - 2 ^ g <= 2 * (v - R * 2 ^ g) <= 2 ^ g /\
            (2 * (v - R * 2 ^ g) = 2 ^ g \/ 2 * (v - R * 2 ^ g) = - 2 ^ g ->
             Z.even R = true).
Proof.
  intros Vx Vy v Hv Hb r g. subst r.
  pose proof (bounded_emin _ _ Vx) as Ex. pose proof (bounded_emin _ _ Vy) as Ey.
  unfold SF64add, SFadd.
  set (ez := Z.min ex ey) in *.
  pose proof (shl_align_val mx ex ez ltac:(lia)) as Hx.
  pose proof (shl_align_val my ey ez ltac:(lia)) as Hy.
  set (n := cond_Zopp sx (Z.pos (fst (shl_align mx ex ez)))
            + cond_Zopp sy (Z.pos (fst (shl_align my ey ez)))).
  assert (Pz : 0 < 2 ^ (ez + 1074)) by (apply pow2_pos; lia).
  assert (Pb : 0 < 2 ^ (b - 1 + 1074)) by (apply pow2_pos; lia).
  assert (Hn : n * 2 ^ (ez + 1074) = v).
  { subst n v. cbn [SF2Z]. rewrite Z.mul_add_distr_r.
    destruct sx, sy; cbn [cond_Zopp]; lia. }
  destruct n as [|M|M]; [lia| |lia].
  cbn [binary_normalize].
  assert (Hmag : dig M + ez = b).
  { assert (dig M + ez <= b) by (apply (magnitude_bound _ _ 1074); lia).
    pose proof (magnitude_lt 1 (b - 1) M ez 1074 ltac:(lia) ltac:(lia)) as Hl.
    change (dig 1) with 1 in Hl. lia. }
  pose proof (binary_round_nearest false M ez) as H. cbv zeta in H.
  rewrite Hmag in H. destruct H as (V & F & S & Val); [lia|].
  set (d := Z.max 0 (Z.max (b - 53) (-1074) - ez)) in *.
  assert (Hg : g = d + (ez + 1074)) by lia.
  split; [exact V|]. split; [apply SF_nonneg_sign; auto|].
  assert (Pd : 0 < 2 ^ d) by (apply pow2_pos; lia).
  exists (Zround_half_even (Z.pos M) (2 ^ d)).
  pose proof (Zround_half_even_spec (Z.pos M) (2 ^ d) Pd) as [Hr Hev].
  set (R := Zround_half_even (Z.pos M) (2 ^ d)) in *.
  rewrite Hg, (Z.pow_add_r 2 d) by lia.
  split.
  { rewrite Val. cbn [cond_Zopp].
    replace (ez + d + 1074) with (d + (ez + 1074)) by lia.
    rewrite Z.pow_add_r by lia. reflexivity. }
  rewrite <- Hn. split; [nia|].
  intros Htie. apply Hev. nia.
Qed.

(** Among the multiples of [U], one at most half of [U] away from [v] is
    as near to [v] as any. *)
Lemma nearest_multiple U R k v :
  0 < U -> - U <= 2 * (v - R * U) <= U -> Z.abs (R * U - v) <= Z.abs (k * U - v).
Proof.
  intros HU Hn.
  destruct (Z_lt_le_dec k R) as [Hk|Hk]; [assert (k * U <= R * U - U) by nia; lia|].
  destruct (Z.eq_dec k R) as [->|Hne]; [lia|].
  assert (R * U + U <= k * U) by nia. lia.
Qed.

(** A binary64 at or above [2^(b-1)] is a multiple of the unit in the last
    place of that binade. *)
Lemma float_on_grid m e b :
  bounded prec emax m e = true -> -1074 < b ->
  2 ^ (b - 1 + 1074) <= Z.pos m * 2 ^ (e + 1074) ->
  let f := Z.max (b - 53) (-1074) in
  exists k, Z.pos m * 2 ^ (e + 1074) = k * 2 ^ (f + 1074).
Proof.
  intros Hb Hbm Hle f.
  pose proof (bounded_emin _ _ Hb) as He.
  apply bounded_spec in Hb as [Hc _].
  pose proof (magnitude_lt 1 (b - 1) m e 1074 ltac:(lia) ltac:(lia)) as Hl.
  change (dig 1) with 1 in Hl. rewrite Z.mul_1_l in Hl. specialize (Hl Hle).
  assert (Hfe : f <= e) by lia.
  exists (Z.pos m * 2 ^ (e - f)).
  rewrite <- Z.mul_assoc, <- Z.pow_add_r by lia. f_equal. f_equal. lia.
Qed.

(** The sum of two finite numbers with a positive exact value [v] is a
    binary64 nearest to [v]: no finite binary64 is closer. *)
Lemma SFadd_nearest_all sx mx ex sy my ey b :
  bounded prec emax mx ex = true -> bounded prec emax my ey = true ->
  let v := SF2Z (S754_finite sx mx ex) + SF2Z (S754_finite sy my ey) in
  2 ^ (b - 1 + 1074) <= v < 2 ^ (b + 1074) -> -1074 < b <= 1023 ->
  let r := SF64add (S754_finite sx mx ex) (S754_finite sy my ey) in
  forall y, valid_binary y = true ->
    Z.abs (SF2Z r - v) <= Z.abs (SF2Z y - v).
Proof.
  intros Vx Vy v Hv Hb r y Vy'.
  destruct (SFadd_nearest sx mx ex sy my ey b Vx Vy Hv Hb) as (_ & _ & R & Val & Hn & _).
  fold r in Val. rewrite Val.
  pose proof (bounded_emin _ _ Vx) as Ex. pose proof (bounded_emin _ _ Vy) as Ey.
  set (ez := Z.min ex ey) in *. set (f := Z.max (b - 53) (-1074)) in *.
  set (g := Z.max ez f + 1074) in *.
  assert (Pg : 0 < 2 ^ g) by (apply pow2_pos; lia).
  assert (Pb : 0 < 2 ^ (b - 1 + 1074)) by (apply pow2_pos; lia).
  (* the exact sum is on the grid of the finer operand *)
  assert (Hgrid : exists n, v = n * 2 ^ (ez + 1074)).
  { exists (cond_Zopp sx (Z.pos mx) * 2 ^ (ex - ez) + cond_Zopp sy (Z.pos my) * 2 ^ (ey - ez)).
    subst v. cbn [SF2Z]. rewrite Z.mul_add_distr_r, <- !Z.mul_assoc, <- !Z.pow_add_r by lia.
    f_equal; f_equal; f_equal; lia. }
  destruct (Z_le_gt_dec f ez) as [Hfe|Hfe].
  - (* no rounding: the sum is exact *)
    destruct Hgrid as [n Hn']. replace g with (ez + 1074) in * by lia.
    assert (R = n) by nia. subst R. rewrite <- Hn'. lia.
  - replace g with (f + 1074) in * by lia.
    set (U := 2 ^ (f + 1074)) in *.
    assert (Hk : forall k, Z.abs (R * U - v) <= Z.abs (k * U - v))
      by (intros k; now apply nearest_multiple).
    assert (H0 : Z.abs (R * U - v) <= v) by (specialize (Hk 0); lia).
    destruct y as [s|s| |s m e]; cbn [SF2Z]; try lia.
    cbn in Vy'. pose proof (bounded_emin _ _ Vy') as Ee.
    assert (Pm : 0 < Z.pos m * 2 ^ (e + 1074)) by (apply Z.mul_pos_pos; [lia|apply pow2_pos; lia]).
    destruct s; cbn [cond_Zopp]; [lia|].
    destruct (Z_le_gt_dec (2 ^ (b - 1 + 1074)) (Z.pos m * 2 ^ (e + 1074))) as [Hbig|Hsmall].
    + destruct (float_on_grid m e b Vy' ltac:(lia) Hbig) as (k & ->). apply Hk.
    + assert (HP : 2 ^ (b - 1 + 1074) = 2 ^ (b - 1 - f) * U).
      { unfold U. rewrite <- Z.pow_add_r by lia. f_equal. lia. }
      specialize (Hk (2 ^ (b - 1 - f))). rewrite <- HP in Hk. lia.
Qed.

(** * The claims *)

(** ** Arcminute rounding *)

Lemma float_val_range p :
  (0 <=? p)%float = true -> (p <? 30)%float = true ->
  SF_finite (Prim2SF p) = true /\ 0 <= float_val p < 30 * ONE.
Proof.
  intros H0 H30.
  assert (Fp : SF_finite (Prim2SF p) = true) by (now apply (between_finite 0 p 30)).
  split; [exact Fp|].
  rewrite leb_val in H0 by (assumption || reflexivity).
  rewrite ltb_val in H30 by (assumption || reflexivity).
  apply Z.leb_le in H0. apply Z.ltb_lt in H30.
  change (float_val 0) with 0 in H0.
  replace (float_val 30) with (30 * ONE) in H30 by (vm_compute; reflexivity). lia.
Qed.

(** The raw degree and minute of [round_to_arcminute], before the rollover:
    for [0 <= p < 30] the degree is in [0, 29] and the minute in [0, 60]. *)
Lemma arcminute_raw p :
  (0 <=? p)%float = true -> (p <? 30)%float = true ->
  exists d0 fd m0,
    py_int p = Ok d0 /\ py_float d0 = Ok fd /\
    py_round ((p - fd) * 60)%float = Ok m0 /\
    d0 = float_val p / ONE /\ 0 <= d0 <= 29 /\ 0 <= m0 <= 60.
Proof.
  intros H0 H30. destruct (float_val_range p H0 H30) as [Fp [Hlo Hhi]].
  pose proof ONE_pos as HONE.
  set (d0 := float_val p / ONE).
  assert (Hd0 : 0 <= d0 <= 29).
  { split; [apply Z.div_pos; lia|].
    assert (d0 < 30) by (apply Z.div_lt_upper_bound; lia). lia. }
  destruct (py_float_small d0 ltac:(lia)) as (fd & Hfd & Ffd & Vfd).
  pose proof (Z.mul_div_le (float_val p) ONE HONE) as Hfloor.
  pose proof (Z.mod_pos_bound (float_val p) ONE HONE) as Hmod.
  pose proof (Z.div_mod (float_val p) ONE ltac:(lia)) as Hdm. fold d0 in Hfloor, Hdm.
  (* the difference [p - fd] lies in [0, 1] *)
  destruct (SFsub_upper (Prim2SF p) (Prim2SF fd) 1 0) as [Fx Vx];
    try (apply Prim2SF_valid); try assumption; try lia.
  { fold (float_val p) (float_val fd). lia. }
  { fold (float_val p) (float_val fd). change (1 * 2 ^ (0 + 1074)) with (1 * ONE). lia. }
  rewrite <- sub_spec in Fx, Vx. fold (float_val (p - fd)) in Vx.
  change (1 * 2 ^ (0 + 1074)) with (1 * ONE) in Vx.
  (* the product by 60 lies in [0, 60] *)
  destruct (SFmul_upper (Prim2SF (p - fd)) (Prim2SF 60) 15 2) as [Fy Vy];
    try (apply Prim2SF_valid); try assumption; try reflexivity; try lia.
  { apply Vx. }
  { vm_compute. discriminate. }
  { intros sx mx ex sy my ey Ex Ey.
    assert (ey = -47) by (vm_compute in Ey; congruence). subst ey.
    unfold float_val in Vx. rewrite Ex in Vx. cbn [SF2Z] in Vx.
    pose proof (Prim2SF_valid (p - fd)) as Vb. rewrite Ex in Vb. cbn in Vb.
    apply bounded_emin in Vb.
    destruct sx; cbn [cond_Zopp] in Vx.
    - assert (0 < 2 ^ (ex + 1074)) by (apply pow2_pos; lia). nia.
    - destruct (Z_le_gt_dec ex 0) as [|Hgt]; [lia|].
      assert (2 ^ 1074 < 2 ^ (ex + 1074)) by (apply Z.pow_lt_mono_r; lia).
      unfold ONE in Vx. nia. }
  { fold (float_val (p - fd)).
    replace (SF2Z (Prim2SF 60)) with (60 * ONE) by (vm_compute; reflexivity).
    replace (15 * 2 ^ (2 + 1074)) with (60 * ONE) by (vm_compute; reflexivity). nia. }
  rewrite <- mul_spec in Fy, Vy. fold (float_val ((p - fd) * 60)) in Vy.
  replace (15 * 2 ^ (2 + 1074)) with (60 * ONE) in Vy by (vm_compute; reflexivity).
  exists d0, fd, (Zround_half_even (float_val ((p - fd) * 60)) ONE).
  rewrite py_int_finite, py_round_finite by assumption.
  rewrite Z.quot_div_nonneg by lia.
  pose proof (Zround_half_even_bounds (float_val ((p - fd) * 60)) ONE 60 HONE Vy).
  repeat split; try assumption; lia.
Qed.

(** The rollover on the raw degree and minute. *)
Lemma round_to_arcminute_ok p :
  (0 <=? p)%float = true -> (p <? 30)%float = true ->
  exists d0 fd m0,
    py_int p = Ok d0 /\ py_float d0 = Ok fd /\
    py_round ((p - fd) * 60)%float = Ok m0 /\
    round_to_arcminute p
    = Ok (if decide (m0 = 60)
          then (if decide (d0 + 1 = 30) then (29, 59) else (d0 + 1, 0))
          else (d0, m0)) /\
    exists d m, round_to_arcminute p = Ok (d, m) /\
                0 <= d <= 29 /\ 0 <= m <= 59 /\ m <> 60.
Proof.
  intros H0 H30.
  destruct (arcminute_raw p H0 H30) as (d0 & fd & m0 & Hd & Hf & Hm & _ & Hd0 & Hm0).
  exists d0, fd, m0. repeat (split; [assumption|]).
  unfold round_to_arcminute. rewrite Hd. cbn [mbind res_bind].
  rewrite Hf. cbn [mbind res_bind]. rewrite Hm. cbn [mbind res_bind mret res_ret].
  repeat case_decide; (split; [reflexivity|]); eexists _, _;
    (split; [reflexivity|]); lia.
Qed.

(** C1. For [0 <= p < 30], [round_to_arcminute p] returns a degree in
    [0, 29] and a minute in [0, 59], never minute 60: a minute that rounds
    to 60 carries into the degree, and a degree that thereby reaches 30 is
    clamped to [(29, 59)]; so [29.9999] gives [(29, 59)], not [(30, 0)]. *)
Theorem round_to_arcminute_range :
  (forall p : float,
      (0 <=? p)%float = true -> (p <? 30)%float = true ->
      exists d0 fd m0,
        py_int p = Ok d0 /\ py_float d0 = Ok fd /\
        py_round ((p - fd) * 60)%float = Ok m0 /\
        round_to_arcminute p
        = Ok (if decide (m0 = 60)
              then (if decide (d0 + 1 = 30) then (29, 59) else (d0 + 1, 0))
              else (d0, m0)) /\
        exists d m, round_to_arcminute p = Ok (d, m) /\
                    0 <= d <= 29 /\ 0 <= m <= 59 /\ m <> 60) /\
  round_to_arcminute 0x1.dfff972474539p+4 = Ok (29, 59).
Proof.
  split; [exact round_to_arcminute_ok|vm_compute; reflexivity].
Qed.

Lemma round_to_arcminute_range_witness :
  exists d m, round_to_arcminute 0x1.dfff972474539p+4 = Ok (d, m) /\
              0 <= d <= 29 /\ 0 <= m <= 59 /\ m <> 60.
Proof.
  destruct (proj1 round_to_arcminute_range 0x1.dfff972474539p+4%float eq_refl eq_refl)
    as (d0 & fd & m0 & _ & _ & _ & _ & H).
  exact H.
Defined.

(** ** Sign and position in sign *)

Lemma float_val_range_360 L :
  (0 <=? L)%float = true -> (L <? 360)%float = true ->
  SF_finite (Prim2SF L) = true /\ 0 <= float_val L < 360 * ONE.
Proof.
  intros H0 H360.
  assert (FL : SF_finite (Prim2SF L) = true) by (now apply (between_finite 0 L 360)).
  split; [exact FL|].
  rewrite leb_val in H0 by (assumption || reflexivity).
  rewrite ltb_val in H360 by (assumption || reflexivity).
  apply Z.leb_le in H0. apply Z.ltb_lt in H360.
  change (float_val 0) with 0 in H0.
  replace (float_val 360) with (360 * ONE) in H360 by (vm_compute; reflexivity). lia.
Qed.

Lemma SIGNS_getitem k :
  0 <= k <= 11 ->
  exists sign, list_getitem SIGNS k = Ok sign /\ SIGNS !! Z.to_nat k = Some sign.
Proof.
  intros Hk. unfold list_getitem. change (Z.of_nat (length SIGNS)) with 12.
  rewrite (decide_False (P := k < 0)) by lia. rewrite decide_True by lia.
  destruct (lookup_lt_is_Some_2 SIGNS (Z.to_nat k)) as [sign Hs]; [cbn; lia|].
  rewrite Hs. eauto.
Qed.

(** The sign index and the position are the exact quotient and remainder
    of the normalized longitude by 30 degrees. *)
Lemma zodiac_of_normalized (lon : float) (k : Z) :
  SF_nonneg (Prim2SF lon) = true -> float_val lon < 360 * ONE ->
  k = float_val lon / (30 * ONE) ->
  exists q sign fk,
    float_floor_div lon 30 = Ok q /\ py_int q = Ok k /\
    list_getitem SIGNS k = Ok sign /\ SIGNS !! Z.to_nat k = Some sign /\
    py_float k = Ok fk /\
    SF_nonneg (Prim2SF (lon - fk * 30)) = true /\
    float_val (lon - fk * 30) = float_val lon mod (30 * ONE).
Proof.
  intros Nl Hlt ->. pose proof ONE_pos as HONE.
  destruct (float_floor_div_30 lon Nl Hlt) as (q & Hq & Hi & Hk).
  set (k := float_val lon / (30 * ONE)) in *.
  destruct (SIGNS_getitem k Hk) as (sign & Hg & Hs).
  destruct (sign_start_facts k Hk) as (Nk & Vk & (fk & Hfk & Hmul) & _).
  assert (E30 : Prim2SF 30 = S754_finite false 8444249301319680 (-48)) by reflexivity.
  assert (V30 : float_val 30 = 30 * ONE) by (vm_compute; reflexivity).
  destruct (fmod_nonneg lon 30 _ _ Nl E30) as [Nm Vm]. rewrite V30 in Vm.
  pose proof (Z.div_mod (float_val lon) (30 * ONE) ltac:(lia)) as Hdm. fold k in Hdm.
  assert (Hpos : Prim2SF (lon - fk * 30) = Prim2SF (fmod lon 30)).
  { rewrite Hmul, sub_spec.
    apply SFsub_exact; try apply Prim2SF_valid; try assumption.
    fold (float_val lon) (float_val (fmod lon 30)) (float_val (sign_start k)). lia. }
  exists q, sign, fk. unfold float_val at 1. rewrite Hpos.
  fold (float_val (fmod lon 30)). auto 10.
Qed.

(** [zodiac_sign_and_pos] on any finite [0 <= L]: it does not fail, and the
    sign index and the position are the exact quotient and remainder by 30
    of [L] reduced modulo 360. *)
Lemma zodiac_sign_and_pos_nonneg (L : float) :
  SF_finite (Prim2SF L) = true -> 0 <= float_val L ->
  exists sign pos,
    zodiac_sign_and_pos L = Ok (sign, pos) /\
    SIGNS !! Z.to_nat (float_val L mod (360 * ONE) / (30 * ONE)) = Some sign /\
    SF_nonneg (Prim2SF pos) = true /\
    float_val pos = float_val L mod (360 * ONE) mod (30 * ONE).
Proof.
  intros FL Hlo. pose proof ONE_pos as HONE.
  assert (E360 : Prim2SF 360 = S754_finite false 6333186975989760 (-44)) by reflexivity.
  assert (V360 : float_val 360 = 360 * ONE) by (vm_compute; reflexivity).
  destruct (float_rem_nonneg L 360 _ _ FL Hlo E360) as (lon & Hn & Nl & Vl).
  rewrite V360 in Vl.
  pose proof (Z.mod_pos_bound (float_val L) (360 * ONE) ltac:(lia)) as Hb.
  destruct (zodiac_of_normalized lon _ Nl ltac:(lia) eq_refl)
    as (q & sign & fk & Hq & Hi & Hg & Hs & Hfk & Np & Vp).
  rewrite Vl in *.
  exists sign, (lon - fk * 30)%float.
  unfold zodiac_sign_and_pos, normalize_deg.
  rewrite Hn. cbn [mbind res_bind]. rewrite Hq. cbn [mbind res_bind].
  rewrite Hi. cbn [mbind res_bind]. rewrite Hg. cbn [mbind res_bind].
  rewrite Hfk. cbn [mbind res_bind mret res_ret]. auto.
Qed.

(** C5. For [0 <= L < 360], [zodiac_sign_and_pos L] returns the sign
    [SIGNS[floor(L / 30)]] and the position [L - 30 * floor(L / 30)], which
    lies in [[0, 30)].  Values are exact, in units of [2^-1074]. *)
Theorem zodiac_sign_and_pos_in_range (L : float) :
  (0 <=? L)%float = true -> (L <? 360)%float = true ->
  exists sign pos,
    zodiac_sign_and_pos L = Ok (sign, pos) /\
    SIGNS !! Z.to_nat (float_val L / (30 * ONE)) = Some sign /\
    SF_finite (Prim2SF pos) = true /\
    float_val pos = float_val L - 30 * ONE * (float_val L / (30 * ONE)) /\
    0 <= float_val pos < 30 * ONE.
Proof.
  intros H0 H360. pose proof ONE_pos as HONE.
  destruct (float_val_range_360 L H0 H360) as [FL [Hlo Hhi]].
  destruct (zodiac_sign_and_pos_nonneg L FL Hlo) as (sign & pos & Hz & Hs & Np & Vp).
  rewrite (Z.mod_small (float_val L) (360 * ONE)) in Hs, Vp by lia.
  exists sign, pos. split; [exact Hz|]. split; [exact Hs|].
  split; [now apply SF_nonneg_finite|].
  rewrite Vp. pose proof (Z.mod_pos_bound (float_val L) (30 * ONE) ltac:(lia)).
  pose proof (Z.div_mod (float_val L) (30 * ONE) ltac:(lia)). lia.
Qed.

Lemma zodiac_sign_and_pos_in_range_witness :
  exists sign pos,
    zodiac_sign_and_pos 45.5 = Ok (sign, pos) /\
    SIGNS !! Z.to_nat (float_val 45.5 / (30 * ONE)) = Some sign /\
    SF_finite (Prim2SF pos) = true /\
    float_val pos = float_val 45.5 - 30 * ONE * (float_val 45.5 / (30 * ONE)) /\
    0 <= float_val pos < 30 * ONE.
Proof. apply (zodiac_sign_and_pos_in_range 45.5); reflexivity. Defined.

(** ** Normalization and the full circle *)

Lemma fmod_finite x y sx mx ex my ey :
  Prim2SF x = S754_finite sx mx ex -> Prim2SF y = S754_finite false my ey ->
  SF_finite (Prim2SF (fmod x y)) = true /\
  SF_sign (Prim2SF (fmod x y)) = sx /\
  float_val (fmod x y) = Z.rem (float_val x) (float_val y).
Proof.
  intros Ex Ey.
  pose proof (Prim2SF_valid x) as Vx. rewrite Ex in Vx. cbn in Vx.
  pose proof (Prim2SF_valid y) as Vy. rewrite Ey in Vy. cbn in Vy.
  destruct (SFfmod_finite sx mx ex my ey Vx Vy) as (Vr & Fr & Sr & Hr).
  unfold fmod, float_val. rewrite Ex, Ey, Prim2SF_SF2Prim_valid by exact Vr. auto.
Qed.

Lemma float_finite_inj x y :
  SF_finite (Prim2SF x) = true -> SF_finite (Prim2SF y) = true ->
  SF_sign (Prim2SF x) = SF_sign (Prim2SF y) -> float_val x = float_val y -> x = y.
Proof.
  intros Fx Fy Hs Hv. apply Prim2SF_inj.
  apply SF_finite_inj; auto using Prim2SF_valid.
Qed.

Lemma negative_float x :
  SF_finite (Prim2SF x) = true -> float_val x < 0 ->
  exists m e, Prim2SF x = S754_finite true m e.
Proof.
  intros Fx Hx. unfold float_val in Hx.
  pose proof (Prim2SF_valid x) as Vx.
  destruct (Prim2SF x) as [s| | |[] m e]; try discriminate; cbn in Hx; try lia; eauto.
Qed.


(** [normalize_deg] on a finite [0 <= L]: the exact remainder, in
    [[0, 360)]. *)
Lemma normalize_deg_nonneg L :
  SF_finite (Prim2SF L) = true -> 0 <= float_val L ->
  exists r, normalize_deg L = Ok r /\ SF_nonneg (Prim2SF r) = true /\
            float_val r = float_val L mod (360 * ONE) /\
            0 <= float_val r < 360 * ONE.
Proof.
  intros FL HL. pose proof ONE_pos.
  assert (E360 : Prim2SF 360 = S754_finite false 6333186975989760 (-44)) by reflexivity.
  assert (V360 : float_val 360 = 360 * ONE) by (vm_compute; reflexivity).
  destruct (float_rem_nonneg L 360 _ _ FL HL E360) as (r & Hr & Nr & Vr).
  rewrite V360 in Vr. exists r. repeat split; try assumption;
    rewrite Vr; apply Z.mod_pos_bound; lia.
Qed.



(** C10, at the failing input: a tiny negative longitude is normalized to
    [360.0] itself, the sign index is then 12, and the lookup in [SIGNS]
    raises [IndexError]. *)
Theorem normalize_deg_tiny_negative :
  normalize_deg (-0x1.79ca10c924223p-67) = Ok 360%float /\
  (360 <? 360)%float = false /\
  zodiac_sign_and_pos (-0x1.79ca10c924223p-67)
  = Raise (PyExc "IndexError" "list index out of range").
Proof. vm_compute. auto. Qed.

Lemma magnitude_exists v :
  0 < v -> exists b, -1074 < b /\ 2 ^ (b - 1 + 1074) <= v < 2 ^ (b + 1074).
Proof.
  intros Hv. exists (Z.log2 v + 1 - 1074).
  pose proof (Z.log2_nonneg v). pose proof (Z.log2_spec v Hv) as [L U].
  replace (Z.log2 v + 1 - 1074 - 1 + 1074) with (Z.log2 v) by lia.
  replace (Z.log2 v + 1 - 1074 + 1074) with (Z.succ (Z.log2 v)) by lia.
  split; [lia|]. split; assumption.
Qed.

Lemma rem_neg a b : a < 0 -> 0 < b -> Z.rem a b = - ((- a) mod b) /\ - b < Z.rem a b <= 0.
Proof.
  intros Ha Hb.
  assert (H : Z.rem a b = - ((- a) mod b)).
  { replace a with (- - a) at 1 by lia.
    rewrite Z.rem_opp_l by lia. now rewrite Z.rem_mod_nonneg by lia. }
  split; [exact H|]. rewrite H. pose proof (Z.mod_pos_bound (- a) b Hb). lia.
Qed.

Lemma nearest_below_even v R H M :
  0 < H -> Z.even M = true ->
  - (2 * H) <= 2 * (v - R * (2 * H)) <= 2 * H ->
  (2 * (v - R * (2 * H)) = 2 * H \/ 2 * (v - R * (2 * H)) = - (2 * H) -> Z.even R = true) ->
  v < M * (2 * H) ->
  R <= M /\ (R = M <-> M * (2 * H) - H <= v).
Proof.
  intros HH HM Hn Hev Hv.
  assert (HR : R <= M) by nia.
  split; [exact HR|]. split; [intros ->; nia|].
  intros Hb.
  assert (M - 1 <= R) by nia.
  destruct (Z.eq_dec R M) as [|Hne]; [assumption|].
  assert (R = M - 1) by lia. subst R.
  assert (Z.even (M - 1) = true) by (apply Hev; nia).
  rewrite Z.even_sub, HM in H1. discriminate.
Qed.

(** [normalize_deg] on a finite negative angle.  The C remainder [rem] has
    the sign of the angle, so it is moved up by [360.0] in floating point:
    the result is the binary64 nearest to [360 + rem], which is [360.0]
    itself exactly when [rem] is no further from 0 than [2^-45]. *)
Lemma normalize_deg_neg L :
  SF_finite (Prim2SF L) = true -> float_val L < 0 ->
  let rem := Z.rem (float_val L) (360 * ONE) in
  (rem = 0 -> normalize_deg L = Ok 0%float) /\
  (rem < 0 ->
   exists r, normalize_deg L = Ok r /\ SF_nonneg (Prim2SF r) = true /\
     0 <= float_val r <= 360 * ONE /\
     (float_val r = 360 * ONE <-> - 2 ^ 1029 <= rem) /\
     - 2 ^ 1030 <= 2 * (float_val r - (360 * ONE + rem)) <= 2 ^ 1030 /\
     (forall y : float, Z.abs (float_val r - (360 * ONE + rem))
                        <= Z.abs (float_val y - (360 * ONE + rem)))).
Proof.
  intros FL HL rem. pose proof ONE_pos as HONE.
  assert (E360 : Prim2SF 360 = S754_finite false 6333186975989760 (-44)) by reflexivity.
  assert (V360 : float_val 360 = 360 * ONE) by (vm_compute; reflexivity).
  destruct (negative_float L FL HL) as (mx & ex & Ex).
  destruct (fmod_finite L 360 _ _ _ _ _ Ex E360) as (Fm & Sm & Vm). rewrite V360 in Vm.
  fold rem in Vm.
  destruct (rem_neg (float_val L) (360 * ONE) HL ltac:(lia)) as [_ Hrem]. fold rem in Hrem.
  unfold normalize_deg, float_rem. change (360 =? 0)%float with false.
  change (360 <? 0)%float with false. cbv iota.
  rewrite eqb0_val, Vm by assumption.
  split.
  { intros Hz. rewrite Hz. reflexivity. }
  intros Hneg.
  replace (rem =? 0) with false by (symmetry; apply Z.eqb_neq; lia).
  rewrite (ltb_val _ 0) by (assumption || reflexivity). change (float_val 0) with 0.
  rewrite Vm. replace (rem <? 0) with true by (symmetry; apply Z.ltb_lt; lia).
  cbn [negb xorb]. exists (fmod L 360 + 360)%float. split; [reflexivity|].
  destruct (negative_float (fmod L 360) Fm ltac:(lia)) as (m & e & Em).
  pose proof (Prim2SF_valid (fmod L 360)) as Vb. rewrite Em in Vb. cbn in Vb.
  pose proof (Prim2SF_valid 360) as Vb'. rewrite E360 in Vb'. cbn in Vb'.
  assert (Hv : SF2Z (S754_finite true m e)
               + SF2Z (S754_finite false 6333186975989760 (-44)) = 360 * ONE + rem).
  { rewrite <- Em, <- E360. fold (float_val (fmod L 360)) (float_val 360). lia. }
  destruct (magnitude_exists (360 * ONE + rem) ltac:(lia)) as (b & Hb & Hmag).
  assert (Hb9 : b <= 9).
  { destruct (Z_le_gt_dec b 9) as [|Hgt]; [assumption|].
    assert (2 ^ (9 + 1074) <= 2 ^ (b - 1 + 1074)) by (apply Z.pow_le_mono_r; lia).
    assert (360 * ONE < 2 ^ (9 + 1074)) by (vm_compute; reflexivity). lia. }
  pose proof (SFadd_nearest true m e false 6333186975989760 (-44) b Vb Vb') as H.
  cbv zeta in H. rewrite Hv in H.
  destruct H as (Vr & Nr & R & Val & Hnear & Hev); [assumption|lia|].
  pose proof (SFadd_nearest_all true m e false 6333186975989760 (-44) b Vb Vb') as Hall.
  cbv zeta in Hall. rewrite Hv in Hall. specialize (Hall Hmag ltac:(lia)).
  assert (Hall' : forall y : float,
            Z.abs (SF2Z (SF64add (S754_finite true m e)
                                 (S754_finite false 6333186975989760 (-44)))
                   - (360 * ONE + rem))
            <= Z.abs (float_val y - (360 * ONE + rem)))
    by (intros y; apply Hall, Prim2SF_valid).
  clear Hall.
  pose proof (SF_nonneg_val _ Vr Nr) as Hr0.
  set (T := SF2Z (SF64add (S754_finite true m e)
                          (S754_finite false 6333186975989760 (-44)))) in *.
  assert (HT : float_val (fmod L 360 + 360) = T)
    by (unfold float_val, T; rewrite add_spec, Em, E360; reflexivity).
  assert (HN : SF_nonneg (Prim2SF (fmod L 360 + 360)) = true)
    by (rewrite add_spec, Em, E360; exact Nr).
  rewrite HT. split; [exact HN|]. clear HT HN.
  pose proof (bounded_emin _ _ Vb) as He.
  set (g := Z.max (Z.min e (-44)) (Z.max (b - 53) (-1074)) + 1074) in *.
  assert (Pg : 0 < 2 ^ g) by (apply pow2_pos; lia).
  assert (Hg : 2 ^ g <= 2 ^ 1030) by (apply Z.pow_le_mono_r; lia).
  destruct (Z.eq_dec b 9) as [->|Hb8].
  - (* 256 <= 360 + rem: the unit in the last place is 2^-44 *)
    assert (Eg : g = 1030) by lia. rewrite Eg in *.
    assert (H360 : 360 * ONE = 6333186975989760 * (2 * 2 ^ 1029)) by (vm_compute; reflexivity).
    change (2 ^ 1030) with (2 * 2 ^ 1029) in *.
    assert (P1029 : 0 < 2 ^ 1029) by (apply pow2_pos; lia).
    destruct (nearest_below_even (360 * ONE + rem) R (2 ^ 1029) 6333186975989760
                P1029 eq_refl Hnear Hev ltac:(lia)) as [HR Hiff].
    set (H := 2 ^ 1029) in *. set (C := 360 * ONE) in *. clearbody H C T.
    split; [nia|]. split; [|split; [lia|exact Hall']]. split.
    + intros HT. assert (HRM : R = 6333186975989760) by nia. apply Hiff in HRM. lia.
    + intros Hband. assert (R = 6333186975989760) as -> by (apply Hiff; lia). lia.
  - (* 360 + rem < 256 *)
    assert (Hlt : 360 * ONE + rem < 2 ^ (8 + 1074)).
    { eapply Z.lt_le_trans; [apply Hmag|]. apply Z.pow_le_mono_r; lia. }
    assert (H256 : 2 ^ (8 + 1074) + 2 ^ 1030 < 360 * ONE) by (vm_compute; reflexivity).
    assert (Hband : 360 * ONE - 2 ^ (8 + 1074) > 2 ^ 1029) by (vm_compute; reflexivity).
    split; [lia|]. split; [|split; [lia|exact Hall']]. split; intros; lia.
Qed.

(** [normalize_deg] on any finite angle: it never fails, the result is
    finite, not negative and at most [360.0]; it is [360.0] itself exactly
    for the negative angles whose remainder is within [2^-45] of 0. *)
Lemma normalize_deg_finite L :
  SF_finite (Prim2SF L) = true ->
  exists r, normalize_deg L = Ok r /\ SF_nonneg (Prim2SF r) = true /\
    0 <= float_val r <= 360 * ONE /\
    (float_val r = 360 * ONE <-> - 2 ^ 1029 <= Z.rem (float_val L) (360 * ONE) < 0).
Proof.
  intros FL. pose proof ONE_pos as HONE.
  destruct (Z_lt_ge_dec (float_val L) 0) as [Hneg|Hpos].
  - destruct (normalize_deg_neg L FL Hneg) as [Hz Hn].
    destruct (rem_neg (float_val L) (360 * ONE) Hneg ltac:(lia)) as [_ Hrem].
    destruct (Z.eq_dec (Z.rem (float_val L) (360 * ONE)) 0) as [E|N].
    + exists 0%float. split; [now apply Hz|]. split; [reflexivity|].
      change (float_val 0) with 0. lia.
    + destruct Hn as (r & Hr & Nr & Hb & Hiff & _); [lia|].
      exists r. repeat (split; [assumption|]). rewrite Hiff. lia.
  - destruct (normalize_deg_nonneg L FL ltac:(lia)) as (r & Hr & Nr & Vr & Hb).
    exists r. repeat (split; [assumption|]). split; [lia|].
    rewrite Z.rem_mod_nonneg by lia.
    pose proof (Z.mod_pos_bound (float_val L) (360 * ONE) ltac:(lia)). lia.
Qed.

Lemma nonfinite_float L :
  SF_finite (Prim2SF L) = false -> L = nan \/ L = infinity \/ L = neg_infinity.
Proof.
  intros H. rewrite <- (SF2Prim_Prim2SF L).
  destruct (Prim2SF L) as [s| [] | |s m e]; try discriminate; auto.
Qed.

(** What [zodiac_sign_and_pos] does after its first line. *)
Lemma zodiac_from_lon L lon :
  normalize_deg L = Ok lon ->
  zodiac_sign_and_pos L
  = (q ← float_floor_div lon 30;
     sign_index ← py_int q;
     sign ← list_getitem SIGNS sign_index;
     k ← py_float sign_index;
     mret (sign, (lon - k * 30)%float)).
Proof. intros H. unfold zodiac_sign_and_pos. now rewrite H. Qed.

(** [zodiac_sign_and_pos] on every binary64 input.  It fails on NaN and the
    infinities, and on the finite angles that [normalize_deg] rounds up to
    [360.0]; on every other angle it returns the sign and the offset of the
    normalized longitude, both exact. *)
Lemma zodiac_sign_and_pos_cases L :
  (SF_finite (Prim2SF L) = false ->
   zodiac_sign_and_pos L = Raise (PyExc "ValueError" "cannot convert float NaN to integer")) /\
  (SF_finite (Prim2SF L) = true ->
   - 2 ^ 1029 <= Z.rem (float_val L) (360 * ONE) < 0 ->
   normalize_deg L = Ok 360%float /\
   zodiac_sign_and_pos L = Raise (PyExc "IndexError" "list index out of range")) /\
  (SF_finite (Prim2SF L) = true ->
   ~ (- 2 ^ 1029 <= Z.rem (float_val L) (360 * ONE) < 0) ->
   exists lon sign pos,
     normalize_deg L = Ok lon /\ zodiac_sign_and_pos L = Ok (sign, pos) /\
     SF_nonneg (Prim2SF lon) = true /\ float_val lon < 360 * ONE /\
     SIGNS !! Z.to_nat (float_val lon / (30 * ONE)) = Some sign /\
     SF_nonneg (Prim2SF pos) = true /\
     float_val pos = float_val lon mod (30 * ONE)).
Proof.
  pose proof ONE_pos as HONE. split; [|split].
  - intros H. destruct (nonfinite_float L H) as [->|[->| ->]]; vm_compute; reflexivity.
  - intros FL Hband.
    destruct (normalize_deg_finite L FL) as (r & Hr & Nr & Hb & Hiff).
    assert (r = 360%float) as ->.
    { apply float_finite_inj; [now apply SF_nonneg_finite|reflexivity| |].
      - apply SF_nonneg_sign in Nr as [_ ->]. reflexivity.
      - replace (float_val 360) with (360 * ONE) by (vm_compute; reflexivity).
        now apply Hiff. }
    split; [exact Hr|]. rewrite (zodiac_from_lon _ _ Hr). vm_compute. reflexivity.
  - intros FL Hband.
    destruct (normalize_deg_finite L FL) as (lon & Hr & Nr & Hb & Hiff).
    assert (Hlt : float_val lon < 360 * ONE).
    { destruct (Z.eq_dec (float_val lon) (360 * ONE)) as [E|N]; [|lia].
      apply Hiff in E. contradiction. }
    destruct (zodiac_of_normalized lon _ Nr Hlt eq_refl)
      as (q & sign & fk & Hq & Hi & Hg & Hs & Hfk & Np & Vp).
    exists lon, sign, (lon - fk * 30)%float.
    split; [exact Hr|]. split.
    { rewrite (zodiac_from_lon _ _ Hr), Hq. cbn [mbind res_bind]. rewrite Hi.
      cbn [mbind res_bind]. rewrite Hg. cbn [mbind res_bind]. rewrite Hfk. reflexivity. }
    auto 10.
Qed.

(** ** The accuracy of the arcminute rounding *)

(** A smaller multiple of the unit of a binary64 number is a binary64
    number. *)
Lemma representable_multiple m e n :
  bounded prec emax m e = true -> 0 <= n <= Z.pos m ->
  exists c, valid_binary c = true /\ SF_nonneg c = true /\ SF2Z c = n * 2 ^ (e + 1074).
Proof.
  intros Hb Hn. destruct n as [|M|M]; [| |lia].
  - exists (S754_zero false). repeat split.
  - pose proof (bounded_emin _ _ Hb). pose proof (bounded_emax _ _ Hb).
    pose proof (bounded_dig _ _ Hb). pose proof (dig_mono M m ltac:(lia)).
    destruct (binary_round_fits false M e) as (m' & e' & _ & Hb' & Hv); [lia..|].
    exists (S754_finite false m' e'). repeat split; [exact Hb'|exact Hv].
Qed.

(** The fractional part of a binary64 number is one, and subtracting the
    integer part computes it exactly. *)
Lemma frac_exact p fd :
  SF_nonneg (Prim2SF p) = true -> SF_nonneg (Prim2SF fd) = true ->
  float_val fd = float_val p / ONE * ONE ->
  SF_nonneg (Prim2SF (p - fd)) = true /\ float_val (p - fd) = float_val p mod ONE.
Proof.
  intros Np Nfd Vfd. pose proof ONE_pos as HONE.
  pose proof (Z.div_mod (float_val p) ONE ltac:(lia)) as Hdm.
  pose proof (Z.mod_pos_bound (float_val p) ONE HONE) as Hmb.
  assert (Hc : exists c, valid_binary c = true /\ SF_nonneg c = true /\
                         SF2Z c = float_val p mod ONE).
  { unfold float_val. pose proof (Prim2SF_valid p) as Vp.
    destruct (Prim2SF p) as [[]| | |[] m e]; try discriminate.
    - exists (S754_zero false). repeat split.
    - cbn [valid_binary] in Vp. pose proof (bounded_emin _ _ Vp) as He.
      cbn [SF2Z cond_Zopp].
      destruct (Z_le_gt_dec 0 e) as [Hpos|Hneg].
      + exists (S754_zero false). split; [reflexivity|]. split; [reflexivity|].
        cbn [SF2Z]. symmetry. unfold ONE.
        replace (e + 1074) with (e + 1074 - 1074 + 1074) by lia.
        rewrite (Z.pow_add_r 2 (e + 1074 - 1074)), Z.mul_assoc by lia.
        apply Z.mod_mul. lia.
      + assert (Hone : ONE = 2 ^ (- e) * 2 ^ (e + 1074)).
        { unfold ONE. rewrite <- Z.pow_add_r by lia. f_equal. lia. }
        assert (P1 : 0 < 2 ^ (- e)) by (apply pow2_pos; lia).
        assert (P2 : 0 < 2 ^ (e + 1074)) by (apply pow2_pos; lia).
        rewrite Hone, Z.mul_mod_distr_r by lia.
        apply (representable_multiple m e); [exact Vp|].
        pose proof (Z.mod_pos_bound (Z.pos m) (2 ^ (- e)) P1).
        pose proof (Z.mod_le (Z.pos m) (2 ^ (- e)) ltac:(lia) P1). lia. }
  destruct Hc as (c & Vc & Nc & Hcv).
  assert (E : Prim2SF (p - fd) = c).
  { rewrite sub_spec. apply SFsub_exact; auto using Prim2SF_valid.
    fold (float_val p) (float_val fd). lia. }
  rewrite E. unfold float_val at 1. rewrite E. auto.
Qed.

Lemma dig_mul_ge m1 m2 : dig m1 + dig m2 - 1 <= dig (m1 * m2).
Proof.
  pose proof (dig_bounds m1) as [L1 _]. pose proof (dig_bounds m2) as [L2 _].
  pose proof (dig_bounds (m1 * m2)) as [_ U].
  pose proof (dig_pos m1). pose proof (dig_pos m2). pose proof (dig_pos (m1 * m2)).
  assert (Hlt : 2 ^ (dig m1 - 1 + (dig m2 - 1)) < 2 ^ dig (m1 * m2)).
  { rewrite Z.pow_add_r by lia. eapply Z.le_lt_trans; [|exact U].
    rewrite Pos2Z.inj_mul. apply Z.mul_le_mono_nonneg; try lia;
      apply Z.lt_le_incl, pow2_pos; lia. }
  apply Z.pow_lt_mono_r_iff in Hlt; lia.
Qed.

(** The product of a finite [0 <= x] by a positive normal [y], when the
    exact product is below [2^b]: the nearest binary64, at most half a unit
    in the last place of that magnitude away. *)
Lemma SFmul_nearest x my ey b :
  valid_binary x = true -> SF_nonneg x = true ->
  bounded prec emax my ey = true -> dig my = 53 ->
  SF2Z x * SF2Z (S754_finite false my ey) < 2 ^ (b + 1074) * ONE -> b <= 1023 ->
  let r := SF64mul x (S754_finite false my ey) in
  let u := 2 ^ (Z.max (b - 53) (-1074) + 1074) in
  valid_binary r = true /\ SF_nonneg r = true /\
  - (u * ONE) <= 2 * (SF2Z r * ONE - SF2Z x * SF2Z (S754_finite false my ey)) <= u * ONE.
Proof.
  intros Vx Nx Vy Dy Hlt Hb r u. subst r. pose proof ONE_pos as HONE.
  assert (Pu : 0 < u) by (apply pow2_pos; lia).
  destruct x as [[]| | |[] mx ex]; try discriminate.
  - cbn. split; [reflexivity|]. split; [reflexivity|]. nia.
  - cbn [valid_binary] in Vx.
    pose proof (bounded_emin _ _ Vx) as Hex. pose proof (bounded_emin _ _ Vy) as Hey.
    unfold SF64mul, SFmul. cbn [xorb SF2Z cond_Zopp] in *.
    set (M := (mx * my)%positive). set (E := ex + ey).
    assert (Hv : Z.pos M * 2 ^ (E + 2148)
                 = Z.pos mx * 2 ^ (ex + 1074) * (Z.pos my * 2 ^ (ey + 1074))).
    { subst M E. rewrite Pos2Z.inj_mul.
      replace (ex + ey + 2148) with ((ex + 1074) + (ey + 1074)) by lia.
      rewrite Z.pow_add_r by lia. ring. }
    assert (Hb0 : 0 <= b + 1074).
    { destruct (Z_lt_ge_dec (b + 1074) 0) as [Hn|]; [|lia].
      rewrite (Z.pow_neg_r 2 (b + 1074)) in Hlt by lia.
      assert (0 < 2 ^ (ex + 1074)) by (apply pow2_pos; lia).
      assert (0 < 2 ^ (ey + 1074)) by (apply pow2_pos; lia). nia. }
    assert (Hmag : dig M + E <= b).
    { apply (magnitude_bound _ _ 2148); [lia|lia|]. rewrite Hv.
      replace (b + 2148) with (b + 1074 + 1074) by lia.
      rewrite (Z.pow_add_r 2 (b + 1074)) by lia. exact Hlt. }
    pose proof (dig_mul_ge mx my) as Hdm. fold M in Hdm. pose proof (dig_pos mx) as Hd1.
    pose proof (binary_round_aux_nearest false M E) as H. cbv zeta in H.
    set (f := Z.max (dig M + E - 53) (-1074)) in *.
    destruct H as (V & F & S & Val); [lia|lia|].
    split; [exact V|]. split; [apply SF_nonneg_sign; auto|].
    rewrite Val. cbn [cond_Zopp].
    assert (Pd : 0 < 2 ^ (f - E)) by (apply pow2_pos; lia).
    pose proof (Zround_half_even_spec (Z.pos M) (2 ^ (f - E)) Pd) as [Hr _].
    set (R := Zround_half_even (Z.pos M) (2 ^ (f - E))) in *.
    rewrite <- Hv.
    assert (Hf : 2 ^ (f + 1074) <= u) by (apply Z.pow_le_mono_r; lia).
    assert (P1 : 0 < 2 ^ (f + 1074)) by (apply pow2_pos; lia).
    assert (P2 : 0 < 2 ^ (E + 2148)) by (apply pow2_pos; lia).
    assert (HU : 2 ^ (f - E) * 2 ^ (E + 2148) = 2 ^ (f + 1074) * ONE).
    { unfold ONE. rewrite <- !Z.pow_add_r by lia. f_equal. lia. }
    assert (Hs : - (2 ^ (f + 1074) * ONE)
                 <= 2 * (R * 2 ^ (f + 1074) * ONE - Z.pos M * 2 ^ (E + 2148))
                 <= 2 ^ (f + 1074) * ONE).
    { rewrite <- HU.
      replace (R * 2 ^ (f + 1074) * ONE) with (R * (2 ^ (f - E) * 2 ^ (E + 2148)))
        by (rewrite HU; ring).
      nia. }
    nia.
Qed.

Lemma py_float_small_nonneg n f :
  0 <= n <= 30 -> py_float n = Ok f -> SF_nonneg (Prim2SF f) = true.
Proof.
  intros Hn Hf.
  assert (Hall : forallb (fun i =>
            match py_float (Z.of_nat i) with
            | Ok f => SF_nonneg (Prim2SF f)
            | Raise _ => false
            end) (seq 0 31) = true) by (vm_compute; reflexivity).
  rewrite forallb_forall in Hall.
  assert (Hin : In (Z.to_nat n) (seq 0 31)) by (apply in_seq; lia).
  apply Hall in Hin. rewrite Z2Nat.id in Hin by lia. now rewrite Hf in Hin.
Qed.

(** The raw degree and minute, before the rollover, against the exact
    position: [60 * d0 + m0] arcminutes is within half an arcminute, and one
    rounding of the product ([2^-48]), of [60 * p]. *)
Lemma arcminute_raw_accuracy p d0 fd m0 :
  (0 <=? p)%float = true -> (p <? 30)%float = true ->
  py_int p = Ok d0 -> py_float d0 = Ok fd ->
  py_round ((p - fd) * 60)%float = Ok m0 ->
  - (2 ^ 1073 + 2 ^ 1026) <= (60 * d0 + m0) * ONE - 60 * float_val p
    <= 2 ^ 1073 + 2 ^ 1026.
Proof.
  intros H0 H30 Hd Hfd Hm. destruct (float_val_range p H0 H30) as [Fp [Hlo Hhi]].
  pose proof ONE_pos as HONE.
  destruct (Prim2SF p) as [[]| | |[] mp ep] eqn:Ep; try discriminate.
  - (* -0.0 *)
    assert (p = neg_zero) as -> by (rewrite <- (SF2Prim_Prim2SF p), Ep; reflexivity).
    vm_compute in Hd. injection Hd as <-. vm_compute in Hfd. injection Hfd as <-.
    vm_compute in Hm. injection Hm as <-. vm_compute. split; discriminate.
  - assert (p = 0%float) as -> by (rewrite <- (SF2Prim_Prim2SF p), Ep; reflexivity).
    vm_compute in Hd. injection Hd as <-. vm_compute in Hfd. injection Hfd as <-.
    vm_compute in Hm. injection Hm as <-. vm_compute. split; discriminate.
  - pose proof (Prim2SF_valid p) as Vp. rewrite Ep in Vp. cbn in Vp.
    pose proof (SF2Z_neg mp ep (bounded_emin _ _ Vp)).
    unfold float_val in Hlo. rewrite Ep in Hlo. lia.
  - assert (Np : SF_nonneg (Prim2SF p) = true) by now rewrite Ep.
    rewrite <- Ep in Fp. clear Ep mp ep.
    rewrite py_int_finite in Hd by assumption. injection Hd as <-.
    rewrite Z.quot_div_nonneg in * by lia.
    set (d0 := float_val p / ONE) in *.
    assert (Hd0 : 0 <= d0 <= 29).
    { split; [apply Z.div_pos; lia|].
      assert (d0 < 30) by (apply Z.div_lt_upper_bound; lia). lia. }
    destruct (py_float_small d0 ltac:(lia)) as (fd' & Hfd' & Ffd & Vfd).
    rewrite Hfd in Hfd'. injection Hfd' as <-.
    pose proof (py_float_small_nonneg d0 fd ltac:(lia) Hfd) as Nfd.
    destruct (frac_exact p fd Np Nfd Vfd) as [Nx Vx].
    pose proof (Z.div_mod (float_val p) ONE ltac:(lia)) as Hdm. fold d0 in Hdm.
    pose proof (Z.mod_pos_bound (float_val p) ONE HONE) as Hmb.
    assert (E60 : Prim2SF 60 = S754_finite false 8444249301319680 (-47)) by reflexivity.
    assert (V60 : SF2Z (S754_finite false 8444249301319680 (-47)) = 60 * ONE)
      by (vm_compute; reflexivity).
    pose proof (SFmul_nearest (Prim2SF (p - fd)) 8444249301319680 (-47) 6
                  (Prim2SF_valid _) Nx eq_refl eq_refl) as Hmul.
    cbv zeta in Hmul. rewrite V60 in Hmul. fold (float_val (p - fd)) in Hmul.
    rewrite <- E60, <- mul_spec in Hmul. fold (float_val ((p - fd) * 60)) in Hmul.
    destruct Hmul as (Vy & Ny & Hy); [|lia|].
    { replace (2 ^ (6 + 1074)) with (64 * ONE) by (vm_compute; reflexivity). nia. }
    rewrite py_round_finite in Hm by now apply SF_nonneg_finite. injection Hm as <-.
    pose proof (Zround_half_even_spec (float_val ((p - fd) * 60)) ONE HONE) as [Hr _].
    set (m0 := Zround_half_even (float_val ((p - fd) * 60)) ONE) in *.
    set (y := float_val ((p - fd) * 60)) in *.
    change (2 ^ (Z.max (6 - 53) (-1074) + 1074)) with (2 * 2 ^ 1026) in Hy.
    assert (H1 : ONE = 2 * 2 ^ 1073) by (vm_compute; reflexivity).
    assert (Hy' : - 2 ^ 1026 <= y - 60 * float_val (p - fd) <= 2 ^ 1026).
    { set (c := 2 ^ 1026) in *. clearbody c. nia. }
    set (c := 2 ^ 1026) in *. set (h := 2 ^ 1073) in *. clearbody c h. lia.
Qed.

(** The pair [round_to_arcminute] returns against the exact position. *)
Lemma round_to_arcminute_error p :
  (0 <=? p)%float = true -> (p <? 30)%float = true ->
  exists d m, round_to_arcminute p = Ok (d, m) /\
    0 <= d <= 29 /\ 0 <= m <= 59 /\
    - ONE < (60 * d + m) * ONE - 60 * float_val p <= 2 ^ 1073 + 2 ^ 1026 /\
    ((d, m) <> (29, 59) ->
     - (2 ^ 1073 + 2 ^ 1026) <= (60 * d + m) * ONE - 60 * float_val p).
Proof.
  intros H0 H30.
  destruct (round_to_arcminute_ok p H0 H30)
    as (d0 & fd & m0 & Hd & Hfd & Hm & Hrt & d & m & Hrt' & Hdr & Hmr & _).
  pose proof (arcminute_raw_accuracy p d0 fd m0 H0 H30 Hd Hfd Hm) as Hacc.
  destruct (float_val_range p H0 H30) as [_ [Hlo Hhi]].
  exists d, m. split; [exact Hrt'|]. split; [exact Hdr|]. split; [exact Hmr|].
  rewrite Hrt in Hrt'.
  assert (H1 : ONE = 2 * 2 ^ 1073) by (vm_compute; reflexivity).
  assert (H2 : 2 ^ 1026 < 2 ^ 1073) by (vm_compute; reflexivity).
  assert (P : 0 < 2 ^ 1026) by (vm_compute; reflexivity).
  set (c := 2 ^ 1026) in *. set (h := 2 ^ 1073) in *. clearbody c h.
  repeat case_decide; injection Hrt' as <- <-; split; try lia; intros Hne; try lia.
  congruence.
Qed.

(** ** The hour fraction of a time of day *)

Lemma forall_range_spec n f : forall z i,
  forall_range n z f = true -> z <= i < z + Z.of_nat n -> f i = true.
Proof.
  induction n as [|n IH]; intros z i H Hi; [lia|].
  cbn [forall_range] in H. apply andb_true_iff in H as [Hz Hrest].
  destruct (Z.eq_dec i z) as [->|Hne]; [exact Hz|].
  apply (IH (z + 1)); [exact Hrest|lia].
Qed.

Lemma ut_hours_table : forall_range (Z.to_nat 86400) 0 ut_hours_check = true.
Proof. vm_cast_no_check (eq_refl true). Qed.

(** The hour fraction of a time of day: finite, in [[0, 24)], and within
    [2^-48] hours of the exact fraction. *)
Lemma ut_hours_spec h m s :
  0 <= h <= 23 -> 0 <= m <= 59 -> 0 <= s <= 59 ->
  exists ut, ut_hours h m s = Ok ut /\ SF_nonneg (Prim2SF ut) = true /\
    0 <= float_val ut < 24 * ONE /\
    - (3600 * 2 ^ 1026) <= 3600 * float_val ut - (3600 * h + 60 * m + s) * ONE
      <= 3600 * 2 ^ 1026.
Proof.
  intros Hh Hm Hs. set (t := 3600 * h + 60 * m + s).
  pose proof (forall_range_spec _ _ 0 t ut_hours_table ltac:(subst t; cbn; lia)) as H.
  unfold ut_hours_check in H.
  assert (E1 : t / 3600 = h) by (subst t; symmetry; apply (Z.div_unique _ _ _ (60 * m + s)); lia).
  assert (E2 : t / 60 mod 60 = m).
  { assert (t / 60 = 60 * h + m)
      by (subst t; symmetry; apply (Z.div_unique _ _ _ s); lia).
    rewrite H0. symmetry. apply (Z.mod_unique _ _ h); lia. }
  assert (E3 : t mod 60 = s)
    by (subst t; symmetry; apply (Z.mod_unique _ _ (60 * h + m)); lia).
  rewrite E1, E2, E3 in H.
  destruct (ut_hours h m s) as [ut|]; [|discriminate].
  exists ut. split; [reflexivity|].
  assert (P70 : 2 ^ 1074 = 2 ^ 70 * 2 ^ 1004) by (vm_compute; reflexivity).
  assert (P26 : 2 ^ 1026 = 2 ^ 22 * 2 ^ 1004) by (vm_compute; reflexivity).
  assert (P : 0 < 2 ^ 1004) by (vm_compute; reflexivity).
  assert (P22 : 2 ^ 22 = 4194304) by reflexivity.
  assert (P70' : 2 ^ 70 = 1180591620717411303424) by reflexivity.
  unfold float_val, ONE.
  destruct (Prim2SF ut) as [[]| | |[] mu eu]; try discriminate.
  - apply Z.eqb_eq in H. cbn [SF_nonneg SF2Z]. rewrite H, P70.
    split; [reflexivity|]. lia.
  - apply andb_true_iff in H as [He Hacc]. apply Z.leb_le in He, Hacc.
    cbn [SF_nonneg SF2Z cond_Zopp]. split; [reflexivity|].
    replace (eu + 1074) with (eu + 70 + 1004) by lia.
    rewrite (Z.pow_add_r 2 (eu + 70)), P70, P26 by lia.
    assert (0 < 2 ^ (eu + 70)) by (apply pow2_pos; lia).
    set (a := 2 ^ (eu + 70)) in *. set (c := 2 ^ 1004) in *.
    rewrite P22, P70' in *. clearbody a c. nia.
Qed.

(** * The handler *)

(** ** Reading a run backwards *)

Lemma res_bind_inv {A B} (m : res A) (k : A -> res B) b :
  (m ≫= k) = Ok b -> exists a, m = Ok a /\ k a = Ok b.
Proof. destruct m as [a|e]; [eauto|discriminate]. Qed.

Lemma io_bind_inv {A B} (m : io A) (k : A -> io B) t b :
  (m ≫= k) = (t, Ok b) ->
  exists t1 a t2, m = (t1, Ok a) /\ k a = (t2, Ok b) /\ t = t1 ++ t2.
Proof.
  destruct m as [t1 [a|e]]; unfold mbind, io_bind; [|discriminate].
  destruct (k a) as [t2 r] eqn:E. intros [= <- ->]. eauto 6.
Qed.

Lemma lift_inv {A} (r : res A) t a : lift r = (t, Ok a) -> r = Ok a /\ t = [].
Proof. unfold lift. now intros [= <- ->]. Qed.

Lemma call_inv {A} ev (r : res A) t a : call ev r = (t, Ok a) -> r = Ok a /\ t = [ev].
Proof. unfold call. now intros [= <- ->]. Qed.

Lemma io_ret_inv {A} (x : A) t a : (mret x : io A) = (t, Ok a) -> x = a /\ t = [].
Proof. unfold mret, io_ret. now intros [= <- ->]. Qed.

(** [bind_inv H as a] splits a successful [x ← m; k x] in [H] into the
    step [m], whose result is named by the pattern [a], and the rest. *)
Tactic Notation "bind_inv" hyp(H) "as" simple_intropattern(a) :=
  apply io_bind_inv in H as (? & a & ? & _ & H & _).
Tactic Notation "bind_inv" hyp(H) "as" simple_intropattern(a) "by" ident(Hm) :=
  apply io_bind_inv in H as (? & a & ? & Hm & H & _).

(** ** The house of a longitude *)

Lemma clamp_spec h :
  (let h1 := if decide (h < 1) then 1 else h in
   if decide (h1 > 12) then 12 else h1) = Z.max 1 (Z.min 12 h).
Proof. cbv zeta. repeat case_decide; lia. Qed.

(** C2. Whatever finite raw position the house-position function returns,
    in or out of range, [house_for_longitude] returns its floor clamped
    into [1, 12]: a floor below 1 gives 1 and a floor above 12 gives 12.
    The obliquity is entry 9 of [ascmc] when there is one and the result of
    the nutation call otherwise; the ARMC is entry 2. *)
Theorem house_for_longitude_clamp (w : world) (jd_ut lat lon ecl_lon : float)
    (houses ascmc : list float) (obliq armc hpos : float) :
  (9 < Z.of_nat (length ascmc) /\ list_getitem ascmc 9 = Ok obliq \/
   Z.of_nat (length ascmc) <= 9 /\
   exists xx retflag, swe_calc_ut w jd_ut (swe_ECL_NUT w) (FLAGS w) = Ok (xx, retflag) /\
                      list_getitem xx 0 = Ok obliq) ->
  list_getitem ascmc 2 = Ok armc ->
  swe_house_pos w armc lat obliq (ecl_lon, 0%float) HOUSE_SYSTEM = Ok hpos ->
  SF_finite (Prim2SF hpos) = true ->
  let fl := float_val hpos / ONE in
  fl * ONE <= float_val hpos < (fl + 1) * ONE /\
  (house_for_longitude w jd_ut lat lon ecl_lon houses ascmc).2
    = Ok (Z.max 1 (Z.min 12 fl)) /\
  1 <= Z.max 1 (Z.min 12 fl) <= 12 /\
  (fl < 1 -> Z.max 1 (Z.min 12 fl) = 1) /\
  (12 < fl -> Z.max 1 (Z.min 12 fl) = 12).
Proof.
  intros Hobl Harmc Hpos Hfin fl. pose proof ONE_pos as HONE.
  split.
  { pose proof (Z.div_mod (float_val hpos) ONE ltac:(lia)).
    pose proof (Z.mod_pos_bound (float_val hpos) ONE HONE). subst fl. lia. }
  split; [|lia].
  unfold house_for_longitude.
  destruct Hobl as [[Hlen Hget]|[Hlen (xx & retflag & Hcalc & Hget)]].
  - rewrite decide_True by lia. rewrite Hget, Harmc. cbn. rewrite Hpos. cbn.
    rewrite math_floor_finite by assumption. cbn. f_equal. apply clamp_spec.
  - rewrite decide_False by lia. rewrite Hcalc. cbn. rewrite Hget, Harmc. cbn.
    rewrite Hpos. cbn.
    rewrite math_floor_finite by assumption. cbn. f_equal. apply clamp_spec.
Qed.

Lemma house_for_longitude_clamp_witness :
  (house_for_longitude (sample_world greenwich 0x1.a666666666666p+3) 0 0 0 0 []
     [15.5; 275.75; 277.5]%float).2 = Ok 12 /\
  (house_for_longitude (sample_world greenwich 0.5) 0 0 0 0 []
     [15.5; 275.75; 277.5]%float).2 = Ok 1.
Proof.
  split.
  - refine (proj1 (proj2 (house_for_longitude_clamp
      (sample_world greenwich 0x1.a666666666666p+3) 0 0 0 0 []
      [15.5; 275.75; 277.5]%float 84.5 277.5 0x1.a666666666666p+3 _ _ _ _)));
      [right; split; [cbn; lia|]; exists [84.5; 0; 1; 0.75; 0; 0]%float, 258;
       split; reflexivity|reflexivity..].
  - refine (proj1 (proj2 (house_for_longitude_clamp
      (sample_world greenwich 0.5) 0 0 0 0 []
      [15.5; 275.75; 277.5]%float 84.5 277.5 0.5 _ _ _ _)));
      [right; split; [cbn; lia|]; exists [84.5; 0; 1; 0.75; 0; 0]%float, 258;
       split; reflexivity|reflexivity..].
Defined.

(** ** The timezone resolver *)

(** What a run of [resolve_timezone_name] is, by the results of the lookups. *)
Lemma str_truthy_true o : str_truthy o = true -> exists s, o = Some s /\ s <> "".
Proof.
  destruct o as [s|]; [|discriminate]. cbn.
  destruct (String.eqb_spec s ""); [discriminate|eauto].
Qed.

Lemma str_truthy_some s : s <> "" -> str_truthy (Some s) = true.
Proof. intros H. cbn. now destruct (String.eqb_spec s ""). Qed.

Lemma resolve_timezone_name_run (w : world) lat lon :
  resolve_timezone_name w lat lon =
  match tf_timezone_at w lat lon with
  | Raise e => ([EvTimezoneAt lat lon], Raise e)
  | Ok o =>
      if str_truthy o then ([EvTimezoneAt lat lon], Ok (default "" o))
      else match tf_closest_timezone_at w lat lon with
           | Raise e => ([EvTimezoneAt lat lon; EvClosestTimezoneAt lat lon], Raise e)
           | Ok o' =>
               ([EvTimezoneAt lat lon; EvClosestTimezoneAt lat lon],
                if str_truthy o' then Ok (default "" o') else Raise timezone_unresolvable)
           end
  end.
Proof.
  unfold resolve_timezone_name, call.
  destruct (tf_timezone_at w lat lon) as [o|e]; [|reflexivity].
  destruct (str_truthy o) eqn:E.
  - destruct o as [s|]; [|discriminate]. cbn -[str_truthy]. rewrite E.
    cbn -[str_truthy]. rewrite E. reflexivity.
  - cbn -[str_truthy]. rewrite E. cbn.
    destruct (tf_closest_timezone_at w lat lon) as [o'|e]; [|reflexivity].
    destruct o' as [s|]; [|reflexivity]. cbn.
    destruct (negb (String.eqb s "")); reflexivity.
Qed.

(** C7, as the code has it.  [resolve_timezone_name] asks the exact lookup
    first and returns its name; only when that returns nothing ([None] or
    the empty string) it asks the nearest-match lookup and returns that
    name; when both return nothing it fails with status 422.  The function
    has no handler of its own: an exception raised by a lookup leaves it
    unchanged, and after a raising exact lookup the nearest-match lookup is
    not called.  A failure is the 422 or a lookup's own exception, and a
    returned name is non-empty and is what a lookup returned. *)
Theorem resolve_timezone_name_spec (w : world) (lat lon : float) :
  let exact := tf_timezone_at w lat lon in
  let near := tf_closest_timezone_at w lat lon in
  let unresolvable := HTTPException 422 "Could not resolve timezone for this location." in
  (forall s, exact = Ok (Some s) -> s <> "" ->
     resolve_timezone_name w lat lon = ([EvTimezoneAt lat lon], Ok s)) /\
  (forall o s, exact = Ok o -> str_truthy o = false -> near = Ok (Some s) -> s <> "" ->
     resolve_timezone_name w lat lon
     = ([EvTimezoneAt lat lon; EvClosestTimezoneAt lat lon], Ok s)) /\
  (forall o o', exact = Ok o -> str_truthy o = false ->
     near = Ok o' -> str_truthy o' = false ->
     resolve_timezone_name w lat lon
     = ([EvTimezoneAt lat lon; EvClosestTimezoneAt lat lon], Raise unresolvable)) /\
  (forall e, exact = Raise e ->
     resolve_timezone_name w lat lon = ([EvTimezoneAt lat lon], Raise e)) /\
  (forall o e, exact = Ok o -> str_truthy o = false -> near = Raise e ->
     resolve_timezone_name w lat lon
     = ([EvTimezoneAt lat lon; EvClosestTimezoneAt lat lon], Raise e)) /\
  (forall t e, resolve_timezone_name w lat lon = (t, Raise e) ->
     (e = unresolvable /\
      exists o o', exact = Ok o /\ str_truthy o = false /\
                   near = Ok o' /\ str_truthy o' = false) \/
     exact = Raise e \/
     (exists o, exact = Ok o /\ str_truthy o = false /\ near = Raise e)) /\
  (forall t s, resolve_timezone_name w lat lon = (t, Ok s) ->
     s <> "" /\
     (exact = Ok (Some s) \/
      exists o, exact = Ok o /\ str_truthy o = false /\ near = Ok (Some s))).
Proof.
  cbv zeta. rewrite resolve_timezone_name_run.
  split; [intros s -> Hs; now rewrite (str_truthy_some s Hs)|].
  split; [intros o s -> -> -> Hs; now rewrite (str_truthy_some s Hs)|].
  split; [now intros o o' -> -> -> ->|].
  split; [now intros e ->|].
  split; [now intros o e -> -> ->|].
  split.
  - intros t e H.
    destruct (tf_timezone_at w lat lon) as [o|e1]; [|injection H as _ <-; auto].
    destruct (str_truthy o) eqn:E; [discriminate|].
    destruct (tf_closest_timezone_at w lat lon) as [o'|e2];
      [|injection H as _ <-; eauto 6].
    destruct (str_truthy o') eqn:E'; [discriminate|]. injection H as _ <-.
    left. split; [reflexivity|]. eauto 6.
  - intros t s H.
    destruct (tf_timezone_at w lat lon) as [o|e1]; [|discriminate].
    destruct (str_truthy o) eqn:E.
    { apply str_truthy_true in E as (s' & -> & Hs). injection H as _ <-. auto. }
    destruct (tf_closest_timezone_at w lat lon) as [o'|e2]; [|discriminate].
    destruct (str_truthy o') eqn:E'; [|discriminate].
    apply str_truthy_true in E' as (s' & -> & Hs). injection H as _ <-. eauto 6.
Qed.

(** C7, the claim as stated fails: with a timezone index that checks its
    arguments, the exact lookup at latitude 95 raises [ValueError], and that
    error, not the 422, is how [resolve_timezone_name] fails. *)
Lemma resolve_timezone_name_other_failure :
  ~ (forall (w : world) (lat lon : float) t e,
       resolve_timezone_name w lat lon = (t, Raise e) ->
       e = HTTPException 422 "Could not resolve timezone for this location.").
Proof.
  intros H.
  specialize (H (checked_world (sample_world greenwich 0.5)
                   (fun _ _ => None) (fun _ _ => Some "Europe/London"))
                95%float 0%float [EvTimezoneAt 95 0]
                (PyExc "ValueError" "The coordinates are out of bounds.") eq_refl).
  discriminate H.
Qed.

(** ** The geocoder *)

(** C3. [geocode_location] asks the primary provider first and returns its
    match when there is one.  Whatever way the primary fails (an error or no
    match) the failure is not propagated: the fallback provider is called
    next, for exactly one result, and decides alone.  No result from the
    fallback is status 404 with the "City, State, Country" advice; an error
    of the fallback call (the request, its status check or its decoding) is
    status 502. *)
Theorem geocode_location_spec (w : world) (query : string) :
  let params := open_meteo_params query in
  let primary := EvNominatim query true in
  let fallback := EvRequestsGet open_meteo_url params 10 in
  sp_count params = 1 /\
  (forall loc, nominatim_geocode w query true = Ok (Some loc) ->
     geocode_location w query = ([primary], Ok (latitude loc, longitude loc, raw loc))) /\
  ((nominatim_geocode w query true = Ok None \/
    exists e, nominatim_geocode w query true = Raise e) ->
   exists r, geocode_location w query = ([primary; fallback], r) /\
     (forall resp kv,
        requests_get w open_meteo_url params 10 = Ok resp ->
        raise_for_status resp = Ok () -> response_json resp = Ok (JDict kv) ->
        json_truthy (default JNull (kv !! "results")) = false ->
        r = Raise (HTTPException 404 "Location not found. Try 'City, State, Country'.")) /\
     (forall cls msg,
        requests_get w open_meteo_url params 10 = Raise (PyExc cls msg) ->
        r = Raise (HTTPException 502 ("Geocoding error: " +:+ msg))) /\
     (forall resp cls msg,
        requests_get w open_meteo_url params 10 = Ok resp ->
        raise_for_status resp = Raise (PyExc cls msg) ->
        r = Raise (HTTPException 502 ("Geocoding error: " +:+ msg))) /\
     (forall resp cls msg,
        requests_get w open_meteo_url params 10 = Ok resp ->
        raise_for_status resp = Ok () -> response_json resp = Raise (PyExc cls msg) ->
        r = Raise (HTTPException 502 ("Geocoding error: " +:+ msg))) /\
     (forall cls msg,
        (geocode_fallback w query).2 = Raise (PyExc cls msg) ->
        r = Raise (HTTPException 502 ("Geocoding error: " +:+ msg)))) /\
  contains "City, State, Country" "Location not found. Try 'City, State, Country'." = true.
Proof.
  cbv zeta. split; [reflexivity|]. split; [|split; [|reflexivity]].
  - intros loc H. unfold geocode_location, call, try_except. rewrite H. reflexivity.
  - intros Hfail.
    assert (Hfound : try_except
              (call (EvNominatim query true) (nominatim_geocode w query true))
              (fun _ => mret None)
            = ([EvNominatim query true], Ok None)).
    { unfold call, try_except. destruct Hfail as [->|[e ->]]; reflexivity. }
    unfold geocode_location. rewrite Hfound. unfold mbind at 1, io_bind.
    assert (Htrace : exists r0, geocode_fallback w query
              = ([EvRequestsGet open_meteo_url (open_meteo_params query) 10], r0)).
    { unfold geocode_fallback, call, lift, raise.
      destruct (requests_get w _ _ _) as [resp|e]; cbn; [|eauto].
      destruct (raise_for_status resp) as [[]|e]; cbn; [|eauto].
      destruct (response_json resp) as [data|e]; cbn; [|eauto].
      destruct (json_get data "results") as [got|e]; cbn; [|eauto].
      destruct (negb _); cbn; [eauto|].
      destruct (json_first _) as [best|e]; cbn; [|eauto].
      destruct (json_getitem best "latitude") as [vlat|e]; cbn; [|eauto].
      destruct (json_float w vlat) as [lat|e]; cbn; [|eauto].
      destruct (json_getitem best "longitude") as [vlon|e]; cbn; [|eauto].
      destruct (json_float w vlon) as [lon|e]; cbn; eauto. }
    destruct Htrace as [r0 Hr0].
    exists (match r0 with
            | Raise (PyExc _ msg) => Raise (HTTPException 502 ("Geocoding error: " +:+ msg))
            | other => other
            end).
    split.
    { rewrite Hr0. unfold try_except.
      destruct r0 as [a|[cls msg|code detail]]; cbn; reflexivity. }
    assert (Hany : forall cls msg,
               (geocode_fallback w query).2 = Raise (PyExc cls msg) ->
               match r0 with
               | Raise (PyExc _ msg) => Raise (HTTPException 502 ("Geocoding error: " +:+ msg))
               | other => other
               end = Raise (HTTPException 502 ("Geocoding error: " +:+ msg))).
    { intros cls msg H. rewrite Hr0 in H. cbn in H. now rewrite H. }
    unfold geocode_fallback, call, lift, raise in Hr0.
    repeat split; [| | | |exact Hany].
    + intros resp kv Hget Hst Hjs Hres. rewrite Hget in Hr0. cbn in Hr0.
      rewrite Hst in Hr0. cbn in Hr0. rewrite Hjs in Hr0. cbn in Hr0.
      rewrite Hres in Hr0. cbn in Hr0. now injection Hr0 as <-.
    + intros cls msg Hget. rewrite Hget in Hr0. cbn in Hr0. now injection Hr0 as <-.
    + intros resp cls msg Hget Hst. rewrite Hget in Hr0. cbn in Hr0.
      rewrite Hst in Hr0. cbn in Hr0. now injection Hr0 as <-.
    + intros resp cls msg Hget Hst Hjs. rewrite Hget in Hr0. cbn in Hr0.
      rewrite Hst in Hr0. cbn in Hr0. rewrite Hjs in Hr0. cbn in Hr0.
      now injection Hr0 as <-.
Qed.

Lemma geocode_location_spec_witness :
  geocode_location (sample_world (JList []) 0.5) "Atlantis"
  = ([EvNominatim "Atlantis" true;
      EvRequestsGet open_meteo_url (open_meteo_params "Atlantis") 10],
     Raise (HTTPException 404 "Location not found. Try 'City, State, Country'.")).
Proof.
  destruct (proj1 (proj2 (proj2 (geocode_location_spec
              (sample_world (JList []) 0.5) "Atlantis"))) (or_introl eq_refl))
    as (r & Hrun & H404 & _).
  rewrite Hrun. f_equal.
  exact (H404 _ (<["results" := JList []]> ∅) eq_refl eq_refl eq_refl eq_refl).
Defined.

Lemma resolve_timezone_name_spec_witness :
  resolve_timezone_name (sample_world greenwich 0.5) 51.5 0
  = ([EvTimezoneAt 51.5 0; EvClosestTimezoneAt 51.5 0], Ok "Europe/London").
Proof.
  apply (proj1 (proj2 (resolve_timezone_name_spec (sample_world greenwich 0.5) 51.5 0))
           None); [reflexivity|reflexivity|reflexivity|discriminate].
Defined.

(** ** Startup *)

Lemma head_to_last_slash_abs c p :
  Ascii.eqb c slash = true ->
  exists h, head_to_last_slash (String c p) = String c h.
Proof.
  intros Hc. cbn [head_to_last_slash]. rewrite Hc.
  destruct (head_to_last_slash p); eauto.
Qed.

Lemma rstrip_slash_head c s :
  rstrip_slash (String c s) = EmptyString \/ exists r, rstrip_slash (String c s) = String c r.
Proof.
  cbn [rstrip_slash]. destruct (rstrip_slash s); [destruct (Ascii.eqb c slash)|]; eauto.
Qed.

Lemma dirname_abs file : is_abs file = true -> is_abs (dirname file) = true.
Proof.
  destruct file as [|c p]; [discriminate|]. cbn [is_abs]. intros Hc.
  destruct (head_to_last_slash_abs c p Hc) as [h Hh].
  unfold dirname. rewrite Hh.
  destruct (rstrip_slash_head c h) as [->|[r ->]]; exact Hc.
Qed.

Lemma path_join_ephe_abs a : is_abs a = true -> is_abs (path_join a "ephe") = true.
Proof.
  destruct a as [|c a']; [discriminate|]. cbn [is_abs]. intros Hc.
  unfold path_join. change (is_abs "ephe") with false. cbv iota.
  destruct (_ || _); exact Hc.
Qed.

(** C4, as the code runs: startup sets the ephemeris path twice.  The path
    resolved from the module's own directory is set first and reported; the
    literal ["./ephe"], which the library resolves against the working
    directory, is set last and is the one in force afterwards.  A missing
    directory is reported and startup still completes. *)
Theorem startup_sets_ephe_path_twice (w : world) :
  exists t,
    startup w = (t, Ok ()) /\
    set_ephe_path_calls t = [EPHE_PATH w; "./ephe"] /\
    ephe_path_after None t = Some "./ephe" /\
    EvPrint ("EPHE exists? " +:+ str_of_bool (path_exists w (EPHE_PATH w))) ∈ t /\
    (is_abs (module_file w) = true -> EPHE_PATH w <> "./ephe").
Proof.
  eexists. split; [reflexivity|]. split; [reflexivity|]. split; [reflexivity|].
  split; [cbn; rewrite !elem_of_cons; auto|].
  intros Habs Heq.
  pose proof (path_join_ephe_abs _ (dirname_abs _ Habs)) as Hp.
  unfold EPHE_PATH, BASE_DIR in Heq. rewrite Heq in Hp. discriminate.
Qed.

(** ** The chart: cusps and planets *)

Section Chart.
Context (w : world).

Lemma list_getitem_elem {A} (l : list A) i a : list_getitem l i = Ok a -> a ∈ l.
Proof.
  unfold list_getitem. case_decide; [|discriminate].
  destruct (l !! _) as [x|] eqn:E; [|discriminate].
  intros [= <-]. eapply list_elem_of_lookup_2, E.
Qed.

Lemma zodiac_sign_in_SIGNS x sign pos :
  zodiac_sign_and_pos x = Ok (sign, pos) -> sign ∈ SIGNS.
Proof.
  unfold zodiac_sign_and_pos. intros H.
  apply res_bind_inv in H as (lon & _ & H). apply res_bind_inv in H as (q & _ & H).
  apply res_bind_inv in H as (k & _ & H). apply res_bind_inv in H as (s & Hs & H).
  apply res_bind_inv in H as (fk & _ & H). injection H as <- _.
  now apply list_getitem_elem in Hs.
Qed.

Lemma cusp_entry_spec i x c :
  cusp_entry i x = Ok c -> c_house c = i /\ c_sign c ∈ SIGNS.
Proof.
  unfold cusp_entry. intros H.
  apply res_bind_inv in H as (lon & _ & H).
  apply res_bind_inv in H as ([hs hp] & Hz & H).
  apply res_bind_inv in H as ([hd hm] & _ & H). injection H as <-. cbn.
  split; [reflexivity|]. eapply zodiac_sign_in_SIGNS, Hz.
Qed.

(** The cusp loop appends one entry per cusp, numbered from [i] on. *)
Lemma cusps_loop l : forall i acc t out,
  for_each (enumerate i l) acc
    (fun '(i, cusp_lon) cusps_out =>
       c ← lift (cusp_entry i cusp_lon); mret (cusps_out ++ [c])) = (t, Ok out) ->
  exists new, out = acc ++ new /\ c_house <$> new = seqZ i (Z.of_nat (length l)) /\
              Forall (fun c => c_sign c ∈ SIGNS) new.
Proof.
  induction l as [|x l IH]; intros i acc t out H.
  - apply io_ret_inv in H as [<- _]. exists []. rewrite app_nil_r. auto.
  - cbn [enumerate for_each] in H.
    apply io_bind_inv in H as (t1 & acc' & t2 & Hstep & Hrest & _).
    apply io_bind_inv in Hstep as (t3 & c & t4 & Hc & Hret & _).
    apply lift_inv in Hc as [Hc _]. apply io_ret_inv in Hret as [<- _].
    apply cusp_entry_spec in Hc as [Hi Hs].
    apply IH in Hrest as (new & -> & Hh & Hall).
    exists (c :: new). rewrite <- app_assoc. split; [reflexivity|]. split.
    + cbn [length]. rewrite seqZ_cons by lia. cbn [fmap list_fmap]. f_equal; [exact Hi|].
      rewrite Hh. f_equal; lia.
    + now constructor.
Qed.

(** One turn of the planet loop reads the speed of its own body. *)
Lemma planet_entry_spec jd lat lon houses ascmc body t e :
  planet_entry w jd lat lon houses ascmc body = (t, Ok e) ->
  exists xx retflag speed,
    swe_calc_ut w jd body (FLAGS w) = Ok (xx, retflag) /\
    list_getitem xx 3 = Ok speed /\
    p_retrograde e = (speed <? 0)%float.
Proof.
  unfold planet_entry. intros H.
  bind_inv H as [xx retflag] by Hcalc. apply call_inv in Hcalc as [Hcalc _].
  bind_inv H as res0. bind_inv H as ecl_lon.
  bind_inv H as speed by Hspeed. apply lift_inv in Hspeed as [Hspeed _].
  bind_inv H as [sign pos]. bind_inv H as [d m]. bind_inv H as house_num.
  apply io_ret_inv in H as [<- _]. cbn. eauto 6.
Qed.

(** The planet loop over distinct names: every name ends up bound to the
    entry of its own turn, and no other key is touched. *)
Lemma planets_loop (entry_of : Z -> io planet) (l : list (string * Z)) :
  forall (m : gmap string planet) t (m' : gmap string planet),
  NoDup l.*1 ->
  for_each l m
    (fun '(name, body) planets_out =>
       entry ← entry_of body; mret (<[name := entry]> planets_out)) = (t, Ok m') ->
  (forall k, k ∉ l.*1 -> m' !! k = m !! k) /\
  dom m' = dom m ∪ list_to_set l.*1 /\
  (forall name body, (name, body) ∈ l ->
     exists t' e, entry_of body = (t', Ok e) /\ m' !! name = Some e).
Proof.
  induction l as [|[n b] l IH]; intros m t m' Hnd H.
  - apply io_ret_inv in H as [<- _]. split; [auto|].
    split; [cbn; now rewrite (right_id_L ∅ (∪))|].
    intros ? ? Hin. inversion Hin.
  - cbn [for_each] in H. cbn [fmap list_fmap fst] in Hnd. apply NoDup_cons in Hnd as [Hn Hnd].
    apply io_bind_inv in H as (t1 & m1 & t2 & Hstep & Hrest & _).
    apply io_bind_inv in Hstep as (t3 & e & t4 & He & Hret & _).
    apply io_ret_inv in Hret as [<- _].
    destruct (IH _ _ _ Hnd Hrest) as (Hkeep & Hdom & Hall).
    split; [|split].
    + intros k Hk. cbn [fmap list_fmap fst] in Hk. apply not_elem_of_cons in Hk as [Hk1 Hk2].
      rewrite (Hkeep k Hk2). now apply lookup_insert_ne.
    + rewrite Hdom, dom_insert_L. cbn [fmap list_fmap fst list_to_set].
      now rewrite (comm_L (∪) {[n]} (dom m)), (assoc_L (∪)).
    + intros name body Hin. apply elem_of_cons in Hin as [[= -> ->]|Hin].
      * exists t3, e. split; [exact He|]. rewrite (Hkeep n Hn). apply lookup_insert_eq.
      * now apply Hall.
Qed.

(** What a successful run of [chart] went through. *)
Lemma chart_inv req t r :
  chart w req = (t, Ok r) ->
  exists houses ascmc t6 t8,
    swe_houses_ex w (in_julian_day_ut (input r)) (in_lat (input r)) (in_lon (input r))
                  HOUSE_SYSTEM = Ok (houses, ascmc) /\
    for_each (PLANETS w) (∅ : gmap string planet)
      (fun '(name, body) planets_out =>
         entry ← planet_entry w (in_julian_day_ut (input r)) (in_lat (input r))
                              (in_lon (input r)) houses ascmc body;
         mret (<[name := entry]> planets_out)) = (t6, Ok (planets r)) /\
    for_each (enumerate 1 (if decide (length houses = 12%nat) then houses
                           else drop 1 houses)) ([] : list cusp)
      (fun '(i, cusp_lon) cusps_out =>
         c ← lift (cusp_entry i cusp_lon); mret (cusps_out ++ [c]))
    = (t8, Ok (house_cusps r)).
Proof.
  unfold chart. intros H.
  bind_inv H as [[lat lon] raw]. bind_inv H as tz_name.
  bind_inv H as [local_dt utc_dt]. bind_inv H as jd_ut.
  bind_inv H as [houses ascmc] by Hh. apply call_inv in Hh as [Hh _].
  bind_inv H as asc. bind_inv H as mc.
  bind_inv H as planets_out by Hp.
  bind_inv H as [asc_sign asc_pos]. bind_inv H as [asc_d asc_m].
  bind_inv H as [mc_sign mc_pos]. bind_inv H as [mc_d mc_m].
  cbv zeta in H.
  bind_inv H as cusps_out by Hc.
  bind_inv H as asc_lon. bind_inv H as mc_lon.
  apply io_ret_inv in H as [<- _]. cbn. eauto 10.
Qed.

Lemma PLANETS_names : (PLANETS w).*1 = body_names.
Proof. reflexivity. Qed.

Lemma body_names_NoDup : NoDup body_names.
Proof. apply (bool_decide_unpack (NoDup body_names)). vm_compute. exact I. Qed.

(** C8. In a successful run of [chart] (the house computation returning 12
    cusps, or 13 entries of which the first is skipped) [house_cusps] has
    exactly 12 entries, numbered 1 to 12 in this order, each with a sign
    among the twelve of [SIGNS]. *)
Theorem chart_house_cusps (req : ChartRequest) t r :
  (forall jd lat lon hsys houses ascmc,
      swe_houses_ex w jd lat lon hsys = Ok (houses, ascmc) ->
      length houses = 12%nat \/ length houses = 13%nat) ->
  chart w req = (t, Ok r) ->
  length (house_cusps r) = 12%nat /\
  c_house <$> house_cusps r = [1; 2; 3; 4; 5; 6; 7; 8; 9; 10; 11; 12] /\
  Forall (fun c => c_sign c ∈ SIGNS) (house_cusps r) /\
  length SIGNS = 12%nat.
Proof.
  intros Hlen Hrun.
  apply chart_inv in Hrun as (houses & ascmc & t6 & t8 & Hh & _ & Hc).
  apply Hlen in Hh.
  apply cusps_loop in Hc as (new & -> & Hnum & Hsign). cbn [app].
  assert (Hl : length (if decide (length houses = 12%nat) then houses else drop 1 houses)
               = 12%nat).
  { case_decide; [assumption|]. rewrite length_drop. lia. }
  rewrite Hl in Hnum. change (seqZ 1 (Z.of_nat 12)) with [1; 2; 3; 4; 5; 6; 7; 8; 9; 10; 11; 12] in Hnum.
  split; [|auto].
  rewrite <- (length_fmap c_house), Hnum. reflexivity.
Qed.

(** C9. In a successful run of [chart] the keys of [planets] are the 11
    tracked bodies, each once, and the [retrograde] flag of a body is the
    test [speed < 0] on the daily longitude speed the ephemeris reported
    for that body: it is set exactly when that speed is strictly
    negative. *)
Theorem chart_planets (req : ChartRequest) t r :
  chart w req = (t, Ok r) ->
  dom (planets r) = list_to_set body_names /\
  size (planets r) = 11%nat /\
  NoDup body_names /\
  forall name body, (name, body) ∈ PLANETS w ->
    exists xx retflag speed p,
      swe_calc_ut w (in_julian_day_ut (input r)) body (FLAGS w) = Ok (xx, retflag) /\
      list_getitem xx 3 = Ok speed /\
      planets r !! name = Some p /\
      p_retrograde p = (speed <? 0)%float /\
      (SF_finite (Prim2SF speed) = true ->
       (p_retrograde p = true <-> float_val speed < 0)).
Proof.
  intros Hrun.
  apply chart_inv in Hrun as (houses & ascmc & t6 & t8 & _ & Hp & _).
  apply planets_loop in Hp as (_ & Hdom & Hall);
    [|rewrite PLANETS_names; apply body_names_NoDup].
  rewrite PLANETS_names, dom_empty_L, (left_id_L ∅ (∪)) in Hdom.
  split; [exact Hdom|]. split.
  { rewrite <- size_dom, Hdom, size_list_to_set by apply body_names_NoDup. reflexivity. }
  split; [apply body_names_NoDup|].
  intros name body Hin.
  destruct (Hall name body Hin) as (t' & p & Hentry & Hlook).
  apply planet_entry_spec in Hentry as (xx & retflag & speed & Hcalc & Hspeed & Hretro).
  exists xx, retflag, speed, p. repeat (split; [assumption|]).
  intros Hfin. rewrite Hretro, ltb_val by (assumption || reflexivity).
  change (float_val 0) with 0. apply Z.ltb_lt.
Qed.

End Chart.

Lemma chart_house_cusps_witness :
  exists t r,
    chart (sample_world greenwich 0.5) sample_request = (t, Ok r) /\
    length (house_cusps r) = 12%nat /\
    c_house <$> house_cusps r = [1; 2; 3; 4; 5; 6; 7; 8; 9; 10; 11; 12].
Proof.
  assert (E : exists t r, chart (sample_world greenwich 0.5) sample_request = (t, Ok r)).
  { eexists _, _. vm_compute. reflexivity. }
  destruct E as (t & r & E). exists t, r. split; [exact E|].
  destruct (chart_house_cusps (sample_world greenwich 0.5) sample_request t r)
    as (H1 & H2 & _); [|exact E|auto].
  intros jd lat lon hsys houses ascmc [= <- _]. left. reflexivity.
Defined.

Lemma chart_planets_witness :
  exists t r,
    chart (sample_world greenwich 0.5) sample_request = (t, Ok r) /\
    dom (planets r) = list_to_set body_names /\
    size (planets r) = 11%nat /\
    exists p, planets r !! "Mercury" = Some p /\ p_retrograde p = true.
Proof.
  assert (E : exists t r, chart (sample_world greenwich 0.5) sample_request = (t, Ok r)).
  { eexists _, _. vm_compute. reflexivity. }
  destruct E as (t & r & E). exists t, r. split; [exact E|].
  destruct (chart_planets (sample_world greenwich 0.5) sample_request t r E)
    as (H1 & H2 & _ & Hall).
  split; [exact H1|]. split; [exact H2|].
  destruct (Hall "Mercury" 2) as (xx & retflag & speed & p & Hcalc & Hspeed & Hp & Hr & _).
  { unfold PLANETS. rewrite !elem_of_cons. auto. }
  injection Hcalc as <- _. injection Hspeed as <-.
  exists p. split; [exact Hp|exact Hr].
Defined.

(** * The handler, step by step *)

(** ** Which errors a computation can end in *)

Lemma py_only_bind {A B} (m : res A) (k : A -> res B) :
  py_only m -> (forall a, m = Ok a -> py_only (k a)) -> py_only (m ≫= k).
Proof. destruct m as [a|e]; cbn; auto. Qed.

Lemma py_only_io_bind {A B} (m : io A) (k : A -> io B) :
  py_only m.2 -> (forall t a, m = (t, Ok a) -> py_only (k a).2) -> py_only (m ≫= k).2.
Proof.
  destruct m as [t [a|e]]; unfold mbind, io_bind; cbn; [|auto].
  intros _ H. specialize (H t a eq_refl). destruct (k a) as [t' r]. exact H.
Qed.

Lemma py_only_lift {A} (r : res A) : py_only r -> py_only (lift r).2.
Proof. auto. Qed.

Lemma py_only_call {A} ev (r : res A) : py_only r -> py_only (call ev r).2.
Proof. auto. Qed.

Lemma py_only_ret {A} (a : A) : py_only (mret a : io A).2.
Proof. exact I. Qed.

Lemma py_only_for_each {A S} (l : list A) (body : A -> S -> io S) :
  (forall a s, a ∈ l -> py_only (body a s).2) ->
  forall s, py_only (for_each l s body).2.
Proof.
  induction l as [|a l IH]; intros Hb s; [exact I|].
  cbn [for_each]. apply py_only_io_bind.
  - apply Hb. left.
  - intros t s' _. apply IH. intros a' s'' Hin. apply Hb. now right.
Qed.

Lemma py_only_list_getitem {A} (l : list A) i : py_only (list_getitem l i).
Proof.
  unfold list_getitem. case_decide; [|reflexivity].
  destruct (l !! _); [exact I|reflexivity].
Qed.

Lemma py_only_py_int x : py_only (py_int x).
Proof. unfold py_int. destruct (Prim2SF x); cbn; auto. Qed.

Lemma py_only_math_floor x : py_only (math_floor x).
Proof. unfold math_floor. destruct (Prim2SF x); cbn; auto. Qed.

Lemma py_only_py_round x : py_only (py_round x).
Proof. unfold py_round. destruct (Prim2SF x); cbn; auto. Qed.

Lemma py_only_py_float n : py_only (py_float n).
Proof. unfold py_float. destruct (binary_normalize _ _ _ _ _); cbn; auto. Qed.

Lemma py_only_float_rem x y : py_only (float_rem x y).
Proof. unfold float_rem. repeat (destruct (_ : bool); cbn; auto). Qed.

Lemma py_only_float_floor_div x y : py_only (float_floor_div x y).
Proof.
  unfold float_floor_div. destruct (y =? 0)%float; [reflexivity|].
  cbv zeta. destruct (negb _); [|exact I]. destruct (_ <? _)%float; exact I.
Qed.

Lemma py_only_normalize_deg x : py_only (normalize_deg x).
Proof. apply py_only_float_rem. Qed.

Lemma py_only_zodiac x : py_only (zodiac_sign_and_pos x).
Proof.
  unfold zodiac_sign_and_pos.
  repeat (apply py_only_bind;
          [first [apply py_only_normalize_deg | apply py_only_float_floor_div
                 | apply py_only_py_int | apply py_only_list_getitem
                 | apply py_only_py_float]
          | intros ? _]).
  exact I.
Qed.

Lemma py_only_round_to_arcminute p : py_only (round_to_arcminute p).
Proof.
  unfold round_to_arcminute.
  repeat (apply py_only_bind;
          [first [apply py_only_py_int | apply py_only_py_float | apply py_only_py_round]
          | intros ? _]).
  repeat case_decide; exact I.
Qed.

Lemma py_only_cusp_entry i x : py_only (cusp_entry i x).
Proof.
  unfold cusp_entry.
  apply py_only_bind; [apply py_only_normalize_deg|intros lon _].
  apply py_only_bind; [apply py_only_zodiac|intros [hs hp] _].
  apply py_only_bind; [apply py_only_round_to_arcminute|intros [hd hm] _].
  exact I.
Qed.

(** ** The geocoder *)

Section Geocoder.
Context (w : world).

Lemma py_only_json_get data key : py_only (json_get data key).
Proof. destruct data; cbn; auto. Qed.

Lemma py_only_json_first x : py_only (json_first x).
Proof.
  destruct x as [| | | |s|l|]; cbn; auto.
  - destruct s; cbn; auto.
  - apply py_only_list_getitem.
Qed.

Lemma py_only_json_getitem x key : py_only (json_getitem x key).
Proof. destruct x as [| | | | | |kv]; cbn; auto. destruct (kv !! key); cbn; auto. Qed.

Lemma py_only_json_float v : py_only (json_float w v).
Proof.
  destruct v as [| | | |s| |]; cbn; auto.
  - apply py_only_py_float.
  - destruct (float_of_string w s); cbn; auto.
Qed.

(** The fallback makes one request, whatever comes of it. *)
Lemma geocode_fallback_trace query :
  (geocode_fallback w query).1
  = [EvRequestsGet open_meteo_url (open_meteo_params query) 10].
Proof.
  unfold geocode_fallback, call, lift, raise.
  destruct (requests_get w _ _ _) as [resp|e]; cbn; [|auto].
  destruct (raise_for_status resp) as [[]|e]; cbn; [|auto].
  destruct (response_json resp) as [data|e]; cbn; [|auto].
  destruct (json_get data "results") as [got|e]; cbn; [|auto].
  destruct (negb _); cbn; [auto|].
  destruct (json_first _) as [best|e]; cbn; [|auto].
  destruct (json_getitem best "latitude") as [vlat|e]; cbn; [|auto].
  destruct (json_float w vlat) as [lat|e]; cbn; [|auto].
  destruct (json_getitem best "longitude") as [vlon|e]; cbn; [|auto].
  destruct (json_float w vlon) as [lon|e]; cbn; auto.
Qed.

(** The only [HTTPException] the fallback raises by itself is the 404. *)
Lemma geocode_fallback_errors query e :
  libraries_py_only w ->
  (geocode_fallback w query).2 = Raise e ->
  e = location_not_found \/ is_http e = false.
Proof.
  intros Hlib. unfold geocode_fallback, call, lift, raise.
  pose proof (py_requests_get w Hlib open_meteo_url (open_meteo_params query) 10) as H1.
  pose proof (py_response w Hlib open_meteo_url (open_meteo_params query) 10) as H2.
  destruct (requests_get w _ _ _) as [resp|e1]; cbn; [|intros [= <-]; auto].
  destruct (H2 resp eq_refl) as [H3 H4].
  destruct (raise_for_status resp) as [[]|e1]; cbn; [|intros [= <-]; auto].
  destruct (response_json resp) as [data|e1]; cbn; [|intros [= <-]; auto].
  pose proof (py_only_json_get data "results") as H5.
  destruct (json_get data "results") as [got|e1]; cbn; [|intros [= <-]; auto].
  destruct (negb _); cbn; [intros [= <-]; auto|].
  match goal with |- context [json_first ?x] =>
    pose proof (py_only_json_first x) as H6; destruct (json_first x) as [best|e1] end;
    cbn; [|intros [= <-]; auto].
  pose proof (py_only_json_getitem best "latitude") as H7.
  destruct (json_getitem best "latitude") as [vlat|e1]; cbn; [|intros [= <-]; auto].
  pose proof (py_only_json_float vlat) as H8.
  destruct (json_float w vlat) as [lat|e1]; cbn; [|intros [= <-]; auto].
  pose proof (py_only_json_getitem best "longitude") as H9.
  destruct (json_getitem best "longitude") as [vlon|e1]; cbn; [|intros [= <-]; auto].
  pose proof (py_only_json_float vlon) as H10.
  destruct (json_float w vlon) as [lon|e1]; cbn; [discriminate|intros [= <-]; auto].
Qed.

(** The two ways [geocode_location] runs. *)
Lemma geocode_location_cases query :
  (exists loc, nominatim_geocode w query true = Ok (Some loc) /\
     geocode_location w query
     = ([EvNominatim query true], Ok (latitude loc, longitude loc, raw loc))) \/
  ((nominatim_geocode w query true = Ok None \/
    exists e, nominatim_geocode w query true = Raise e) /\
   geocode_location w query
   = ([EvNominatim query true; EvRequestsGet open_meteo_url (open_meteo_params query) 10],
      match (geocode_fallback w query).2 with
      | Raise (PyExc cls msg) => Raise (HTTPException 502 ("Geocoding error: " +:+ msg))
      | other => other
      end)).
Proof.
  pose proof (geocode_fallback_trace query) as Ht.
  unfold geocode_location.
  destruct (geocode_fallback w query) as [t rf]. cbn in Ht. subst t.
  unfold call, try_except.
  destruct (nominatim_geocode w query true) as [[loc|]|e] eqn:E.
  - left. exists loc. split; reflexivity.
  - right. split; [auto|]. destruct rf as [a|[cls msg|c d]]; reflexivity.
  - right. split; [eauto|]. destruct rf as [a|[cls msg|c d]]; reflexivity.
Qed.

Lemma geocode_location_failure query t e :
  geocode_location w query = (t, Raise e) ->
  t = [EvNominatim query true; EvRequestsGet open_meteo_url (open_meteo_params query) 10] /\
  is_http e = true /\
  (libraries_py_only w ->
   e = HTTPException 404 "Location not found. Try 'City, State, Country'." \/
   exists msg, e = HTTPException 502 ("Geocoding error: " +:+ msg)).
Proof.
  intros H.
  destruct (geocode_location_cases query) as [(loc & _ & E)|[_ E]];
    rewrite E in H; [discriminate|].
  injection H as <- H. split; [reflexivity|].
  destruct (geocode_fallback w query).2 as [a|[cls msg|c d]] eqn:Er; [discriminate| |].
  - injection H as <-. split; [reflexivity|]. intros _. right. eauto.
  - injection H as <-. split; [reflexivity|]. intros Hlib.
    destruct (geocode_fallback_errors query _ Hlib Er) as [->|Hf]; [now left|discriminate].
Qed.

Lemma geocode_location_trace query t r :
  geocode_location w query = (t, r) -> Forall (fun ev => is_swe_event ev = false) t.
Proof.
  intros H.
  destruct (geocode_location_cases query) as [(loc & _ & E)|[_ E]];
    rewrite E in H; injection H as <- _; repeat constructor.
Qed.

End Geocoder.

Lemma io_bind_ok {A B} t (a : A) (k : A -> io B) :
  (((t, Ok a) : io A) ≫= k) = (t ++ (k a).1, (k a).2).
Proof. unfold mbind, io_bind. now destruct (k a). Qed.

Lemma io_bind_ret {A B} (a : A) (k : A -> io B) : ((mret a : io A) ≫= k) = k a.
Proof. unfold mbind, io_bind, mret, io_ret. now destruct (k a). Qed.

Lemma io_bind_raise {A B} t e (k : A -> io B) :
  (((t, Raise e) : io A) ≫= k) = (t, Raise e).
Proof. reflexivity. Qed.

Lemma list_getitem_0 {A} (a : A) l : list_getitem (a :: l) 0 = Ok a.
Proof.
  unfold list_getitem. cbv zeta. rewrite (decide_False (P := 0 < 0)) by lia.
  rewrite decide_True by (cbn [length]; lia). reflexivity.
Qed.

Section Services.
Context (w : world).

(** The fallback's answer: the coordinates of the first result, converted
    by [float()], and the result itself under ["raw"]. *)
Lemma geocode_fallback_first query resp kv best rest b vlat vlon lat lon :
  requests_get w open_meteo_url (open_meteo_params query) 10 = Ok resp ->
  raise_for_status resp = Ok () ->
  response_json resp = Ok (JDict kv) ->
  kv !! "results" = Some (JList (best :: rest)) ->
  best = JDict b -> b !! "latitude" = Some vlat -> b !! "longitude" = Some vlon ->
  json_float w vlat = Ok lat -> json_float w vlon = Ok lon ->
  (geocode_fallback w query).2
  = Ok (lat, lon, JDict (<["source" := JStr "open-meteo"]> (<["raw" := best]> ∅))).
Proof.
  intros Hget Hst Hjs Hres -> Hlat Hlon Hflat Hflon.
  unfold geocode_fallback, call, lift, raise.
  rewrite Hget. cbn. rewrite Hst. cbn. rewrite Hjs. cbn. rewrite Hres.
  cbn -[list_getitem]. rewrite list_getitem_0. cbn.
  rewrite Hlat. cbn. rewrite Hflat. cbn. rewrite Hlon. cbn. rewrite Hflon. reflexivity.
Qed.

(** A first result without a coordinate is a [KeyError], reported as 502. *)
Lemma geocode_fallback_missing query resp kv best rest b key :
  requests_get w open_meteo_url (open_meteo_params query) 10 = Ok resp ->
  raise_for_status resp = Ok () ->
  response_json resp = Ok (JDict kv) ->
  kv !! "results" = Some (JList (best :: rest)) ->
  best = JDict b ->
  (key = "latitude" /\ b !! "latitude" = None \/
   key = "longitude" /\ (exists vlat lat, b !! "latitude" = Some vlat /\
                                          json_float w vlat = Ok lat) /\
   b !! "longitude" = None) ->
  (geocode_fallback w query).2 = Raise (PyExc "KeyError" ("'" +:+ key +:+ "'")).
Proof.
  intros Hget Hst Hjs Hres -> Hkey.
  unfold geocode_fallback, call, lift, raise.
  rewrite Hget. cbn. rewrite Hst. cbn. rewrite Hjs. cbn. rewrite Hres.
  cbn -[list_getitem]. rewrite list_getitem_0. cbn.
  destruct Hkey as [[-> Hn]|(-> & (vlat & lat & Hlat & Hf) & Hn)].
  - rewrite Hn. reflexivity.
  - rewrite Hlat. cbn. rewrite Hf. cbn. rewrite Hn. reflexivity.
Qed.

(** The outcomes of [resolve_timezone_name]. *)
Lemma resolve_timezone_name_cases lat lon :
  exists t r, resolve_timezone_name w lat lon = (t, r) /\
    (t = [EvTimezoneAt lat lon] \/
     t = [EvTimezoneAt lat lon; EvClosestTimezoneAt lat lon]) /\
    (forall e, r = Raise e ->
       e = timezone_unresolvable /\
       t = [EvTimezoneAt lat lon; EvClosestTimezoneAt lat lon] \/
       tf_timezone_at w lat lon = Raise e \/
       tf_closest_timezone_at w lat lon = Raise e) /\
    (forall s, r = Ok s -> s <> "").
Proof.
  rewrite (resolve_timezone_name_run w).
  destruct (tf_timezone_at w lat lon) as [o|e1].
  2: { eexists _, _. split; [reflexivity|]. split; [auto|]. split; [|discriminate].
       intros e [= <-]. auto. }
  destruct (str_truthy o) eqn:E.
  { apply str_truthy_true in E as (s' & -> & Hs).
    eexists _, _. split; [reflexivity|]. split; [auto|]. split; [discriminate|].
    now intros s [= <-]. }
  destruct (tf_closest_timezone_at w lat lon) as [o'|e2].
  2: { eexists _, _. split; [reflexivity|]. split; [auto|]. split; [|discriminate].
       intros e [= <-]. auto. }
  eexists _, _. split; [reflexivity|]. split; [auto|].
  destruct (str_truthy o') eqn:E'.
  - apply str_truthy_true in E' as (s' & -> & Hs). split; [discriminate|].
    now intros s [= <-].
  - split; [|discriminate]. intros e [= <-]. auto.
Qed.

(** The events of the timezone resolver are no ephemeris calls. *)
Lemma resolve_timezone_name_trace lat lon t r :
  resolve_timezone_name w lat lon = (t, r) ->
  Forall (fun ev => is_swe_event ev = false) t.
Proof.
  destruct (resolve_timezone_name_cases lat lon) as (t' & r' & E & [->| ->] & _).
  all: rewrite E; intros [= <- <-]; repeat constructor.
Qed.

End Services.

Section Time.
Context (w : world).

(** ** The time normalizer *)

(** How [local_to_utc] gets its zone: the database is asked once; only
    when that fails [tzdata] is imported and the database asked again. *)
Lemma zone_lookup_cases name :
  let zone := try_except (call (EvZoneInfo name) (ZoneInfo w name))
                (fun _ => _ ← call EvImportTzdata (import_tzdata w);
                          call (EvZoneInfo name) (ZoneInfo_retry w name)) in
  (forall tz, ZoneInfo w name = Ok tz -> zone = ([EvZoneInfo name], Ok tz)) /\
  (forall e e', ZoneInfo w name = Raise e -> import_tzdata w = Raise e' ->
     zone = ([EvZoneInfo name; EvImportTzdata], Raise e')) /\
  (forall e, ZoneInfo w name = Raise e -> import_tzdata w = Ok () ->
     zone = ([EvZoneInfo name; EvImportTzdata; EvZoneInfo name], ZoneInfo_retry w name)).
Proof.
  cbv zeta. unfold try_except, call. repeat split.
  - intros tz ->. reflexivity.
  - intros e e' -> ->. reflexivity.
  - intros e -> ->. reflexivity.
Qed.

Lemma local_to_utc_ok y mo d h mi name t l u :
  local_to_utc w y mo d h mi name = (t, Ok (l, u)) ->
  exists tz utc tz_events,
    (ZoneInfo w name = Ok tz /\ tz_events = [EvZoneInfo name] \/
     (exists e, ZoneInfo w name = Raise e) /\ import_tzdata w = Ok () /\
     ZoneInfo_retry w name = Ok tz /\
     tz_events = [EvZoneInfo name; EvImportTzdata; EvZoneInfo name]) /\
    datetime_new w y mo d h mi tz = Ok l /\
    ZoneInfo w "UTC" = Ok utc /\
    astimezone w l utc = Ok u /\
    t = tz_events ++ [EvDatetime y mo d h mi; EvZoneInfo "UTC"; EvAstimezone utc].
Proof.
  unfold local_to_utc. intros H.
  apply io_bind_inv in H as (t1 & tz & t2 & Hz & H & ->).
  apply io_bind_inv in H as (t3 & l' & t4 & Hl & H & ->).
  apply io_bind_inv in H as (t5 & utc & t6 & Hu & H & ->).
  apply io_bind_inv in H as (t7 & u' & t8 & Ha & H & ->).
  apply io_ret_inv in H as [[= <- <-] ->].
  apply call_inv in Hl as [Hl ->]. apply call_inv in Hu as [Hu ->].
  apply call_inv in Ha as [Ha ->].
  exists tz, utc, t1. split.
  - destruct (zone_lookup_cases name) as (H1 & H2 & H3). cbv zeta in H1, H2, H3.
    destruct (ZoneInfo w name) as [tz'|e] eqn:E1.
    + rewrite (H1 tz' eq_refl) in Hz. injection Hz as <- <-. left. auto.
    + destruct (import_tzdata w) as [[]|e'] eqn:E2.
      * rewrite (H3 e eq_refl eq_refl) in Hz. injection Hz as <- Hr. right. eauto 6.
      * rewrite (H2 e e' eq_refl eq_refl) in Hz. discriminate.
  - repeat (split; [assumption|]). now rewrite app_nil_r.
Qed.

(** A rejected date or time: the constructor's error comes out of
    [local_to_utc] as it is, after the zone lookup and before any
    conversion. *)
Lemma local_to_utc_bad_date y mo d h mi name tz e :
  ZoneInfo w name = Ok tz -> datetime_new w y mo d h mi tz = Raise e ->
  local_to_utc w y mo d h mi name
  = ([EvZoneInfo name; EvDatetime y mo d h mi], Raise e).
Proof.
  intros Hz Hd. unfold local_to_utc.
  destruct (zone_lookup_cases name) as (H1 & _). cbv zeta in H1.
  rewrite (H1 tz Hz), io_bind_ok. unfold call. rewrite Hd. reflexivity.
Qed.

(** ** The Julian day *)

Lemma julian_day_ut_hours dt ut :
  ut_hours (dt_hour dt) (dt_minute dt) (dt_second dt) = Ok ut ->
  julian_day_ut w dt
  = ([EvJulday (dt_year dt) (dt_month dt) (dt_day dt) ut],
     swe_julday w (dt_year dt) (dt_month dt) (dt_day dt) ut).
Proof.
  unfold ut_hours, julian_day_ut, lift, call. intros H.
  destruct (py_float (dt_hour dt)) as [fh|]; [|discriminate]. cbn in H.
  destruct (py_float (dt_minute dt)) as [fm|]; [|discriminate]. cbn in H.
  destruct (py_float (dt_second dt)) as [fs|]; [|discriminate]. cbn in H.
  injection H as <-. cbn.
  destruct (swe_julday w _ _ _ _); reflexivity.
Qed.

(** ** The house of a longitude *)

Lemma house_for_longitude_ok jd lat lon ecl houses ascmc t h :
  house_for_longitude w jd lat lon ecl houses ascmc = (t, Ok h) ->
  1 <= h <= 12 /\
  exists armc obliq hpos,
    list_getitem ascmc 2 = Ok armc /\
    swe_house_pos w armc lat obliq (ecl, 0%float) HOUSE_SYSTEM = Ok hpos /\
    SF_finite (Prim2SF hpos) = true /\
    h = Z.max 1 (Z.min 12 (float_val hpos / ONE)) /\
    (9 < Z.of_nat (length ascmc) /\ list_getitem ascmc 9 = Ok obliq /\
     t = [EvHousePos armc lat obliq ecl HOUSE_SYSTEM] \/
     Z.of_nat (length ascmc) <= 9 /\
     t = [EvCalcUt jd (swe_ECL_NUT w) (FLAGS w); EvHousePos armc lat obliq ecl HOUSE_SYSTEM]).
Proof.
  unfold house_for_longitude. intros H.
  apply io_bind_inv in H as (t1 & obliq & t2 & Ho & H & ->).
  apply io_bind_inv in H as (t3 & armc & t4 & Ha & H & ->).
  apply io_bind_inv in H as (t5 & hpos & t6 & Hp & H & ->).
  apply io_bind_inv in H as (t7 & fl & t8 & Hf & H & ->).
  apply io_ret_inv in H as [<- ->].
  apply lift_inv in Ha as [Ha ->]. apply call_inv in Hp as [Hp ->].
  apply lift_inv in Hf as [Hf ->].
  assert (Fh : SF_finite (Prim2SF hpos) = true).
  { unfold math_floor in Hf. destruct (Prim2SF hpos); (discriminate || reflexivity). }
  rewrite math_floor_finite in Hf by assumption. injection Hf as <-.
  rewrite clamp_spec. split; [lia|].
  exists armc, obliq, hpos. repeat (split; [assumption || reflexivity|]).
  case_decide as Hlen.
  - apply lift_inv in Ho as [Ho ->]. left. auto.
  - apply io_bind_inv in Ho as (t9 & r & t10 & Hc & Ho & ->).
    apply call_inv in Hc as [Hc ->]. apply lift_inv in Ho as [Ho ->].
    right. split; [lia|reflexivity].
Qed.

(** With fewer than three entries in [ascmc] there is no ARMC: the
    function raises before it could ask for a house position. *)
Lemma house_for_longitude_short jd lat lon ecl houses ascmc :
  (length ascmc < 3)%nat ->
  exists t e, house_for_longitude w jd lat lon ecl houses ascmc = (t, Raise e) /\
              house_pos_lons t = [].
Proof.
  intros Hlen. unfold house_for_longitude.
  rewrite decide_False by lia.
  assert (Harmc : list_getitem ascmc 2
                  = Raise (PyExc "IndexError" "list index out of range")).
  { unfold list_getitem. cbv zeta. rewrite (decide_False (P := 2 < 0)) by lia.
    rewrite decide_False by lia. reflexivity. }
  unfold call, lift. rewrite Harmc.
  destruct (swe_calc_ut w jd (swe_ECL_NUT w) (FLAGS w)) as [[xx rf]|e]; cbn;
    [destruct (list_getitem xx 0) as [o|e]; cbn|]; eauto.
Qed.

End Time.

(** ** Formatting a longitude *)

Lemma zodiac_ok_facts x sign pos :
  zodiac_sign_and_pos x = Ok (sign, pos) ->
  SF_finite (Prim2SF x) = true /\
  exists lon, normalize_deg x = Ok lon /\
    SF_nonneg (Prim2SF lon) = true /\ float_val lon < 360 * ONE /\
    SIGNS !! Z.to_nat (float_val lon / (30 * ONE)) = Some sign /\
    SF_nonneg (Prim2SF pos) = true /\
    float_val pos = float_val lon mod (30 * ONE).
Proof.
  intros H. destruct (zodiac_sign_and_pos_cases x) as (Hnf & Hband & Hok).
  destruct (SF_finite (Prim2SF x)) eqn:F.
  2:{ rewrite Hnf in H by reflexivity. discriminate. }
  split; [reflexivity|].
  destruct (Z_le_dec (- 2 ^ 1029) (Z.rem (float_val x) (360 * ONE))) as [H1|H1];
    [destruct (Z_lt_dec (Z.rem (float_val x) (360 * ONE)) 0) as [H2|H2]|].
  - destruct (Hband eq_refl ltac:(lia)) as [_ E]. rewrite E in H. discriminate.
  - destruct (Hok eq_refl ltac:(lia)) as (lon & s & p & Hn & Hz & Hrest).
    rewrite Hz in H. injection H as <- <-. eauto.
  - destruct (Hok eq_refl ltac:(lia)) as (lon & s & p & Hn & Hz & Hrest).
    rewrite Hz in H. injection H as <- <-. eauto.
Qed.

Lemma pos_in_sign_bools pos :
  SF_nonneg (Prim2SF pos) = true -> float_val pos < 30 * ONE ->
  (0 <=? pos)%float = true /\ (pos <? 30)%float = true.
Proof.
  intros Np Hlt. pose proof (float_val_nonneg pos Np).
  split.
  - rewrite leb_val by (reflexivity || now apply SF_nonneg_finite).
    apply Z.leb_le. change (float_val 0) with 0. lia.
  - rewrite ltb_val by (reflexivity || now apply SF_nonneg_finite).
    apply Z.ltb_lt. replace (float_val 30) with (30 * ONE) by (vm_compute; reflexivity).
    lia.
Qed.

(** A sign and a position that were computed from [x], then rounded. *)
Lemma format_of_longitude x sign pos d m :
  zodiac_sign_and_pos x = Ok (sign, pos) -> round_to_arcminute pos = Ok (d, m) ->
  exists lon, normalize_deg x = Ok lon /\ formats sign d m lon.
Proof.
  intros Hz Hr. pose proof ONE_pos as HONE.
  destruct (zodiac_ok_facts x sign pos Hz) as (_ & lon & Hn & Nl & Hlt & Hs & Np & Vp).
  exists lon. split; [exact Hn|].
  pose proof (Z.mod_pos_bound (float_val lon) (30 * ONE) ltac:(lia)) as Hmb.
  pose proof (Z.div_mod (float_val lon) (30 * ONE) ltac:(lia)) as Hdm.
  destruct (pos_in_sign_bools pos Np ltac:(lia)) as [H0 H30].
  destruct (round_to_arcminute_error pos H0 H30) as (d' & m' & Hr' & Hd & Hm & Herr & _).
  rewrite Hr in Hr'. injection Hr' as <- <-.
  unfold formats. cbv zeta. repeat (split; [assumption|]).
  set (k := float_val lon / (30 * ONE)) in *. lia.
Qed.

Lemma normalize_deg_nonfinite x :
  SF_finite (Prim2SF x) = false -> normalize_deg x = Ok nan.
Proof.
  intros F. destruct (nonfinite_float x F) as [->|[->| ->]]; vm_compute; reflexivity.
Qed.

(** The cusp loop calls nothing. *)
Lemma cusps_loop_trace l : forall i acc,
  (for_each (enumerate i l) acc
     (fun '(i, cusp_lon) cusps_out =>
        c ← lift (cusp_entry i cusp_lon); mret (cusps_out ++ [c]))).1 = [].
Proof.
  induction l as [|x l IH]; intros i acc; [reflexivity|].
  cbn [enumerate for_each]. unfold lift.
  destruct (cusp_entry i x) as [c|e]; [|reflexivity].
  rewrite io_bind_ok. unfold mret, io_ret. cbn [fst snd app].
  rewrite io_bind_ok. cbn [fst app]. apply IH.
Qed.

Section ChartRun.
Context (w : world).

(** ** One turn of the planet loop *)

Lemma planet_entry_ok jd lat lon houses ascmc body t e :
  planet_entry w jd lat lon houses ascmc body = (t, Ok e) ->
  exists xx retflag res0 speed pos th,
    swe_calc_ut w jd body (FLAGS w) = Ok (xx, retflag) /\
    list_getitem xx 0 = Ok res0 /\
    normalize_deg res0 = Ok (p_lon_deg e) /\
    list_getitem xx 3 = Ok speed /\ p_retrograde e = (speed <? 0)%float /\
    zodiac_sign_and_pos (p_lon_deg e) = Ok (p_sign e, pos) /\
    round_to_arcminute pos = Ok (p_deg e, p_min e) /\
    house_for_longitude w jd lat lon (p_lon_deg e) houses ascmc = (th, Ok (p_house e)) /\
    t = EvCalcUt jd body (FLAGS w) :: th.
Proof.
  unfold planet_entry. intros H.
  apply io_bind_inv in H as (t1 & [xx retflag] & t2 & Hc & H & ->).
  apply call_inv in Hc as [Hc ->].
  apply io_bind_inv in H as (t3 & res0 & t4 & H0 & H & ->).
  apply lift_inv in H0 as [H0 ->].
  apply io_bind_inv in H as (t5 & ecl & t6 & Hn & H & ->).
  apply lift_inv in Hn as [Hn ->].
  apply io_bind_inv in H as (t7 & speed & t8 & Hs & H & ->).
  apply lift_inv in Hs as [Hs ->].
  apply io_bind_inv in H as (t9 & [sign pos] & t10 & Hz & H & ->).
  apply lift_inv in Hz as [Hz ->].
  apply io_bind_inv in H as (t11 & [d m] & t12 & Hr & H & ->).
  apply lift_inv in Hr as [Hr ->].
  apply io_bind_inv in H as (th & h & t14 & Hh & H & ->).
  apply io_ret_inv in H as [<- ->]. cbn.
  exists xx, retflag, res0, speed, pos, th. rewrite app_nil_r. auto 10.
Qed.

(** What an entry of the planet table holds. *)
Lemma planet_entry_ranges jd lat lon houses ascmc body t e :
  planet_entry w jd lat lon houses ascmc body = (t, Ok e) ->
  SF_nonneg (Prim2SF (p_lon_deg e)) = true /\
  0 <= float_val (p_lon_deg e) <= 360 * ONE /\
  (exists lon', normalize_deg (p_lon_deg e) = Ok lon' /\
                formats (p_sign e) (p_deg e) (p_min e) lon') /\
  1 <= p_house e <= 12.
Proof.
  intros H.
  apply planet_entry_ok in H
    as (xx & rf & res0 & speed & pos & th & _ & _ & Hn & _ & _ & Hz & Hr & Hh & _).
  destruct (zodiac_ok_facts _ _ _ Hz) as [Fl _].
  assert (F0 : SF_finite (Prim2SF res0) = true).
  { destruct (SF_finite (Prim2SF res0)) eqn:F; [reflexivity|].
    rewrite (normalize_deg_nonfinite res0 F) in Hn. injection Hn as Hn.
    rewrite <- Hn in Fl. discriminate. }
  destruct (normalize_deg_finite res0 F0) as (r & Hr0 & Nr & Hb & _).
  rewrite Hn in Hr0. injection Hr0 as <-.
  split; [exact Nr|]. split; [exact Hb|].
  split; [now apply (format_of_longitude _ _ pos)|].
  now apply house_for_longitude_ok in Hh as [Hh _].
Qed.

(** ** The whole run *)

Lemma chart_run req t r :
  chart w req = (t, Ok r) ->
  exists lat lon raw tz local_dt utc_dt jd houses ascmc asc mc
         asc_pos mc_pos t1 t2 t3 t4 t6,
    geocode_location w (location_query req) = (t1, Ok (lat, lon, raw)) /\
    resolve_timezone_name w lat lon = (t2, Ok tz) /\
    local_to_utc w (year req) (month req) (day req) (hour req) (minute req) tz
    = (t3, Ok (local_dt, utc_dt)) /\
    julian_day_ut w utc_dt = (t4, Ok jd) /\
    swe_houses_ex w jd lat lon HOUSE_SYSTEM = Ok (houses, ascmc) /\
    list_getitem ascmc 0 = Ok asc /\ list_getitem ascmc 1 = Ok mc /\
    for_each (PLANETS w) (∅ : gmap string planet)
      (fun '(name, body) planets_out =>
         entry ← planet_entry w jd lat lon houses ascmc body;
         mret (<[name := entry]> planets_out)) = (t6, Ok (planets r)) /\
    zodiac_sign_and_pos asc = Ok (a_sign (ASC r), asc_pos) /\
    round_to_arcminute asc_pos = Ok (a_deg (ASC r), a_min (ASC r)) /\
    zodiac_sign_and_pos mc = Ok (a_sign (MC r), mc_pos) /\
    round_to_arcminute mc_pos = Ok (a_deg (MC r), a_min (MC r)) /\
    (for_each (enumerate 1 (if decide (length houses = 12%nat) then houses
                            else drop 1 houses)) ([] : list cusp)
       (fun '(i, cusp_lon) cusps_out =>
          c ← lift (cusp_entry i cusp_lon); mret (cusps_out ++ [c]))).2
    = Ok (house_cusps r) /\
    normalize_deg asc = Ok (a_lon_deg (ASC r)) /\
    normalize_deg mc = Ok (a_lon_deg (MC r)) /\
    input r = {| in_location_query := location_query req;
                 in_lat := lat; in_lon := lon; in_raw := raw;
                 in_timezone := tz;
                 in_local_datetime := dt_isoformat local_dt;
                 in_utc_datetime := dt_isoformat utc_dt;
                 in_julian_day_ut := jd |} /\
    t = t1 ++ t2 ++ t3 ++ t4 ++ EvHousesEx jd lat lon HOUSE_SYSTEM :: t6.
Proof.
  unfold chart. intros H.
  apply io_bind_inv in H as (t1 & [[lat lon] raw] & t1' & Hg & H & ->).
  apply io_bind_inv in H as (t2 & tz & t2' & Htz & H & ->).
  apply io_bind_inv in H as (t3 & [local_dt utc_dt] & t3' & Hl & H & ->).
  apply io_bind_inv in H as (t4 & jd & t4' & Hj & H & ->).
  apply io_bind_inv in H as (t5 & [houses ascmc] & t5' & Hh & H & ->).
  apply call_inv in Hh as [Hh ->].
  apply io_bind_inv in H as (? & asc & t6' & Ha & H & ->). apply lift_inv in Ha as [Ha ->].
  apply io_bind_inv in H as (? & mc & t7' & Hm & H & ->). apply lift_inv in Hm as [Hm ->].
  apply io_bind_inv in H as (t6 & planets_out & t8' & Hp & H & ->).
  apply io_bind_inv in H as (? & [asc_sign asc_pos] & t9' & Haz & H & ->).
  apply lift_inv in Haz as [Haz ->].
  apply io_bind_inv in H as (? & [asc_d asc_m] & t10' & Har & H & ->).
  apply lift_inv in Har as [Har ->].
  apply io_bind_inv in H as (? & [mc_sign mc_pos] & t11' & Hmz & H & ->).
  apply lift_inv in Hmz as [Hmz ->].
  apply io_bind_inv in H as (? & [mc_d mc_m] & t12' & Hmr & H & ->).
  apply lift_inv in Hmr as [Hmr ->].
  cbv zeta in H.
  apply io_bind_inv in H as (t8 & cusps_out & t13' & Hc & H & ->).
  apply io_bind_inv in H as (? & asc_lon & t14' & Hal & H & ->).
  apply lift_inv in Hal as [Hal ->].
  apply io_bind_inv in H as (? & mc_lon & t15' & Hml & H & ->).
  apply lift_inv in Hml as [Hml ->].
  apply io_ret_inv in H as [<- ->]. cbn [planets ASC MC house_cusps input a_sign a_deg
                                          a_min a_lon_deg].
  assert (Ht8 : t8 = []).
  { pose proof (cusps_loop_trace
                  (if decide (length houses = 12%nat) then houses else drop 1 houses) 1 [])
      as Ht. rewrite Hc in Ht. exact Ht. }
  subst t8.
  exists lat, lon, raw, tz, local_dt, utc_dt, jd, houses, ascmc, asc, mc,
         asc_pos, mc_pos, t1, t2, t3, t4, t6.
  rewrite Hc. cbn [snd]. repeat (split; [assumption || reflexivity|]).
  cbn [app]. rewrite !app_nil_r. reflexivity.
Qed.

End ChartRun.

Section Loops.
Context (w : world).

(** ** The planet loop, turn by turn *)

(** The loop over distinct names runs one turn per body, in order: the
    trace is the turns' traces one after the other, and every name ends up
    bound to the entry of its own turn. *)
Lemma planets_loop_turns (entry_of : Z -> io planet) (l : list (string * Z)) :
  forall (m : gmap string planet) t (m' : gmap string planet),
  NoDup l.*1 ->
  for_each l m
    (fun '(name, body) planets_out =>
       entry ← entry_of body; mret (<[name := entry]> planets_out)) = (t, Ok m') ->
  exists turns : list (list event * planet),
    Forall2 (fun nb te => entry_of nb.2 = (te.1, Ok te.2) /\ m' !! nb.1 = Some te.2)
            l turns /\
    t = concat turns.*1.
Proof.
  induction l as [|[n b] l IH]; intros m t m' Hnd H.
  - apply io_ret_inv in H as [<- ->]. exists []. split; [constructor|reflexivity].
  - cbn [for_each] in H. cbn [fmap list_fmap fst] in Hnd.
    apply NoDup_cons in Hnd as [Hn Hnd].
    apply io_bind_inv in H as (t1 & m1 & t2 & Hstep & Hrest & ->).
    apply io_bind_inv in Hstep as (t3 & e & t4 & He & Hret & ->).
    apply io_ret_inv in Hret as [<- ->].
    destruct (planets_loop entry_of l _ _ _ Hnd Hrest) as (Hkeep & _ & _).
    destruct (IH _ _ _ Hnd Hrest) as (turns & Hall & ->).
    exists ((t3, e) :: turns). split.
    + constructor; [|exact Hall]. cbn. split; [exact He|].
      rewrite (Hkeep n Hn). apply lookup_insert_eq.
    + cbn. now rewrite app_nil_r.
Qed.

End Loops.

(** ** The cusp entries *)

Lemma cusp_entry_ok i x c :
  cusp_entry i x = Ok c ->
  SF_finite (Prim2SF x) = true /\
  c_house c = i /\ normalize_deg x = Ok (c_lon_deg c) /\
  SF_nonneg (Prim2SF (c_lon_deg c)) = true /\
  0 <= float_val (c_lon_deg c) <= 360 * ONE /\
  exists lon', normalize_deg (c_lon_deg c) = Ok lon' /\
               formats (c_sign c) (c_deg c) (c_min c) lon'.
Proof.
  unfold cusp_entry. intros H.
  apply res_bind_inv in H as (lon & Hn & H).
  apply res_bind_inv in H as ([hs hp] & Hz & H).
  apply res_bind_inv in H as ([hd hm] & Hr & H). injection H as <-. cbn.
  destruct (zodiac_ok_facts _ _ _ Hz) as [Fl _].
  assert (F0 : SF_finite (Prim2SF x) = true).
  { destruct (SF_finite (Prim2SF x)) eqn:F; [reflexivity|].
    rewrite (normalize_deg_nonfinite x F) in Hn. injection Hn as <-. discriminate. }
  destruct (normalize_deg_finite x F0) as (r & Hr0 & Nr & Hb & _).
  rewrite Hn in Hr0. injection Hr0 as <-.
  repeat (split; [assumption || reflexivity|]).
  now apply (format_of_longitude _ _ hp).
Qed.

(** [cusp_entry] normalizes twice, so no finite longitude makes it fail:
    what the first [normalize_deg] rounds up to [360.0] the second one takes
    to [0.0]. *)
Lemma cusp_entry_finite i x :
  SF_finite (Prim2SF x) = true ->
  exists c, cusp_entry i x = Ok c /\
    (- 2 ^ 1029 <= Z.rem (float_val x) (360 * ONE) < 0 ->
     c = {| c_house := i; c_sign := "Aries"; c_deg := 0; c_min := 0;
            c_lon_deg := 360 |}).
Proof.
  intros Fx. pose proof ONE_pos as HONE.
  destruct (Z_le_dec (- 2 ^ 1029) (Z.rem (float_val x) (360 * ONE))) as [H1|H1];
    [destruct (Z_lt_dec (Z.rem (float_val x) (360 * ONE)) 0) as [H2|H2]|].
  - destruct (zodiac_sign_and_pos_cases x) as (_ & Hband & _).
    destruct (Hband Fx ltac:(lia)) as [Hn _].
    eexists. unfold cusp_entry. rewrite Hn. split; [vm_compute; reflexivity|].
    intros _. reflexivity.
  - destruct (normalize_deg_finite x Fx) as (lon & Hn & Nl & Hb & _).
    destruct (zodiac_sign_and_pos_nonneg lon (SF_nonneg_finite _ Nl) ltac:(lia))
      as (sign & pos & Hz & _ & Np & Vp).
    pose proof (Z.mod_pos_bound (float_val lon mod (360 * ONE)) (30 * ONE) ltac:(lia)).
    destruct (pos_in_sign_bools pos Np ltac:(lia)) as [H0 H30].
    destruct (round_to_arcminute_ok pos H0 H30)
      as (_ & _ & _ & _ & _ & _ & _ & d & m & Hr & _).
    eexists. unfold cusp_entry. rewrite Hn. cbn [mbind res_bind]. rewrite Hz.
    cbn [mbind res_bind]. rewrite Hr. split; [reflexivity|]. intros; lia.
  - destruct (normalize_deg_finite x Fx) as (lon & Hn & Nl & Hb & _).
    destruct (zodiac_sign_and_pos_nonneg lon (SF_nonneg_finite _ Nl) ltac:(lia))
      as (sign & pos & Hz & _ & Np & Vp).
    pose proof (Z.mod_pos_bound (float_val lon mod (360 * ONE)) (30 * ONE) ltac:(lia)).
    destruct (pos_in_sign_bools pos Np ltac:(lia)) as [H0 H30].
    destruct (round_to_arcminute_ok pos H0 H30)
      as (_ & _ & _ & _ & _ & _ & _ & d & m & Hr & _).
    eexists. unfold cusp_entry. rewrite Hn. cbn [mbind res_bind]. rewrite Hz.
    cbn [mbind res_bind]. rewrite Hr. split; [reflexivity|]. intros; lia.
Qed.

(** Every entry the cusp loop appends is one [cusp_entry] made. *)
Lemma cusps_loop_forall (P : cusp -> Prop) :
  (forall i x c, cusp_entry i x = Ok c -> P c) ->
  forall l i acc out,
    Forall P acc ->
    (for_each (enumerate i l) acc
       (fun '(i, cusp_lon) cusps_out =>
          c ← lift (cusp_entry i cusp_lon); mret (cusps_out ++ [c]))).2 = Ok out ->
    Forall P out.
Proof.
  intros HP l. induction l as [|x l IH]; intros i acc out Hacc H.
  - injection H as <-. exact Hacc.
  - cbn [enumerate for_each] in H. unfold lift in H.
    destruct (cusp_entry i x) as [c|e] eqn:E; [|discriminate].
    rewrite io_bind_ok in H. unfold mret, io_ret in H. cbn [fst snd app] in H.
    rewrite io_bind_ok in H. cbn [snd] in H.
    apply (IH (i + 1) (acc ++ [c])); [|exact H].
    apply Forall_app. split; [exact Hacc|]. repeat constructor. eapply HP, E.
Qed.

Lemma py_only_try_except {A} (m : io A) (handler : exn -> io A) :
  (forall e, py_only (handler e).2) -> py_only (try_except m handler).2.
Proof.
  intros H. unfold try_except. destruct m as [t [a|e]]; [exact I|].
  specialize (H e). destruct (handler e) as [t' r]. exact H.
Qed.

(** One step of a proof that a computation ends in no [HTTPException]. *)
Ltac py_only_step :=
  cbv beta;
  lazymatch goal with
  | |- py_only (snd (mbind _ _)) => apply py_only_io_bind; [|intros ? ? _]
  | |- py_only (snd (mret _)) => apply py_only_ret
  | |- py_only (snd (lift _)) => apply py_only_lift
  | |- py_only (snd (call _ _)) => apply py_only_call
  | |- py_only (snd (try_except _ _)) => apply py_only_try_except; intros ?
  | |- py_only (snd (if _ then _ else _)) => case_decide
  | |- py_only (snd (let '(_, _) := ?x in _)) => destruct x
  | |- py_only (list_getitem _ _) => apply py_only_list_getitem
  | |- py_only (normalize_deg _) => apply py_only_normalize_deg
  | |- py_only (zodiac_sign_and_pos _) => apply py_only_zodiac
  | |- py_only (round_to_arcminute _) => apply py_only_round_to_arcminute
  | |- py_only (cusp_entry _ _) => apply py_only_cusp_entry
  | |- py_only (py_float _) => apply py_only_py_float
  | |- py_only (math_floor _) => apply py_only_math_floor
  end.

Lemma io_bind_failure {A B} (m : io A) (k : A -> io B) t e :
  (m ≫= k) = (t, Raise e) ->
  m = (t, Raise e) \/
  exists t1 a t2, m = (t1, Ok a) /\ k a = (t2, Raise e) /\ t = t1 ++ t2.
Proof.
  destruct m as [t1 [a|e1]]; unfold mbind, io_bind.
  - destruct (k a) as [t2 r] eqn:E. intros [= <- ->]. right. eauto 6.
  - intros [= <- <-]. now left.
Qed.

Section Errors.
Context (w : world) (Hlib : libraries_py_only w).

Lemma py_only_local_to_utc y mo d h mi name :
  py_only (local_to_utc w y mo d h mi name).2.
Proof.
  unfold local_to_utc. repeat py_only_step; apply Hlib.
Qed.

Lemma py_only_julian_day_ut dt : py_only (julian_day_ut w dt).2.
Proof. unfold julian_day_ut. repeat py_only_step. apply Hlib. Qed.

Lemma py_only_house_for_longitude jd lat lon ecl houses ascmc :
  py_only (house_for_longitude w jd lat lon ecl houses ascmc).2.
Proof. unfold house_for_longitude. repeat py_only_step; apply Hlib. Qed.

Lemma py_only_planet_entry jd lat lon houses ascmc body :
  py_only (planet_entry w jd lat lon houses ascmc body).2.
Proof.
  unfold planet_entry. repeat py_only_step;
    first [apply Hlib | apply py_only_house_for_longitude].
Qed.

(** How [chart] can fail: in the geocoder, in the timezone resolver, or
    later, and then with no [HTTPException]. *)
Lemma chart_failure req t e :
  chart w req = (t, Raise e) ->
  geocode_location w (location_query req) = (t, Raise e) \/
  (exists t1 lat lon raw t2,
     geocode_location w (location_query req) = (t1, Ok (lat, lon, raw)) /\
     resolve_timezone_name w lat lon = (t2, Raise e) /\ t = t1 ++ t2) \/
  is_http e = false.
Proof.
  unfold chart. intros H.
  apply io_bind_failure in H as [H|(t1 & [[lat lon] raw] & t1' & Hg & H & ->)];
    [now left|right].
  apply io_bind_failure in H as [H|(t2 & tz & t2' & Htz & H & ->)];
    [left; exists t1, lat, lon, raw, t1'; auto|right].
  match type of H with ?m = _ => assert (Hpy : py_only m.2) end.
  { repeat py_only_step;
      first [ apply Hlib | apply py_only_local_to_utc | apply py_only_julian_day_ut
            | idtac ].
    - apply py_only_for_each. intros [name body] acc _.
      repeat py_only_step. apply py_only_planet_entry.
    - apply py_only_for_each. intros [i x] acc _. repeat py_only_step. }
  rewrite H in Hpy. exact Hpy.
Qed.

End Errors.

Section ChartFacts.
Context (w : world).

Lemma julian_day_ut_ok dt t jd :
  julian_day_ut w dt = (t, Ok jd) ->
  exists ut, ut_hours (dt_hour dt) (dt_minute dt) (dt_second dt) = Ok ut /\
    swe_julday w (dt_year dt) (dt_month dt) (dt_day dt) ut = Ok jd /\
    t = [EvJulday (dt_year dt) (dt_month dt) (dt_day dt) ut].
Proof.
  intros H. unfold julian_day_ut in H.
  apply io_bind_inv in H as (? & fh & ? & H1 & H & ->). apply lift_inv in H1 as [H1 ->].
  apply io_bind_inv in H as (? & fm & ? & H2 & H & ->). apply lift_inv in H2 as [H2 ->].
  apply io_bind_inv in H as (? & fs & ? & H3 & H & ->). apply lift_inv in H3 as [H3 ->].
  cbv zeta in H. apply call_inv in H as [H ->].
  exists (fh + fm / 60 + fs / 3600)%float. unfold ut_hours. rewrite H1, H2, H3. auto.
Qed.

(** Where the obliquity of a house lookup comes from. *)
Lemma house_for_longitude_obliq jd lat lon ecl houses ascmc t h :
  house_for_longitude w jd lat lon ecl houses ascmc = (t, Ok h) ->
  exists armc obliq,
    list_getitem ascmc 2 = Ok armc /\
    (if decide (9 < Z.of_nat (length ascmc)) then list_getitem ascmc 9 = Ok obliq
     else exists xx retflag,
            swe_calc_ut w jd (swe_ECL_NUT w) (FLAGS w) = Ok (xx, retflag) /\
            list_getitem xx 0 = Ok obliq) /\
    t = (if decide (9 < Z.of_nat (length ascmc)) then []
         else [EvCalcUt jd (swe_ECL_NUT w) (FLAGS w)])
        ++ [EvHousePos armc lat obliq ecl HOUSE_SYSTEM].
Proof.
  unfold house_for_longitude. intros H.
  apply io_bind_inv in H as (t1 & obliq & t2 & Ho & H & ->).
  apply io_bind_inv in H as (t3 & armc & t4 & Ha & H & ->).
  apply io_bind_inv in H as (t5 & hpos & t6 & Hp & H & ->).
  apply io_bind_inv in H as (t7 & fl & t8 & Hf & H & ->).
  apply io_ret_inv in H as [<- ->].
  apply lift_inv in Ha as [Ha ->]. apply call_inv in Hp as [Hp ->].
  apply lift_inv in Hf as [Hf ->].
  exists armc, obliq. split; [exact Ha|].
  case_decide as Hlen.
  - apply lift_inv in Ho as [Ho ->]. auto.
  - apply io_bind_inv in Ho as (t9 & [xx rf] & t10 & Hc & Ho & ->).
    apply call_inv in Hc as [Hc ->]. apply lift_inv in Ho as [Ho ->].
    split; [eauto|reflexivity].
Qed.

(** The calls of one turn. *)
Lemma planet_entry_calls jd lat lon houses ascmc body t e :
  planet_entry w jd lat lon houses ascmc body = (t, Ok e) ->
  exists armc obliq,
    list_getitem ascmc 2 = Ok armc /\
    (if decide (9 < Z.of_nat (length ascmc)) then list_getitem ascmc 9 = Ok obliq
     else exists xx retflag,
            swe_calc_ut w jd (swe_ECL_NUT w) (FLAGS w) = Ok (xx, retflag) /\
            list_getitem xx 0 = Ok obliq) /\
    t = body_calls w jd lat ascmc armc obliq body (p_lon_deg e).
Proof.
  intros H.
  apply planet_entry_ok in H
    as (xx & rf & res0 & speed & pos & th & _ & _ & _ & _ & _ & _ & _ & Hh & ->).
  apply house_for_longitude_obliq in Hh as (armc & obliq & Ha & Ho & ->).
  exists armc, obliq. auto.
Qed.

End ChartFacts.

(** ** Adding a full circle *)











(** * Further properties of the code *)

(** ** Angles *)

(** X1. [normalize_deg] never fails on a finite angle.  Its result is
    finite, not negative (never [-0.0]) and at most [360.0]: for [0 <= L] it
    is the exact remainder, below 360; for [L < 0] with a C remainder
    [rem < 0] it is a binary64 nearest to [360 + rem] (no binary64 is
    closer, so it is within [2^-45] of it); and it is [360.0] itself exactly
    when [-2^-45 <= rem < 0]. *)
Theorem normalize_deg_range (L : float) :
  SF_finite (Prim2SF L) = true ->
  let rem := Z.rem (float_val L) (360 * ONE) in
  exists r, normalize_deg L = Ok r /\ SF_nonneg (Prim2SF r) = true /\
    0 <= float_val r <= 360 * ONE /\
    (float_val r = 360 * ONE <-> - 2 ^ 1029 <= rem < 0) /\
    (0 <= float_val L -> float_val r = float_val L mod (360 * ONE)) /\
    (rem < 0 ->
     (forall y : float, SF_finite (Prim2SF y) = true ->
        Z.abs (float_val r - (360 * ONE + rem))
        <= Z.abs (float_val y - (360 * ONE + rem))) /\
     - 2 ^ 1030 <= 2 * (float_val r - (360 * ONE + rem)) <= 2 ^ 1030).
Proof.
  intros FL rem.
  destruct (normalize_deg_finite L FL) as (r & Hr & Nr & Hb & Hiff).
  exists r. repeat (split; [assumption|]). split.
  - intros Hpos. destruct (normalize_deg_nonneg L FL Hpos) as (r' & Hr' & _ & Vr & _).
    rewrite Hr in Hr'. now injection Hr' as <-.
  - intros Hneg. pose proof ONE_pos.
    assert (HL : float_val L < 0).
    { destruct (Z_lt_ge_dec (float_val L) 0) as [|Hge]; [assumption|].
      subst rem. rewrite Z.rem_mod_nonneg in Hneg by lia.
      pose proof (Z.mod_pos_bound (float_val L) (360 * ONE) ltac:(lia)). lia. }
    destruct (normalize_deg_neg L FL HL) as [_ Hn].
    destruct (Hn Hneg) as (r' & Hr' & _ & _ & _ & Hnear & Hall).
    rewrite Hr in Hr'. injection Hr' as <-. split; [|exact Hnear].
    intros y _. apply Hall.
Qed.

Lemma normalize_deg_range_witness :
  exists r, normalize_deg (-0x1p-45) = Ok r /\ float_val r = 360 * ONE.
Proof.
  destruct (normalize_deg_range (-0x1p-45) eq_refl) as (r & Hr & _ & _ & Hiff & _).
  exists r. split; [exact Hr|]. apply Hiff.
  split; [apply Z.leb_le|apply Z.ltb_lt]; vm_compute; reflexivity.
Defined.

(** X2. [zodiac_sign_and_pos] on every binary64 input.  NaN and the
    infinities end in the [ValueError] of [int()].  A finite angle whose C
    remainder by 360 is in [[-2^-45, 0)] is normalized to [360.0], indexes
    [SIGNS] at 12 and ends in an [IndexError].  Every other finite angle
    gives the sign [SIGNS[floor(lon / 30)]] and the exact offset
    [lon - 30 * floor(lon / 30)] of its normalized longitude [lon]. *)
Theorem zodiac_sign_and_pos_domain (L : float) :
  (SF_finite (Prim2SF L) = false ->
   zodiac_sign_and_pos L = Raise (PyExc "ValueError" "cannot convert float NaN to integer")) /\
  (SF_finite (Prim2SF L) = true ->
   - 2 ^ 1029 <= Z.rem (float_val L) (360 * ONE) < 0 ->
   normalize_deg L = Ok 360%float /\
   zodiac_sign_and_pos L = Raise (PyExc "IndexError" "list index out of range")) /\
  (SF_finite (Prim2SF L) = true ->
   ~ (- 2 ^ 1029 <= Z.rem (float_val L) (360 * ONE) < 0) ->
   exists lon sign pos,
     normalize_deg L = Ok lon /\ zodiac_sign_and_pos L = Ok (sign, pos) /\
     SF_nonneg (Prim2SF lon) = true /\ float_val lon < 360 * ONE /\
     SIGNS !! Z.to_nat (float_val lon / (30 * ONE)) = Some sign /\
     SF_nonneg (Prim2SF pos) = true /\
     float_val pos = float_val lon mod (30 * ONE) /\
     0 <= float_val pos < 30 * ONE).
Proof.
  destruct (zodiac_sign_and_pos_cases L) as (H1 & H2 & H3).
  split; [exact H1|]. split; [exact H2|].
  intros FL Hband.
  destruct (H3 FL Hband) as (lon & sign & pos & Hn & Hz & Nl & Hlt & Hs & Np & Vp).
  exists lon, sign, pos. repeat (split; [assumption|]).
  pose proof ONE_pos. rewrite Vp. apply Z.mod_pos_bound. lia.
Qed.

(** X3. For [0 <= p < 30] the pair [(d, m)] that [round_to_arcminute]
    returns, read as [60 * d + m] arcminutes, is less than one arcminute
    below [60 * p] and at most half an arcminute and [2^-48] above it; unless
    the pair is [(29, 59)], it is also at most half an arcminute and [2^-48]
    below. *)
Theorem round_to_arcminute_accuracy (p : float) :
  (0 <=? p)%float = true -> (p <? 30)%float = true ->
  exists d m, round_to_arcminute p = Ok (d, m) /\
    0 <= d <= 29 /\ 0 <= m <= 59 /\
    - ONE < (60 * d + m) * ONE - 60 * float_val p <= 2 ^ 1073 + 2 ^ 1026 /\
    ((d, m) <> (29, 59) ->
     - (2 ^ 1073 + 2 ^ 1026) <= (60 * d + m) * ONE - 60 * float_val p).
Proof. apply round_to_arcminute_error. Qed.

Lemma round_to_arcminute_accuracy_witness :
  exists d m, round_to_arcminute 0x1.8b0a3d70a3d71p+3 = Ok (d, m) /\
    0 <= d <= 29 /\ 0 <= m <= 59 /\
    - ONE < (60 * d + m) * ONE - 60 * float_val 0x1.8b0a3d70a3d71p+3
      <= 2 ^ 1073 + 2 ^ 1026 /\
    ((d, m) <> (29, 59) ->
     - (2 ^ 1073 + 2 ^ 1026)
     <= (60 * d + m) * ONE - 60 * float_val 0x1.8b0a3d70a3d71p+3).
Proof. apply (round_to_arcminute_accuracy 0x1.8b0a3d70a3d71p+3); reflexivity. Defined.

(** X4. Formatting a longitude, as the chart does it: whenever
    [zodiac_sign_and_pos] returns on [x], [round_to_arcminute] returns on
    the position it gave, and the sign, degree and minute are those of the
    normalized longitude: the sign it falls in, the degree in [[0, 29]], the
    minute in [[0, 59]], and read back they are within one arcminute of
    it. *)
Theorem zodiac_then_round (x : float) sign pos :
  zodiac_sign_and_pos x = Ok (sign, pos) ->
  exists d m lon,
    round_to_arcminute pos = Ok (d, m) /\ normalize_deg x = Ok lon /\
    formats sign d m lon.
Proof.
  intros Hz. pose proof ONE_pos as HONE.
  destruct (zodiac_ok_facts x sign pos Hz) as (_ & lon & Hn & Nl & Hlt & Hs & Np & Vp).
  pose proof (Z.mod_pos_bound (float_val lon) (30 * ONE) ltac:(lia)) as Hmb.
  destruct (pos_in_sign_bools pos Np ltac:(lia)) as [H0 H30].
  destruct (round_to_arcminute_error pos H0 H30) as (d & m & Hr & _).
  destruct (format_of_longitude x sign pos d m Hz Hr) as (lon' & Hn' & Hf).
  exists d, m, lon'. auto.
Qed.

Lemma zodiac_then_round_witness :
  exists d m lon,
    round_to_arcminute 0x1.ep+3 = Ok (d, m) /\ normalize_deg (-0x1.59p+8) = Ok lon /\
    formats "Aries" d m lon.
Proof. apply (zodiac_then_round (-0x1.59p+8) "Aries" 0x1.ep+3). reflexivity. Defined.

(** X17. Normalizing twice: for a finite angle the second [normalize_deg]
    always lands in [[0, 360)].  It returns what the first one returned,
    except that the [360.0] of the first becomes [0.0]. *)
Theorem normalize_deg_twice (L : float) :
  SF_finite (Prim2SF L) = true ->
  exists r r', normalize_deg L = Ok r /\ normalize_deg r = Ok r' /\
    SF_nonneg (Prim2SF r') = true /\ 0 <= float_val r' < 360 * ONE /\
    (float_val r < 360 * ONE -> r' = r) /\
    (float_val r = 360 * ONE -> r' = 0%float).
Proof.
  intros FL. pose proof ONE_pos as HONE.
  destruct (normalize_deg_finite L FL) as (r & Hr & Nr & Hb & _).
  destruct (normalize_deg_nonneg r (SF_nonneg_finite _ Nr) ltac:(lia))
    as (r' & Hr' & Nr' & Vr' & Hb').
  exists r, r'. repeat (split; [assumption|]). split.
  - intros Hlt. apply Prim2SF_inj. apply SF_nonneg_inj; auto using Prim2SF_valid.
    fold (float_val r') (float_val r). rewrite Vr'. apply Z.mod_small. lia.
  - intros Heq. apply Prim2SF_inj. apply SF_nonneg_inj; auto using Prim2SF_valid.
    fold (float_val r'). rewrite Vr', Heq, Z.mod_same by lia. reflexivity.
Qed.

Lemma normalize_deg_twice_witness :
  exists r r', normalize_deg (-0x1p-50) = Ok r /\ normalize_deg r = Ok r' /\
    SF_nonneg (Prim2SF r') = true /\ 0 <= float_val r' < 360 * ONE /\
    (float_val r < 360 * ONE -> r' = r) /\
    (float_val r = 360 * ONE -> r' = 0%float).
Proof. apply (normalize_deg_twice (-0x1p-50)). reflexivity. Defined.

(** ** The Julian day *)

(** X5. For a datetime whose clock fields are in range, [julian_day_ut]
    makes exactly one call, [swe.julday], with the datetime's own year,
    month and day and the hour fraction [ut], and returns what the call
    returns.  [ut] is finite, in [[0, 24)], and within [2^-48] hours of the
    exact fraction [(3600 * hour + 60 * minute + second) / 3600]. *)
Theorem julian_day_ut_call (w : world) (dt : datetime) :
  0 <= dt_hour dt <= 23 -> 0 <= dt_minute dt <= 59 -> 0 <= dt_second dt <= 59 ->
  exists ut,
    ut_hours (dt_hour dt) (dt_minute dt) (dt_second dt) = Ok ut /\
    julian_day_ut w dt
    = ([EvJulday (dt_year dt) (dt_month dt) (dt_day dt) ut],
       swe_julday w (dt_year dt) (dt_month dt) (dt_day dt) ut) /\
    SF_finite (Prim2SF ut) = true /\ 0 <= float_val ut < 24 * ONE /\
    - (3600 * 2 ^ 1026)
    <= 3600 * float_val ut
       - (3600 * dt_hour dt + 60 * dt_minute dt + dt_second dt) * ONE
    <= 3600 * 2 ^ 1026.
Proof.
  intros Hh Hm Hs.
  destruct (ut_hours_spec _ _ _ Hh Hm Hs) as (ut & Hut & Nu & Hr & Hacc).
  exists ut. split; [exact Hut|]. split; [now apply julian_day_ut_hours|].
  split; [now apply SF_nonneg_finite|]. auto.
Qed.

Lemma julian_day_ut_call_witness :
  exists ut,
    ut_hours 11 0 0 = Ok ut /\
    julian_day_ut (sample_world greenwich 0.5)
      {| dt_year := 1990; dt_month := 6; dt_day := 15; dt_hour := 11; dt_minute := 0;
         dt_second := 0; dt_isoformat := "UTC" |}
    = ([EvJulday 1990 6 15 ut], Ok 2448057.95703125%float) /\
    SF_finite (Prim2SF ut) = true /\ 0 <= float_val ut < 24 * ONE /\
    - (3600 * 2 ^ 1026)
    <= 3600 * float_val ut - (3600 * 11 + 60 * 0 + 0) * ONE
    <= 3600 * 2 ^ 1026.
Proof.
  apply (julian_day_ut_call (sample_world greenwich 0.5)
           {| dt_year := 1990; dt_month := 6; dt_day := 15; dt_hour := 11;
              dt_minute := 0; dt_second := 0; dt_isoformat := "UTC" |});
    cbn; lia.
Defined.

(** X6. The hour fraction keeps the order of the times of day: a later
    second of the day gives a strictly larger [ut], so no two seconds of a
    day are given the same Julian-day argument. *)
Theorem ut_hours_strictly_increasing (h m s h' m' s' : Z) (ut ut' : float) :
  0 <= h <= 23 -> 0 <= m <= 59 -> 0 <= s <= 59 ->
  0 <= h' <= 23 -> 0 <= m' <= 59 -> 0 <= s' <= 59 ->
  ut_hours h m s = Ok ut -> ut_hours h' m' s' = Ok ut' ->
  3600 * h + 60 * m + s < 3600 * h' + 60 * m' + s' ->
  (ut <? ut')%float = true.
Proof.
  intros Hh Hm Hs Hh' Hm' Hs' E E' Hlt.
  destruct (ut_hours_spec h m s Hh Hm Hs) as (u & Eu & Nu & _ & Hu).
  destruct (ut_hours_spec h' m' s' Hh' Hm' Hs') as (u' & Eu' & Nu' & _ & Hu').
  rewrite E in Eu. injection Eu as <-. rewrite E' in Eu'. injection Eu' as <-.
  rewrite ltb_val by now apply SF_nonneg_finite. apply Z.ltb_lt.
  assert (H1 : ONE = 2 ^ 48 * 2 ^ 1026) by (vm_compute; reflexivity).
  assert (P : 0 < 2 ^ 1026) by (vm_compute; reflexivity).
  rewrite H1 in Hu, Hu'. change (2 ^ 48) with 281474976710656 in *.
  set (c := 2 ^ 1026) in *. clearbody c. nia.
Qed.

Lemma ut_hours_strictly_increasing_witness :
  (0x1.7ffdb97530ecbp+4 <? 0x1.7ffedcba98766p+4)%float = true.
Proof.
  apply (ut_hours_strictly_increasing 23 59 58 23 59 59); try lia; reflexivity.
Defined.

(** ** The geocoder *)

Lemma sample_world_py_only results hpos : libraries_py_only (sample_world results hpos).
Proof. constructor; intros; cbn; auto. injection H as <-. cbn. auto. Qed.

Lemma checked_world_py_only base exact near :
  libraries_py_only base -> libraries_py_only (checked_world base exact near).
Proof.
  intros [].
  constructor; cbn; auto; intros lat lon; unfold checked_lookup;
    destruct (out_of_bounds lat lon); cbn; auto.
Qed.

(** X7. [geocode_location] lets no error of its providers through as it
    is.  When it fails, both providers were called, the primary first, and
    the error is an [HTTPException]; with libraries that raise only their
    own errors it is the 404 for an empty result or a 502 whose detail
    quotes the provider's error. *)
Theorem geocode_location_raises (w : world) (query : string) t e :
  geocode_location w query = (t, Raise e) ->
  t = [EvNominatim query true; EvRequestsGet open_meteo_url (open_meteo_params query) 10] /\
  is_http e = true /\
  (libraries_py_only w ->
   e = HTTPException 404 "Location not found. Try 'City, State, Country'." \/
   exists msg, e = HTTPException 502 ("Geocoding error: " +:+ msg)).
Proof. apply geocode_location_failure. Qed.

Lemma geocode_location_raises_witness :
  [EvNominatim "Atlantis" true;
   EvRequestsGet open_meteo_url (open_meteo_params "Atlantis") 10]
  = [EvNominatim "Atlantis" true;
     EvRequestsGet open_meteo_url (open_meteo_params "Atlantis") 10] /\
  is_http (HTTPException 404 "Location not found. Try 'City, State, Country'.") = true /\
  (libraries_py_only (sample_world (JList []) 0.5) ->
   HTTPException 404 "Location not found. Try 'City, State, Country'."
   = HTTPException 404 "Location not found. Try 'City, State, Country'." \/
   exists msg, HTTPException 404 "Location not found. Try 'City, State, Country'."
               = HTTPException 502 ("Geocoding error: " +:+ msg)).
Proof.
  apply (geocode_location_raises (sample_world (JList []) 0.5) "Atlantis"). reflexivity.
Defined.

(** X8. The fallback's answer is read off its first result only: the
    coordinates are [float()] of that result's ["latitude"] and
    ["longitude"], and the third component holds the result itself under
    ["raw"], tagged with the source.  A first result without a latitude is
    a [KeyError], which comes out as a 502 quoting the key. *)
Theorem geocode_location_first_result (w : world) (query : string) resp kv b rest :
  (nominatim_geocode w query true = Ok None \/
   exists e, nominatim_geocode w query true = Raise e) ->
  requests_get w open_meteo_url (open_meteo_params query) 10 = Ok resp ->
  raise_for_status resp = Ok () ->
  response_json resp = Ok (JDict kv) ->
  kv !! "results" = Some (JList (JDict b :: rest)) ->
  let calls := [EvNominatim query true;
                EvRequestsGet open_meteo_url (open_meteo_params query) 10] in
  (forall vlat vlon lat lon,
     b !! "latitude" = Some vlat -> b !! "longitude" = Some vlon ->
     json_float w vlat = Ok lat -> json_float w vlon = Ok lon ->
     geocode_location w query
     = (calls, Ok (lat, lon, JDict (<["source" := JStr "open-meteo"]>
                                      (<["raw" := JDict b]> ∅))))) /\
  (b !! "latitude" = None ->
   geocode_location w query
   = (calls, Raise (HTTPException 502 "Geocoding error: 'latitude'"))).
Proof.
  intros Hmiss Hget Hst Hjs Hres calls.
  destruct (geocode_location_cases w query) as [(loc & E & _)|[_ E]].
  { destruct Hmiss as [H|[e H]]; rewrite H in E; discriminate. }
  rewrite E. split.
  - intros vlat vlon lat lon Hlat Hlon Hflat Hflon.
    rewrite (geocode_fallback_first w query resp kv (JDict b) rest b vlat vlon lat lon);
      auto.
  - intros Hn.
    rewrite (geocode_fallback_missing w query resp kv (JDict b) rest b "latitude"); auto.
Qed.

Lemma geocode_location_first_result_witness :
  geocode_location (sample_world greenwich 0.5) "Greenwich, UK"
  = ([EvNominatim "Greenwich, UK" true;
      EvRequestsGet open_meteo_url (open_meteo_params "Greenwich, UK") 10],
     Ok (51.5%float, 0%float,
         JDict (<["source" := JStr "open-meteo"]>
                  (<["raw" := JDict (<["latitude" := JFloat 51.5]>
                                       (<["longitude" := JInt 0]> ∅))]> ∅)))).
Proof.
  refine (proj1 (geocode_location_first_result (sample_world greenwich 0.5)
                   "Greenwich, UK" _ _ _ [] _ eq_refl eq_refl eq_refl eq_refl)
            (JFloat 51.5) (JInt 0) 51.5%float 0%float eq_refl eq_refl eq_refl eq_refl).
  left. reflexivity.
Defined.

(** ** The time normalizer *)

(** X9. [local_to_utc] asks the zone database once; [tzdata] is imported
    only after that lookup failed, and then the database is asked once
    more.  A failure of the import, of the second lookup or of the
    [datetime] constructor (an impossible date, after the first lookup or
    after the retry) comes out as it is, before any conversion is tried.  On success the local datetime was built in
    the zone found and the UTC datetime is its conversion. *)
Theorem local_to_utc_zone_retry (w : world) (y mo d h mi : Z) (name : string) :
  (forall t l u,
     local_to_utc w y mo d h mi name = (t, Ok (l, u)) ->
     exists tz utc tz_events,
       (ZoneInfo w name = Ok tz /\ tz_events = [EvZoneInfo name] \/
        (exists e, ZoneInfo w name = Raise e) /\ import_tzdata w = Ok () /\
        ZoneInfo_retry w name = Ok tz /\
        tz_events = [EvZoneInfo name; EvImportTzdata; EvZoneInfo name]) /\
       datetime_new w y mo d h mi tz = Ok l /\
       ZoneInfo w "UTC" = Ok utc /\
       astimezone w l utc = Ok u /\
       t = tz_events ++ [EvDatetime y mo d h mi; EvZoneInfo "UTC"; EvAstimezone utc]) /\
  (forall e e',
     ZoneInfo w name = Raise e -> import_tzdata w = Raise e' ->
     local_to_utc w y mo d h mi name = ([EvZoneInfo name; EvImportTzdata], Raise e')) /\
  (forall e e',
     ZoneInfo w name = Raise e -> import_tzdata w = Ok () ->
     ZoneInfo_retry w name = Raise e' ->
     local_to_utc w y mo d h mi name
     = ([EvZoneInfo name; EvImportTzdata; EvZoneInfo name], Raise e')) /\
  (forall tz e,
     ZoneInfo w name = Ok tz -> datetime_new w y mo d h mi tz = Raise e ->
     local_to_utc w y mo d h mi name
     = ([EvZoneInfo name; EvDatetime y mo d h mi], Raise e)) /\
  (forall e tz e',
     ZoneInfo w name = Raise e -> import_tzdata w = Ok () ->
     ZoneInfo_retry w name = Ok tz -> datetime_new w y mo d h mi tz = Raise e' ->
     local_to_utc w y mo d h mi name
     = ([EvZoneInfo name; EvImportTzdata; EvZoneInfo name; EvDatetime y mo d h mi],
        Raise e')).
Proof.
  destruct (zone_lookup_cases w name) as (H1 & H2 & H3). cbv zeta in H1, H2, H3.
  split; [intros t l u; apply local_to_utc_ok|]. split; [|split; [|split]].
  - intros e e' Hz Hi. unfold local_to_utc. rewrite (H2 e e' Hz Hi). reflexivity.
  - intros e e' Hz Hi Hr. unfold local_to_utc. rewrite (H3 e Hz Hi), Hr. reflexivity.
  - intros tz e. apply local_to_utc_bad_date.
  - intros e tz e' Hz Hi Hr Hd. unfold local_to_utc.
    rewrite (H3 e Hz Hi), Hr, io_bind_ok. unfold call. rewrite Hd. reflexivity.
Qed.

(** ** The house of a longitude *)

(** X10. Whenever [house_for_longitude] returns, the house is in
    [[1, 12]]: the floor of a finite house position, clamped.  The ARMC is
    entry 2 of [ascmc]; when [ascmc] has more than nine entries the
    obliquity is entry 9 and the only call is [swe.house_pos]; otherwise the
    obliquity is asked from [swe.calc_ut] first.  With fewer than three
    entries the function raises without asking for a house position. *)
Theorem house_for_longitude_calls (w : world) (jd lat lon ecl : float)
    (houses ascmc : list float) :
  (forall t h,
     house_for_longitude w jd lat lon ecl houses ascmc = (t, Ok h) ->
     1 <= h <= 12 /\
     exists armc obliq hpos,
       list_getitem ascmc 2 = Ok armc /\
       swe_house_pos w armc lat obliq (ecl, 0%float) HOUSE_SYSTEM = Ok hpos /\
       SF_finite (Prim2SF hpos) = true /\
       h = Z.max 1 (Z.min 12 (float_val hpos / ONE)) /\
       (9 < Z.of_nat (length ascmc) /\ list_getitem ascmc 9 = Ok obliq /\
        t = [EvHousePos armc lat obliq ecl HOUSE_SYSTEM] \/
        Z.of_nat (length ascmc) <= 9 /\
        t = [EvCalcUt jd (swe_ECL_NUT w) (FLAGS w);
             EvHousePos armc lat obliq ecl HOUSE_SYSTEM])) /\
  ((length ascmc < 3)%nat ->
   exists t e, house_for_longitude w jd lat lon ecl houses ascmc = (t, Raise e) /\
               house_pos_lons t = []).
Proof.
  split; [intros t h; apply house_for_longitude_ok|apply house_for_longitude_short].
Qed.

(** ** The chart *)

(** X11. The cusp loop normalizes a cusp twice, once itself and once inside
    [zodiac_sign_and_pos], so its turn fails on no finite longitude.  The
    entry holds the longitude normalized once, in [[0, 360]], and the sign,
    degree and minute of that value normalized again.  For the negative
    longitudes that the first normalization rounds up to [360.0] the entry
    reads Aries 0 deg 0 min beside a longitude of [360.0]. *)
Theorem cusp_entry_never_fails (i : Z) (x : float) :
  SF_finite (Prim2SF x) = true ->
  exists c, cusp_entry i x = Ok c /\ c_house c = i /\
    normalize_deg x = Ok (c_lon_deg c) /\
    0 <= float_val (c_lon_deg c) <= 360 * ONE /\
    (exists lon', normalize_deg (c_lon_deg c) = Ok lon' /\
                  formats (c_sign c) (c_deg c) (c_min c) lon') /\
    (- 2 ^ 1029 <= Z.rem (float_val x) (360 * ONE) < 0 ->
     c = {| c_house := i; c_sign := "Aries"; c_deg := 0; c_min := 0;
            c_lon_deg := 360 |}).
Proof.
  intros Fx. destruct (cusp_entry_finite i x Fx) as (c & Hc & Hband).
  destruct (cusp_entry_ok i x c Hc) as (_ & Hi & Hn & _ & Hb & Hf).
  exists c. auto 10.
Qed.

Lemma cusp_entry_never_fails_witness :
  exists c, cusp_entry 1 (-0x1p-50) = Ok c /\ c_house c = 1 /\
    normalize_deg (-0x1p-50) = Ok (c_lon_deg c) /\
    0 <= float_val (c_lon_deg c) <= 360 * ONE /\
    (exists lon', normalize_deg (c_lon_deg c) = Ok lon' /\
                  formats (c_sign c) (c_deg c) (c_min c) lon') /\
    (- 2 ^ 1029 <= Z.rem (float_val (-0x1p-50)) (360 * ONE) < 0 ->
     c = {| c_house := 1; c_sign := "Aries"; c_deg := 0; c_min := 0;
            c_lon_deg := 360 |}).
Proof. apply (cusp_entry_never_fails 1 (-0x1p-50)). reflexivity. Defined.

(** The cusp loop makes one entry per cusp, in order. *)
Lemma cusps_loop_entries l : forall i acc out,
  (for_each (enumerate i l) acc
     (fun '(i, cusp_lon) cusps_out =>
        c ← lift (cusp_entry i cusp_lon); mret (cusps_out ++ [c]))).2 = Ok out ->
  exists new, out = acc ++ new /\
    Forall2 (fun x c => exists j, cusp_entry j x = Ok c) l new.
Proof.
  induction l as [|x l IH]; intros i acc out H.
  - injection H as <-. exists []. rewrite app_nil_r. split; [reflexivity|constructor].
  - cbn [enumerate for_each] in H. unfold lift in H.
    destruct (cusp_entry i x) as [c|e] eqn:E; [|discriminate].
    rewrite io_bind_ok in H. unfold mret, io_ret in H. cbn [fst snd app] in H.
    rewrite io_bind_ok in H. cbn [snd] in H.
    destruct (IH _ _ _ H) as (new & -> & Hall).
    exists (c :: new). rewrite <- app_assoc. split; [reflexivity|].
    constructor; [eauto|exact Hall].
Qed.

Lemma NoDup_planets w : NoDup (PLANETS w).*1.
Proof. apply (bool_decide_unpack (NoDup body_names)). vm_compute. exact I. Qed.

Section ChartTheorems.
Context (w : world).

(** X12. In every successful run of [chart], whatever the ephemeris
    returned: both angles carry a longitude in [[0, 360)] and the sign,
    degree ([0..29]) and minute ([0..59]) of that longitude; every cusp and
    every planet carries a longitude in [[0, 360]] (360 included) and the
    sign, degree and minute of that longitude normalized once more; every
    planet's house is in [[1, 12]]. *)
Theorem chart_positions (req : ChartRequest) t r :
  chart w req = (t, Ok r) ->
  formats (a_sign (ASC r)) (a_deg (ASC r)) (a_min (ASC r)) (a_lon_deg (ASC r)) /\
  formats (a_sign (MC r)) (a_deg (MC r)) (a_min (MC r)) (a_lon_deg (MC r)) /\
  Forall (fun c =>
            0 <= float_val (c_lon_deg c) <= 360 * ONE /\
            exists lon', normalize_deg (c_lon_deg c) = Ok lon' /\
                         formats (c_sign c) (c_deg c) (c_min c) lon')
         (house_cusps r) /\
  (forall name p, planets r !! name = Some p ->
     0 <= float_val (p_lon_deg p) <= 360 * ONE /\
     (exists lon', normalize_deg (p_lon_deg p) = Ok lon' /\
                   formats (p_sign p) (p_deg p) (p_min p) lon') /\
     1 <= p_house p <= 12).
Proof.
  intros H.
  apply chart_run in H
    as (lat & lon & raw & tz & local_dt & utc_dt & jd & houses & ascmc & asc & mc
        & asc_pos & mc_pos & t1 & t2 & t3 & t4 & t6
        & _ & _ & _ & _ & _ & _ & _ & Hp & Haz & Har & Hmz & Hmr & Hc & Hal & Hml & _).
  split; [|split; [|split]].
  - destruct (format_of_longitude _ _ _ _ _ Haz Har) as (l' & Hn & Hf).
    rewrite Hal in Hn. now injection Hn as <-.
  - destruct (format_of_longitude _ _ _ _ _ Hmz Hmr) as (l' & Hn & Hf).
    rewrite Hml in Hn. now injection Hn as <-.
  - eapply cusps_loop_forall; [|constructor|exact Hc].
    intros i x c Hx. destruct (cusp_entry_ok i x c Hx) as (_ & _ & _ & _ & Hb & Hf). auto.
  - intros name p Hlook.
    destruct (planets_loop _ _ _ _ _ (NoDup_planets w) Hp) as (_ & Hdom & Hall).
    assert (Hin : name ∈ (PLANETS w).*1).
    { apply (elem_of_dom_2 (planets r)) in Hlook. rewrite Hdom in Hlook.
      rewrite dom_empty_L, (left_id_L ∅ (∪)) in Hlook.
      now apply elem_of_list_to_set in Hlook. }
    apply list_elem_of_fmap in Hin as ([n b] & -> & Hin).
    destruct (Hall n b Hin) as (t' & e & He & Hl). cbn in Hlook.
    rewrite Hl in Hlook. injection Hlook as <-.
    destruct (planet_entry_ranges w _ _ _ _ _ _ _ _ He) as (_ & Hb & Hf & Hh). auto.
Qed.


(** X13. The HTTP errors of [chart].  With libraries that raise only their
    own errors, an [HTTPException] out of [chart] is one of three: the 404
    or the 502 of the geocoder, after exactly the two geocoding calls, or
    the 422 of the timezone resolver, after the geocoding of a place and
    the two timezone lookups at its coordinates.  In each case the Swiss
    Ephemeris was not called.  Every later failure is a plain Python
    error. *)
Theorem chart_http_statuses (req : ChartRequest) t code detail :
  libraries_py_only w ->
  chart w req = (t, Raise (HTTPException code detail)) ->
  ((code = 404 /\ detail = "Location not found. Try 'City, State, Country'." \/
    code = 502 /\ exists msg, detail = "Geocoding error: " +:+ msg) /\
   t = [EvNominatim (location_query req) true;
        EvRequestsGet open_meteo_url (open_meteo_params (location_query req)) 10] \/
   code = 422 /\ detail = "Could not resolve timezone for this location." /\
   exists t1 lat lon raw,
     geocode_location w (location_query req) = (t1, Ok (lat, lon, raw)) /\
     t = t1 ++ [EvTimezoneAt lat lon; EvClosestTimezoneAt lat lon]) /\
  Forall (fun ev => is_swe_event ev = false) t.
Proof.
  intros Hlib H.
  apply (chart_failure w Hlib) in H
    as [H|[(t1 & lat & lon & raw & t2 & Hg & Htz & ->)|H]]; [| |discriminate].
  - pose proof (geocode_location_trace w _ _ _ H) as Ht.
    apply geocode_location_failure in H as (-> & _ & Hs). split; [|exact Ht].
    left. split; [|reflexivity].
    destruct (Hs Hlib) as [[= -> ->]|(msg & [= -> ->])]; [left|right]; eauto.
  - pose proof (geocode_location_trace w _ _ _ Hg) as Ht1.
    pose proof (resolve_timezone_name_trace w _ _ _ _ Htz) as Ht2.
    destruct (resolve_timezone_name_cases w lat lon) as (t' & r' & E & _ & Hr & _).
    rewrite Htz in E. injection E as <- <-.
    destruct (Hr _ eq_refl) as [[[= -> ->] ->]|[Hx|Hx]].
    + split; [|apply Forall_app; auto].
      right. repeat (split; [reflexivity|]). exists t1, lat, lon, raw. auto.
    + pose proof (py_tf_timezone_at w Hlib lat lon) as Hpy.
      rewrite Hx in Hpy. discriminate Hpy.
    + pose proof (py_tf_closest_timezone_at w Hlib lat lon) as Hpy.
      rewrite Hx in Hpy. discriminate Hpy.
Qed.

(** X14. The ephemeris calls of a successful run are exactly these, in
    this order: one [swe.julday], the first call into the ephemeris; one
    [swe.houses_ex] at the geocoded coordinates for the Julian day
    returned; then, body by body in the order of [PLANETS], one
    [swe.calc_ut] for the body, one [swe.calc_ut] for the obliquity unless
    [ascmc] has more than nine entries, and one [swe.house_pos] with the
    ARMC [ascmc[2]], that obliquity ([ascmc[9]] or the first number of the
    obliquity call) and the longitude the body is reported with.  Nothing
    follows the last body's calls. *)
Theorem chart_ephemeris_calls (req : ChartRequest) t r :
  chart w req = (t, Ok r) ->
  let jd := in_julian_day_ut (input r) in
  let lat := in_lat (input r) in
  let lon := in_lon (input r) in
  exists before y mo d ut houses ascmc armc turns,
    t = before ++ EvJulday y mo d ut :: EvHousesEx jd lat lon HOUSE_SYSTEM
               :: concat turns /\
    Forall (fun ev => is_swe_event ev = false) before /\
    swe_julday w y mo d ut = Ok jd /\
    swe_houses_ex w jd lat lon HOUSE_SYSTEM = Ok (houses, ascmc) /\
    list_getitem ascmc 2 = Ok armc /\
    Forall2 (fun (nb : string * Z) (turn : list event) =>
               exists p obliq,
                 planets r !! nb.1 = Some p /\
                 (if decide (9 < Z.of_nat (length ascmc))
                  then list_getitem ascmc 9 = Ok obliq
                  else exists xx retflag,
                         swe_calc_ut w jd (swe_ECL_NUT w) (FLAGS w) = Ok (xx, retflag) /\
                         list_getitem xx 0 = Ok obliq) /\
                 turn = body_calls w jd lat ascmc armc obliq nb.2 (p_lon_deg p))
            (PLANETS w) turns.
Proof.
  intros H. cbv zeta.
  apply chart_run in H
    as (lat & lon & raw & tz & local_dt & utc_dt & jd & houses & ascmc & asc & mc
        & asc_pos & mc_pos & t1 & t2 & t3 & t4 & t6
        & Hg & Htz & Hl & Hj & Hh & _ & _ & Hp & _ & _ & _ & _ & _ & _ & _ & Hin & ->).
  rewrite Hin. cbn [in_julian_day_ut in_lat in_lon].
  apply julian_day_ut_ok in Hj as (ut & _ & Hjd & ->).
  destruct (planets_loop_turns _ _ _ _ _ (NoDup_planets w) Hp) as (turns & Hturns & ->).
  assert (Harmc : exists armc, list_getitem ascmc 2 = Ok armc).
  { unfold PLANETS in Hturns. inversion Hturns as [|? [t0 e0] ? ? [He _] _]; subst.
    apply planet_entry_calls in He as (armc & _ & Ha & _). eauto. }
  destruct Harmc as [armc Harmc].
  exists (t1 ++ t2 ++ t3), (dt_year utc_dt), (dt_month utc_dt), (dt_day utc_dt), ut,
         houses, ascmc, armc, turns.*1.
  split; [now rewrite <- !app_assoc|].
  split.
  { apply Forall_app. split; [eapply geocode_location_trace, Hg|].
    apply Forall_app. split; [eapply resolve_timezone_name_trace, Htz|].
    apply local_to_utc_ok in Hl as (tz' & utc & evs & Hz & _ & _ & _ & ->).
    destruct Hz as [[_ ->]|(_ & _ & _ & ->)]; repeat constructor. }
  repeat (split; [assumption|]).
  apply Forall2_fmap_r. eapply Forall2_impl; [exact Hturns|].
  intros [n b] [tt e] [He Hl']. cbn in *.
  apply planet_entry_calls in He as (armc' & obliq & Ha & Ho & ->).
  rewrite Harmc in Ha. injection Ha as <-. eauto.
Qed.

(** X15. How the steps of a successful run feed each other, and what the
    response echoes: the timezone is resolved at the geocoded coordinates
    and is not empty; the local time of the request is read in that zone;
    the Julian day is that of its UTC conversion; the houses are computed
    for that day at those coordinates; the angles are entries 0 and 1 of
    [ascmc], normalized; the cusp entries are, in order, the normalized
    cusps (all twelve, or the last twelve of thirteen). *)
Theorem chart_pipeline (req : ChartRequest) t r :
  chart w req = (t, Ok r) ->
  let i := input r in
  exists local_dt utc_dt houses ascmc asc mc t1 t2 t3 t4,
    in_location_query i = location_query req /\
    geocode_location w (location_query req) = (t1, Ok (in_lat i, in_lon i, in_raw i)) /\
    resolve_timezone_name w (in_lat i) (in_lon i) = (t2, Ok (in_timezone i)) /\
    in_timezone i <> "" /\
    local_to_utc w (year req) (month req) (day req) (hour req) (minute req)
      (in_timezone i) = (t3, Ok (local_dt, utc_dt)) /\
    in_local_datetime i = dt_isoformat local_dt /\
    in_utc_datetime i = dt_isoformat utc_dt /\
    julian_day_ut w utc_dt = (t4, Ok (in_julian_day_ut i)) /\
    swe_houses_ex w (in_julian_day_ut i) (in_lat i) (in_lon i) HOUSE_SYSTEM
    = Ok (houses, ascmc) /\
    list_getitem ascmc 0 = Ok asc /\ normalize_deg asc = Ok (a_lon_deg (ASC r)) /\
    list_getitem ascmc 1 = Ok mc /\ normalize_deg mc = Ok (a_lon_deg (MC r)) /\
    Forall2 (fun x c => normalize_deg x = Ok (c_lon_deg c))
            (if decide (length houses = 12%nat) then houses else drop 1 houses)
            (house_cusps r).
Proof.
  intros H. cbv zeta.
  apply chart_run in H
    as (lat & lon & raw & tz & local_dt & utc_dt & jd & houses & ascmc & asc & mc
        & asc_pos & mc_pos & t1 & t2 & t3 & t4 & t6
        & Hg & Htz & Hl & Hj & Hh & Ha & Hm & _ & _ & _ & _ & _ & Hc & Hal & Hml & Hin & _).
  rewrite Hin. cbn [in_location_query in_lat in_lon in_raw in_timezone
                    in_local_datetime in_utc_datetime in_julian_day_ut].
  exists local_dt, utc_dt, houses, ascmc, asc, mc, t1, t2, t3, t4.
  repeat (split; [assumption || reflexivity|]).
  split.
  { destruct (resolve_timezone_name_cases w lat lon) as (t' & r' & E & _ & _ & Hne).
    rewrite Htz in E. injection E as _ <-. now apply Hne. }
  repeat (split; [assumption || reflexivity|]).
  apply cusps_loop_entries in Hc as (new & -> & Hall). cbn [app].
  eapply Forall2_impl; [exact Hall|].
  intros x c [j Hx]. now apply cusp_entry_ok in Hx as (_ & _ & Hn & _).
Qed.

End ChartTheorems.

Lemma sample_chart_runs :
  exists t r, chart (sample_world greenwich 0.5) sample_request = (t, Ok r).
Proof. eexists _, _. vm_compute. reflexivity. Qed.

Lemma chart_positions_witness :
  exists t r,
    chart (sample_world greenwich 0.5) sample_request = (t, Ok r) /\
    formats (a_sign (ASC r)) (a_deg (ASC r)) (a_min (ASC r)) (a_lon_deg (ASC r)) /\
    formats (a_sign (MC r)) (a_deg (MC r)) (a_min (MC r)) (a_lon_deg (MC r)) /\
    Forall (fun c => 0 <= float_val (c_lon_deg c) <= 360 * ONE) (house_cusps r).
Proof.
  destruct sample_chart_runs as (t & r & E). exists t, r. split; [exact E|].
  destruct (chart_positions (sample_world greenwich 0.5) sample_request t r E)
    as (H1 & H2 & H3 & _).
  split; [exact H1|]. split; [exact H2|].
  eapply Forall_impl; [exact H3|]. intros c [Hc _]. exact Hc.
Defined.

Lemma chart_http_statuses_witness :
  Forall (fun ev => is_swe_event ev = false)
    [EvNominatim "Greenwich, UK" true;
     EvRequestsGet open_meteo_url (open_meteo_params "Greenwich, UK") 10;
     EvTimezoneAt 51.5 0; EvClosestTimezoneAt 51.5 0].
Proof.
  apply (chart_http_statuses
           (checked_world (sample_world greenwich 0.5) (fun _ _ => None) (fun _ _ => None))
           sample_request _ 422 "Could not resolve timezone for this location.");
    [apply checked_world_py_only, sample_world_py_only|vm_compute; reflexivity].
Defined.

Lemma chart_ephemeris_calls_witness :
  exists t r,
    chart (sample_world greenwich 0.5) sample_request = (t, Ok r) /\
    exists before y mo d ut turns,
      t = before ++ EvJulday y mo d ut
                 :: EvHousesEx (in_julian_day_ut (input r)) (in_lat (input r))
                      (in_lon (input r)) HOUSE_SYSTEM :: concat turns /\
      length turns = 11%nat.
Proof.
  destruct sample_chart_runs as (t & r & E). exists t, r. split; [exact E|].
  destruct (chart_ephemeris_calls (sample_world greenwich 0.5) sample_request t r E)
    as (before & y & mo & d & ut & houses & ascmc & armc & turns & H1 & _ & _ & _ & _ & H2).
  exists before, y, mo, d, ut, turns. split; [exact H1|].
  apply Forall2_length in H2. now rewrite <- H2.
Defined.

Lemma chart_pipeline_witness :
  exists t r,
    chart (sample_world greenwich 0.5) sample_request = (t, Ok r) /\
    in_location_query (input r) = "Greenwich, UK" /\
    in_timezone (input r) <> "" /\
    exists houses ascmc,
      swe_houses_ex (sample_world greenwich 0.5) (in_julian_day_ut (input r))
        (in_lat (input r)) (in_lon (input r)) HOUSE_SYSTEM = Ok (houses, ascmc) /\
      Forall2 (fun x c => normalize_deg x = Ok (c_lon_deg c))
              (if decide (length houses = 12%nat) then houses else drop 1 houses)
              (house_cusps r).
Proof.
  destruct sample_chart_runs as (t & r & E). exists t, r. split; [exact E|].
  destruct (chart_pipeline (sample_world greenwich 0.5) sample_request t r E)
    as (local_dt & utc_dt & houses & ascmc & asc & mc & t1 & t2 & t3 & t4
        & H1 & _ & _ & H2 & _ & _ & _ & _ & H3 & _ & _ & _ & _ & H4).
  split; [exact H1|]. split; [exact H2|]. exists houses, ascmc. auto.
Defined.

(** ** Startup: the existence checks *)

Lemma ends_with_slash_app a b :
  b <> "" -> ends_with_slash (a +:+ b) = ends_with_slash b.
Proof.
  intros Hb. induction a as [|c a IH]; [reflexivity|].
  change (String c a +:+ b) with (String c (a +:+ b)).
  cbn [ends_with_slash]. rewrite IH.
  destruct (a +:+ b) eqn:E; [|reflexivity].
  destruct a; [cbn in E; contradiction|discriminate].
Qed.

Lemma path_join_ephe a :
  path_join a "ephe" = a +:+ "ephe" \/ path_join a "ephe" = a +:+ "/" +:+ "ephe".
Proof.
  unfold path_join. change (is_abs "ephe") with false. cbv iota.
  destruct (_ || _); auto.
Qed.

Lemma append_nonempty a b : b <> "" -> a +:+ b <> "".
Proof. destruct a; [auto|discriminate]. Qed.

Lemma path_join_under_ephe a name :
  is_abs name = false ->
  path_join (path_join a "ephe") name = path_join a "ephe" +:+ "/" +:+ name.
Proof.
  intros Hn. unfold path_join at 1. rewrite Hn.
  assert (H : String.eqb (path_join a "ephe") "" || ends_with_slash (path_join a "ephe")
              = false).
  { destruct (path_join_ephe a) as [-> | ->].
    - rewrite ends_with_slash_app by discriminate.
      replace (String.eqb (a +:+ "ephe") "") with false; [reflexivity|].
      symmetry. apply String.eqb_neq, append_nonempty. discriminate.
    - rewrite ends_with_slash_app by discriminate.
      replace (String.eqb (a +:+ "/" +:+ "ephe") "") with false; [reflexivity|].
      symmetry. apply String.eqb_neq, append_nonempty. discriminate. }
  rewrite H. reflexivity.
Qed.

(** X16. The two existence checks of startup look at [EPHE_PATH] and at
    [seas_18.se1] directly under it, whatever the module's location; for a
    module at an absolute path both are absolute paths, while the ephemeris
    path in force after startup is the relative ["./ephe"]. *)
Theorem startup_probes (w : world) :
  path_exists_probes (startup w).1
  = [EPHE_PATH w; EPHE_PATH w +:+ "/" +:+ "seas_18.se1"] /\
  (is_abs (module_file w) = true ->
   Forall (fun p => is_abs p = true) (path_exists_probes (startup w).1) /\
   ephe_path_after None (startup w).1 = Some "./ephe" /\
   is_abs "./ephe" = false).
Proof.
  assert (E : path_exists_probes (startup w).1
              = [EPHE_PATH w; EPHE_PATH w +:+ "/" +:+ "seas_18.se1"]).
  { transitivity [EPHE_PATH w; path_join (EPHE_PATH w) "seas_18.se1"]; [reflexivity|].
    unfold EPHE_PATH. now rewrite path_join_under_ephe. }
  rewrite E. split; [reflexivity|]. intros Habs.
  assert (Ha : is_abs (EPHE_PATH w) = true).
  { apply path_join_ephe_abs, dirname_abs, Habs. }
  split; [|split; reflexivity].
  repeat constructor; [exact Ha|].
  destruct (EPHE_PATH w); [discriminate|exact Ha].
Qed.
